(** * rpt2pnp: tape feed state, binding table and visit order

    A shallow embedding of the tape state machine (tape.cc), of the two
    binding-table producers (pnp-config.cc) and of the planner
    (SolderDispense, PickNPlace and the option handling of main), with the
    properties the specification states about them.

    Conventions of the embedding:
    - a C [float] is an IEEE-754 binary32 value, a [spec_float] of the
      standard library with precision 24 and exponent bound 128; its
      operations round to nearest even as the hardware does;
    - a C [int] is a [Z] in the 32-bit range, arithmetic on it wraps;
    - a [Tape*] is an index into the list of all tapes allocated so far,
      so that several component keys can share one tape;
    - what [sscanf] and the stream operators hand to the code is given as
      data (the converted values of a line), the code that consumes them is
      embedded as it is written. *)

From stdpp Require Import gmap strings list sorting.
From Stdlib Require Import ZArith QArith Lia Floats.SpecFloat.
From Stdlib Require Import Sorting.Sorted Sorting.Permutation Structures.OrdersEx.

Local Open Scope Z_scope.

(* ===================================================================== *)
(** * Numbers *)
(* ===================================================================== *)

(** ** binary32: the C type [float] *)

Definition float : Type := spec_float.

Module F32.
Definition prec : Z := 24.
Definition emax : Z := 128.

Definition add : float -> float -> float := SFadd prec emax.
Definition sub : float -> float -> float := SFsub prec emax.
Definition mul : float -> float -> float := SFmul prec emax.
Definition div : float -> float -> float := SFdiv prec emax.

(** [a < b] and [a == b] of C: false as soon as one side is a NaN. *)
Definition ltb : float -> float -> bool := SFltb.
Definition eqb : float -> float -> bool := SFeqb.

(** Conversion of an [int] (also of an integer literal) to [float]. *)
Definition of_int (n : Z) : float := binary_normalize prec emax n 0 false.

Definition zero : float := S754_zero false.

Definition is_nan (f : float) : bool :=
  match f with S754_nan => true | _ => false end.

(** [std::min(a, b)] is [(b < a) ? b : a]; [std::max(a, b)] is
    [(a < b) ? b : a]. *)
Definition min (a b : float) : float := if ltb b a then b else a.
Definition max (a b : float) : float := if ltb a b then b else a.
End F32.

(** ** binary64: the C type [double], for the one constant that has it *)

Module F64.
Definition prec : Z := 53.
Definition emax : Z := 1024.

Definition sub : float -> float -> float := SFsub prec emax.

(** Widening a [float] is exact; the mantissa is brought to 53 bits. *)
Definition of_float (f : float) : float :=
  match f with
  | S754_finite s m e => binary_normalize prec emax (cond_Zopp s (Zpos m)) e s
  | _ => f
  end.

(** Narrowing rounds to binary32. *)
Definition to_float (d : float) : float :=
  match d with
  | S754_finite s m e =>
      binary_normalize F32.prec F32.emax (cond_Zopp s (Zpos m)) e s
  | _ => d
  end.
End F64.

(** ** 32-bit [int] *)

Definition INT_MIN : Z := - 2 ^ 31.
Definition INT_MAX : Z := 2 ^ 31 - 1.

Definition int_range (n : Z) : Prop := INT_MIN <= n <= INT_MAX.

Definition int_wrap (n : Z) : Z := (n + 2 ^ 31) mod 2 ^ 32 - 2 ^ 31.

(* ===================================================================== *)
(** * tape.cc: the feed state of one reel *)
(* ===================================================================== *)

(** [slant_angle_] is only ever written with a literal or with
    [360.0 / (2 * M_PI) * atan2f(dy, dx)]; [atan2f] belongs to the C
    library, so the field records which of the two it holds. *)
Inductive slant :=
  | SlantLiteral (f : float)
  | SlantAtan2 (dy dx : float).

Record Tape := mkTape {
  x_ : float;
  y_ : float;
  z_ : float;
  dx_ : float;
  dy_ : float;
  angle_ : float;
  slant_angle_ : slant;
  count_ : Z
}.

(** [Tape::Tape()] *)
Definition Tape_new : Tape :=
  {| x_ := F32.zero; y_ := F32.zero; z_ := F32.zero;
     dx_ := F32.zero; dy_ := F32.zero;
     angle_ := F32.zero; slant_angle_ := SlantLiteral F32.zero;
     count_ := 1000 |}.

Definition SetFirstComponentPosition (x y z : float) (t : Tape) : Tape :=
  {| x_ := x; y_ := y; z_ := z;
     dx_ := dx_ t; dy_ := dy_ t;
     angle_ := angle_ t; slant_angle_ := slant_angle_ t;
     count_ := count_ t |}.

Definition SetComponentSpacing (dx dy : float) (t : Tape) : Tape :=
  {| x_ := x_ t; y_ := y_ t; z_ := z_ t;
     dx_ := dx; dy_ := dy;
     angle_ := angle_ t; slant_angle_ := SlantAtan2 dy dx;
     count_ := count_ t |}.

Definition SetNumberComponents (n : Z) (t : Tape) : Tape :=
  {| x_ := x_ t; y_ := y_ t; z_ := z_ t;
     dx_ := dx_ t; dy_ := dy_ t;
     angle_ := angle_ t; slant_angle_ := slant_angle_ t;
     count_ := n |}.

(** Modelled from the spec: [tape.h] is not part of the sources at hand;
    it declares the class and its inline members.  [SetAngle] stores the
    placement angle offset, [height()] is the z of the pickup position and
    [angle()] reads the angle back. *)
Definition SetAngle (a : float) (t : Tape) : Tape :=
  {| x_ := x_ t; y_ := y_ t; z_ := z_ t;
     dx_ := dx_ t; dy_ := dy_ t;
     angle_ := a; slant_angle_ := slant_angle_ t;
     count_ := count_ t |}.

Definition height (t : Tape) : float := z_ t.
Definition angle (t : Tape) : float := angle_ t.

(** [bool Tape::GetPos(float *x, float *y) const].  The arguments [x], [y]
    are what the two out-variables hold before the call; they come back
    untouched when the call fails. *)
Definition GetPos (t : Tape) (x y : float) : bool * (float * float) :=
  if count_ t <=? 0 then (false, (x, y))
  else (true, (x_ t, y_ t)).

(** [bool Tape::Advance()]: the result and the tape afterwards. *)
Definition Advance (t : Tape) : bool * Tape :=
  if count_ t <=? 0 then (false, t)
  else
    (true,
     {| x_ := F32.add (x_ t) (dx_ t);
        y_ := F32.add (y_ t) (dy_ t);
        z_ := z_ t;
        dx_ := dx_ t; dy_ := dy_ t;
        angle_ := angle_ t; slant_angle_ := slant_angle_ t;
        count_ := int_wrap (count_ t - 1) |}).

(** The operations of the class, to speak about all of them at once. *)
Inductive TapeOp :=
  | OpSetFirstComponentPosition (x y z : float)
  | OpSetComponentSpacing (dx dy : float)
  | OpSetAngle (a : float)
  | OpSetNumberComponents (n : Z)
  | OpGetPos
  | OpAdvance.

Definition apply_op (o : TapeOp) (t : Tape) : Tape :=
  match o with
  | OpSetFirstComponentPosition x y z => SetFirstComponentPosition x y z t
  | OpSetComponentSpacing dx dy => SetComponentSpacing dx dy t
  | OpSetAngle a => SetAngle a t
  | OpSetNumberComponents n => SetNumberComponents n t
  | OpGetPos => t
  | OpAdvance => snd (Advance t)
  end.

(** [k] calls of [Advance] in a row: the results, oldest first, and the
    tape afterwards. *)
Fixpoint Advance_n (k : nat) (t : Tape) : list bool * Tape :=
  match k with
  | O => ([], t)
  | S k' =>
      let '(b, t') := Advance t in
      let '(bs, t'') := Advance_n k' t' in
      (b :: bs, t'')
  end.

(** [k] float additions of [d] to [p], in the order the code performs
    them. *)
Definition add_n (k : nat) (d p : float) : float :=
  Nat.iter k (fun q => F32.add q d) p.

(* ===================================================================== *)
(** * The board and the binding table *)
(* ===================================================================== *)

Record Position := mkPosition { pos_x : float; pos_y : float }.

(** Modelled from the spec: [board.h] is not part of the sources at hand.
    A pad is a solder-pad position relative to its part, with an area; a
    part has the members the code reads ([component_name], [footprint],
    [value], [pos], [pads]).  The code handles parts through [const Part*];
    [part_addr] is the address of the object, compared by [a == b]. *)
Record Pad := mkPad { pad_pos : Position; pad_area : float }.

Record Part := mkPart {
  part_addr : nat;
  component_name : string;
  footprint : string;
  value : string;
  pos : Position;
  pads : list Pad
}.

Record Board := mkBoard { parts : list Part }.

(** All tapes allocated by [new Tape()], oldest first; a [Tape*] is an
    index into this list. *)
Abbreviation heap := (list Tape).


#[global] Instance Tape_inhabited : Inhabited Tape := populate Tape_new.

Definition new_Tape (h : heap) : heap * nat := (h ++ [Tape_new], length h).

(** [struct PnPConfig]: [board.origin], [board.top], [bed_level] and the
    map [tape_for_component] from a key to the tape that supplies it. *)
Record PnPConfig := mkPnPConfig {
  board_origin : Position;
  board_top : float;
  bed_level : float;
  tape_for_component : gmap string nat
}.

Definition set_board_origin (p : Position) (c : PnPConfig) : PnPConfig :=
  {| board_origin := p; board_top := board_top c;
     bed_level := bed_level c; tape_for_component := tape_for_component c |}.

Definition set_board_top (z : float) (c : PnPConfig) : PnPConfig :=
  {| board_origin := board_origin c; board_top := z;
     bed_level := bed_level c; tape_for_component := tape_for_component c |}.

Definition set_bed_level (z : float) (c : PnPConfig) : PnPConfig :=
  {| board_origin := board_origin c; board_top := board_top c;
     bed_level := z; tape_for_component := tape_for_component c |}.

Definition bind_tape (key : string) (t : nat) (c : PnPConfig) : PnPConfig :=
  {| board_origin := board_origin c; board_top := board_top c;
     bed_level := bed_level c;
     tape_for_component := <[key := t]> (tape_for_component c) |}.

(** [#define TYPICAL_BOARD_THICKNESS 1.6], a [double]:
    [0x1.999999999999ap+0]. *)
Definition TYPICAL_BOARD_THICKNESS : float :=
  S754_finite false 7205759403792794 (-52).

(* ===================================================================== *)
(** * pnp-config.cc: ParsePnPConfiguration *)
(* ===================================================================== *)






(** One round of the reading loop: the first token of the line and what
    the conversions of the rest of the line deliver.  A list of converted
    values holds the items [sscanf] assigned, in order; its length is the
    result of [sscanf] (an end-of-input result counts as no item).  The
    names of a [Tape:] line are [Tape_names] of the rest of the line. *)
Inductive config_line :=
  | CL_skip                                (* empty token, or a comment *)
  | CL_Board
  | CL_TapeTrayOrigin (vals : list float)  (* "%f %f %f" *)
  | CL_Tape (names : list string)          (* keys the inner loop assigns *)
  | CL_origin (vals : list float)          (* "%f %f %f" *)
  | CL_spacing (vals : list float)         (* "%f %f" *)
  | CL_angle (vals : list float)           (* "%f" *)
  | CL_count (vals : list Z)               (* "%d" *)
  | CL_invalid (token : string).

(** The locals of the function that live across lines. *)
Record parse_state := mkParseState {
  ps_result : PnPConfig;
  ps_heap : heap;
  ps_current_tape : option nat;
  ps_tray_origin : Position;
  ps_tray_height : float
}.

Definition ps_with_result (c : PnPConfig) (s : parse_state) : parse_state :=
  mkParseState c (ps_heap s) (ps_current_tape s)
               (ps_tray_origin s) (ps_tray_height s).

Definition ps_with_heap (h : heap) (s : parse_state) : parse_state :=
  mkParseState (ps_result s) h (ps_current_tape s)
               (ps_tray_origin s) (ps_tray_height s).

Definition ps_with_current (t : option nat) (s : parse_state) : parse_state :=
  mkParseState (ps_result s) (ps_heap s) t
               (ps_tray_origin s) (ps_tray_height s).

(** The body of the loop for one line; [None] is [return NULL]. *)
Definition parse_line (s : parse_state) (l : config_line) : option parse_state :=
  match l with
  | CL_skip => Some s
  | CL_Board => Some (ps_with_current None s)
  | CL_TapeTrayOrigin vals =>
      match vals with
      | x :: y :: rest =>
          Some (mkParseState (ps_result s) (ps_heap s) None
                  (mkPosition x y)
                  (match rest with z :: _ => z | [] => ps_tray_height s end))
      | _ => None
      end
  | CL_Tape names =>
      let '(h, t) := new_Tape (ps_heap s) in
      let h := alter (SetAngle (F32.of_int 90)) t h in
      Some (mkParseState
              (foldl (fun c name => bind_tape name t c) (ps_result s) names)
              h (Some t) (ps_tray_origin s) (ps_tray_height s))
  | CL_origin vals =>
      match ps_current_tape s with
      | Some t =>
          match vals with
          | [x; y; z] =>
              Some (ps_with_heap
                      (alter (SetFirstComponentPosition
                                (F32.add x (pos_x (ps_tray_origin s)))
                                (F32.add y (pos_y (ps_tray_origin s)))
                                (F32.add z (ps_tray_height s)))
                             t (ps_heap s)) s)
          | _ => None
          end
      | None =>
          match vals with
          | x :: y :: rest =>
              let c := set_board_origin (mkPosition x y) (ps_result s) in
              Some (ps_with_result
                      (match rest with
                       | z :: _ => set_board_top z c
                       | [] => c
                       end) s)
          | _ => None
          end
      end
  | CL_spacing vals =>
      match ps_current_tape s with
      | None => None
      | Some t =>
          match vals with
          | [x; y] =>
              if F32.eqb x (F32.of_int 0) && F32.eqb y (F32.of_int 0)
              then None
              else Some (ps_with_heap
                           (alter (SetComponentSpacing x y) t (ps_heap s)) s)
          | _ => None
          end
      end
  | CL_angle vals =>
      match ps_current_tape s with
      | None => None
      | Some t =>
          match vals with
          | [x] => Some (ps_with_heap (alter (SetAngle x) t (ps_heap s)) s)
          | _ => None
          end
      end
  | CL_count vals =>
      match ps_current_tape s with
      | None => None
      | Some t =>
          match vals with
          | [count] =>
              Some (ps_with_heap
                      (alter (SetNumberComponents count) t (ps_heap s)) s)
          | _ => None
          end
      end
  | CL_invalid _ => None
  end.

Fixpoint parse_lines (s : parse_state) (ls : list config_line)
  : option parse_state :=
  match ls with
  | [] => Some s
  | l :: ls' =>
      match parse_line s l with
      | Some s' => parse_lines s' ls'
      | None => None
      end
  end.

(** How the stream stands after the rounds that read the file.  It fails
    short of the end of the file when the file cannot be opened, and when
    the rest of a line, after its first token, has 1024 characters or more
    and does not fit [buffer]: from then on [in >> token] leaves [token]
    empty, [in.eof()] never holds, and every round is skipped. *)
Inductive stream_end :=
  | EndOfFile
  | StreamFails.

(** A call returns a value or does not return at all. *)
Inductive run (A : Type) :=
  | Returns (a : A)
  | NeverReturns.
Arguments Returns {A} a.
Arguments NeverReturns {A}.

(** [ParsePnPConfiguration].  [ls] are the rounds of [while (!in.eof())]
    up to and including the one in which the stream reaches the end of the
    file or fails, and [e] says which of the two; a file that cannot be
    opened has no such round.  When the stream has failed the loop does not
    end, unless a round has returned null before.  [new_config] is the
    object [new PnPConfig()] yields and [new_position] the value of a
    default-constructed [Position]; both constructors are declared in
    headers that are not part of the sources at hand. *)
Definition ParsePnPConfiguration (new_config : PnPConfig) (new_position : Position)
    (ls : list config_line) (e : stream_end) : run (option (PnPConfig * heap)) :=
  match parse_lines (mkParseState new_config [] None new_position F32.zero) ls with
  | Some s =>
      match e with
      | EndOfFile =>
          Returns (Some (set_bed_level (F32.of_int 0) (ps_result s), ps_heap s))
      | StreamFails => NeverReturns
      end
  | None => Returns None
  end.

(* ===================================================================== *)
(** * pnp-config.cc: ParseSimplePnPConfiguration *)
(* ===================================================================== *)

(** [FindPartPos]: the position of the first part with that name. *)
Fixpoint FindPartPos (ps : list Part) (part_name : string) : option Position :=
  match ps with
  | [] => None
  | part :: ps' =>
      if String.eqb (component_name part) part_name then Some (pos part)
      else FindPartPos ps' part_name
  end.

(** What the three [sscanf] attempts make of one chunk read by [fgets].
    [designator] is the word that [%s] stores in [char designator[256]].
    A chunk that no attempt converts in full may still have a word stored
    by the one attempt whose text before [%s] it matches: [stored].  The
    loop is followed for words that fit the array (see [fits_designator]);
    [%s] has no width, and a longer word is written past the end of the
    array. *)
Inductive simple_line :=
  | SL_tape (tape_idx : Z) (designator : string) (x y z : float)
  | SL_board (designator : string) (x y z : float)
  | SL_bedlevel (designator : string) (x y z : float)
  | SL_other (stored : option string).

(** A word and its closing 0 fit [char designator[256]]. *)
Definition fits_designator (word : string) : bool :=
  Nat.leb (String.length word) 255.

(** A run either goes on with a value or has read a variable that was
    never written. *)
Inductive outcome (A : Type) :=
  | Defined (a : A)
  | ReadsUninitialized.
Arguments Defined {A} a.
Arguments ReadsUninitialized {A}.

(** The body of the [while (fgets ...)] loop, for a chunk whose word fits
    [designator]. *)
Definition simple_line_step (board : Board) (st : PnPConfig * heap)
    (l : simple_line) : outcome (PnPConfig * heap) :=
  let '(c, h) := st in
  match l with
  | SL_tape tape_idx designator x y z =>
      if tape_idx =? 1 then
        let '(h, t) := new_Tape h in
        let h := alter (SetAngle (F32.of_int 90)) t h in
        let h := alter (SetFirstComponentPosition x y z) t h in
        Defined (bind_tape designator t c, h)
      else
        match tape_for_component c !! designator with
        | Some t =>
            let advance := int_wrap (tape_idx - 1) in
            (* [float old_x, old_y;] hold nothing before the call, whose
               result the code drops: they are read only if it wrote them *)
            let '(written, (old_x, old_y)) :=
              GetPos (h !!! t) F32.zero F32.zero in
            if written then
              let dx := F32.div (F32.sub x old_x) (F32.of_int advance) in
              let dy := F32.div (F32.sub y old_y) (F32.of_int advance) in
              Defined (c, alter (SetComponentSpacing dx dy) t h)
            else ReadsUninitialized
        | None => Defined (c, h)
        end
  | SL_board designator x y z =>
      let c :=
        match FindPartPos (parts board) designator with
        | Some part_pos =>
            set_board_origin
              (mkPosition (F32.sub x (pos_x part_pos))
                          (F32.sub y (pos_y part_pos))) c
        | None => c
        end in
      let c := set_board_top z c in
      let c :=
        if F32.ltb (bed_level c) (F32.of_int 0) then
          set_bed_level
            (F64.to_float (F64.sub (F64.of_float (board_top c))
                                   TYPICAL_BOARD_THICKNESS)) c
        else c in
      Defined (c, h)
  | SL_bedlevel designator x y z => Defined (set_bed_level z c, h)
  | SL_other _ => Defined (c, h)
  end.

Fixpoint simple_lines (board : Board) (st : PnPConfig * heap)
    (ls : list simple_line) : outcome (PnPConfig * heap) :=
  match ls with
  | [] => Defined st
  | l :: ls' =>
      match simple_line_step board st l with
      | Defined st' => simple_lines board st' ls'
      | ReadsUninitialized => ReadsUninitialized
      end
  end.

(** [std::map] is walked in the order of its keys. *)
Definition key_le (a b : string * nat) : Prop :=
  String.leb (fst a) (fst b) = true.

#[global] Instance key_le_dec a b : Decision (key_le a b).
Proof. unfold key_le. apply _. Defined.

Definition in_key_order (m : gmap string nat) : list (string * nat) :=
  merge_sort key_le (map_to_list m).

(** The loop of the cross check: the lowest of [board.top] and of the
    heights of all bound tapes. *)
Definition lowest_value (c : PnPConfig) (h : heap) : float :=
  foldl (fun lowest (t : string * nat) => F32.min lowest (height (h !!! snd t)))
        (board_top c) (in_key_order (tape_for_component c)).

Definition cross_check (c : PnPConfig) (h : heap) : option (PnPConfig * heap) :=
  if F32.ltb (lowest_value c h) (bed_level c) then None
  else Some (c, h).

(** [ParseSimplePnPConfiguration].  [file] is [None] when the file cannot
    be opened, and else the chunks [fgets] reads from it. *)
Definition ParseSimplePnPConfiguration (new_config : PnPConfig) (board : Board)
    (file : option (list simple_line)) : outcome (option (PnPConfig * heap)) :=
  match file with
  | None => Defined None
  | Some ls =>
      match simple_lines board (new_config, []) ls with
      | Defined (c, h) => Defined (cross_check c h)
      | ReadsUninitialized => ReadsUninitialized
      end
  end.

(** [CreateEmptyConfiguration] *)
Definition CreateEmptyConfiguration (new_config : PnPConfig) : PnPConfig :=
  set_bed_level (F32.of_int 0)
    (set_board_top (F64.to_float TYPICAL_BOARD_THICKNESS)
       (set_board_origin (mkPosition (F32.of_int 0) (F32.of_int 0)) new_config)).

(* ===================================================================== *)
(** * The machine interface *)
(* ===================================================================== *)

(** Modelled from the spec: [machine.h] and the two backends are not part
    of the sources at hand.  The planner drives a machine through
    [PickPart(part, tape)], [PlacePart(part, tape)] and
    [Dispense(part, pad)]; a call may read the tapes (it gets a
    [const Tape*], and the memory it points into) and changes only the
    machine's own state.  [stderr] is one stream for the planner and the
    machine: [PickPart] and [PlacePart] return, next to the new state of
    the machine, the lines they write to it. *)
Class Machine (M : Type) := {
  PickPart : Part -> option nat -> heap -> M -> M * list string;
  PlacePart : Part -> option nat -> heap -> M -> M * list string;
  Dispense : Part -> Pad -> M -> M
}.

(** The machine that only writes down how it is called, and writes
    nothing to [stderr]; a tape argument is written down with the state
    the tape has at the call. *)
Inductive call :=
  | CallPickPart (part : Part) (tape : option (nat * Tape))
  | CallPlacePart (part : Part) (tape : option (nat * Tape))
  | CallDispense (part : Part) (pad : Pad).

Definition tape_arg (tape : option nat) (h : heap) : option (nat * Tape) :=
  match tape with
  | Some t => Some (t, h !!! t)
  | None => None
  end.

#[global] Instance Recorder : Machine (list call) := {
  PickPart part tape h log := (log ++ [CallPickPart part (tape_arg tape h)], []);
  PlacePart part tape h log := (log ++ [CallPlacePart part (tape_arg tape h)], []);
  Dispense part pad log := log ++ [CallDispense part pad]
}.

(** Modelled from the spec: the backends are not part of the sources at
    hand.  The spec has the exhaustion of a tape reported to the operator
    at each occurrence, and [PickNPlace], which drops the result of
    [Advance], hands the tape to the machine.  This backend writes its
    calls down, and its [PickPart] asks the tape it is handed for the
    position of the component: when [GetPos] fails it writes one line
    about the part, whose wording is the backend's own,
    [backend_report]. *)
Record Backend := mkBackend {
  backend_report : Part -> string;
  backend_calls : list call
}.

#[global] Instance Backend_Machine : Machine Backend := {
  PickPart part tape h m :=
    (mkBackend (backend_report m)
       (backend_calls m ++ [CallPickPart part (tape_arg tape h)]),
     match tape with
     | Some t =>
         if fst (GetPos (h !!! t) F32.zero F32.zero) then []
         else [backend_report m part]
     | None => []
     end);
  PlacePart part tape h m :=
    (mkBackend (backend_report m)
       (backend_calls m ++ [CallPlacePart part (tape_arg tape h)]), []);
  Dispense part pad m :=
    mkBackend (backend_report m) (backend_calls m ++ [CallDispense part pad])
}.

(* ===================================================================== *)
(** * The planner: pick and place *)
(* ===================================================================== *)

Definition component_key (part : Part) : string :=
  footprint part +:+ "@" +:+ value part.

(** [FindTapeForPart]; [None] is the null pointer. *)
Definition FindTapeForPart (config : PnPConfig) (part : Part) : option nat :=
  tape_for_component config !! component_key part.

(** [ComponentHeightComparator::GetHeight] *)
Definition GetHeight (config : PnPConfig) (h : heap) (part : Part) : float :=
  match FindTapeForPart config part with
  | None => F32.of_int (-1)
  | Some tape => height (h !!! tape)
  end.

(** [ComponentHeightComparator::operator()] *)
Definition ComponentHeightComparator (config : PnPConfig) (h : heap)
    (a b : Part) : bool :=
  if Nat.eqb (part_addr a) (part_addr b) then false
  else
    let a_height := GetHeight config h a in
    let b_height := GetHeight config h b in
    if F32.eqb a_height b_height
    then String.ltb (component_name a) (component_name b)
    else F32.ltb a_height b_height.

(** What [std::sort] asks of [comp]: a strict weak ordering of the
    elements of the range.  [comp] puts no element before itself, it is
    transitive, and so is "neither before the other". *)
Definition strict_weak_ordering {A : Type} (comp : A -> A -> bool) (l : list A)
  : Prop :=
  (forall a, a ∈ l -> comp a a = false) /\
  (forall a b c, a ∈ l -> b ∈ l -> c ∈ l ->
     comp a b = true -> comp b c = true -> comp a c = true) /\
  (forall a b c, a ∈ l -> b ∈ l -> c ∈ l ->
     comp a b = false -> comp b a = false ->
     comp b c = false -> comp c b = false ->
     comp a c = false /\ comp c a = false).

(** What [std::sort(first, last, comp)] leaves in the range: the same
    elements, which it only moves; and, when [comp] is a strict weak
    ordering of them, no later element that [comp] puts before an earlier
    one.  With any other [comp] it promises no order, and it never
    promises one for elements that [comp] does not tell apart. *)
Definition std_sort_post {A : Type} (comp : A -> A -> bool) (l out : list A)
  : Prop :=
  Permutation l out /\
  (strict_weak_ordering comp l ->
   StronglySorted (fun a b => comp b a = false) out).

(** The list the loop of [PickNPlace] walks. *)
Definition visit_order (config : option PnPConfig) (h : heap) (board : Board)
    (list_ : list Part) : Prop :=
  match config with
  | Some c => std_sort_post (ComponentHeightComparator c h) (parts board) list_
  | None => list_ = parts board
  end.

(** What [PickNPlace] changes: the tapes, the lines on [stderr], its own
    and those of the machine, and the machine. *)
Record pnp_state (M : Type) := mkPnpState {
  pnp_heap : heap;
  pnp_stderr : list string;
  pnp_machine : M
}.
Arguments mkPnpState {M} _ _ _.
Arguments pnp_heap {M} _.
Arguments pnp_stderr {M} _.
Arguments pnp_machine {M} _.

(** [fprintf(stderr, "No tape for '%s'\n", part->component_name.c_str())] *)
Definition newline : string := String (Ascii.ascii_of_nat 10) EmptyString.

Definition no_tape_message (part : Part) : string :=
  "No tape for '" +:+ component_name part +:+ "'" +:+ newline.

(** The body of [for (const Part *part : list)]. *)
Definition PickNPlace_step {M} `{Machine M} (config : option PnPConfig)
    (st : pnp_state M) (part : Part) : pnp_state M :=
  let tape :=
    match config with
    | Some c => FindTapeForPart c part
    | None => None
    end in
  let err :=
    match config, tape with
    | Some _, None => pnp_stderr st ++ [no_tape_message part]
    | _, _ => pnp_stderr st
    end in
  let picked := PickPart part tape (pnp_heap st) (pnp_machine st) in
  let placed := PlacePart part tape (pnp_heap st) (fst picked) in
  let h :=
    match tape with
    | Some t => alter (fun tp => snd (Advance tp)) t (pnp_heap st)
    | None => pnp_heap st
    end in
  mkPnpState h (err ++ snd picked ++ snd placed) (fst placed).

Definition PickNPlace_loop {M} `{Machine M} (config : option PnPConfig)
    (list_ : list Part) (st : pnp_state M) : pnp_state M :=
  foldl (PickNPlace_step config) st list_.

(** [PickNPlace]: the loop over any list [std::sort] may leave. *)
Definition PickNPlace {M} `{Machine M} (config : option PnPConfig)
    (board : Board) (st st' : pnp_state M) : Prop :=
  exists list_,
    visit_order config (pnp_heap st) board list_ /\
    st' = PickNPlace_loop config list_ st.

(** The parts of a list whose tape has run out when their turn comes. *)
Fixpoint exhausted_picks (config : PnPConfig) (h : heap) (list_ : list Part)
  : list Part :=
  match list_ with
  | [] => []
  | part :: rest =>
      match FindTapeForPart config part with
      | Some t =>
          (if fst (Advance (h !!! t)) then [] else [part]) ++
          exhausted_picks config (alter (fun tp => snd (Advance tp)) t h) rest
      | None => exhausted_picks config h rest
      end
  end.

(** A sort that does what [std::sort] promises, to have a list to walk:
    insertion from the right, before the first element that [comp] puts
    after the new one. *)
Fixpoint sort_insert {A : Type} (comp : A -> A -> bool) (x : A) (l : list A)
  : list A :=
  match l with
  | [] => [x]
  | y :: l' => if comp y x then y :: sort_insert comp x l' else x :: y :: l'
  end.

Definition insertion_sort {A : Type} (comp : A -> A -> bool) (l : list A)
  : list A :=
  foldr (sort_insert comp) [] l.

(* ===================================================================== *)
(** * The planner: solder dispensing *)
(* ===================================================================== *)

(** An element of [OptimizeList]: a part and one of its pads. *)
Definition DispenseUnit : Type := Part * Pad.

(** The first loop of [SolderDispense]. *)
Definition all_pads (board : Board) : list DispenseUnit :=
  flat_map (fun part => map (fun pad => (part, pad)) (pads part)) (parts board).

(** Modelled from the spec: [Distance] is declared in [board.h], which is
    not part of the sources at hand; the distance of two points. *)
Definition Distance (a b : Position) : float :=
  let dx := F32.sub (pos_x a) (pos_x b) in
  let dy := F32.sub (pos_y a) (pos_y b) in
  SFsqrt F32.prec F32.emax (F32.add (F32.mul dx dx) (F32.mul dy dy)).

Definition unit_point (u : DispenseUnit) : Position :=
  mkPosition (F32.add (pos_x (pos (fst u))) (pos_x (pad_pos (snd u))))
             (F32.add (pos_y (pos (fst u))) (pos_y (pad_pos (snd u)))).

(** Modelled from the spec: [OptimizeParts] is defined in a module that is
    not part of the sources at hand.  The spec asks for a pure reordering
    that shortens the travel and names the heuristic that suffices: from
    the previous point go to the nearest pad not yet visited.  The walk
    starts at the first pad of the collection. *)
Fixpoint take_nearest (from : Position) (best : DispenseUnit)
    (rest : list DispenseUnit) : DispenseUnit * list DispenseUnit :=
  match rest with
  | [] => (best, [])
  | u :: rest' =>
      if F32.ltb (Distance from (unit_point u)) (Distance from (unit_point best))
      then let '(b, r) := take_nearest from u rest' in (b, best :: r)
      else let '(b, r) := take_nearest from best rest' in (b, u :: r)
  end.

Fixpoint nearest_first (fuel : nat) (from : Position) (todo : list DispenseUnit)
  : list DispenseUnit :=
  match fuel, todo with
  | S fuel', u :: rest =>
      let '(b, r) := take_nearest from u rest in
      b :: nearest_first fuel' (unit_point b) r
  | _, _ => todo
  end.

Definition OptimizeParts (l : list DispenseUnit) : list DispenseUnit :=
  match l with
  | [] => []
  | u :: rest => u :: nearest_first (length rest) (unit_point u) rest
  end.

(** [SolderDispense] *)
Definition SolderDispense {M} `{Machine M} (board : Board) (machine : M) : M :=
  foldl (fun m (p : DispenseUnit) => Dispense (fst p) (snd p) m) machine
        (OptimizeParts (all_pads board)).

(* ===================================================================== *)
(** * main: the options *)
(* ===================================================================== *)

Definition minimum_milliseconds : float := F32.of_int 50.
Definition area_to_milliseconds : float := F32.of_int 25.

Inductive OutputType :=
  | OUT_NONE
  | OUT_DISPENSING
  | OUT_PICKNPLACE
  | OUT_CONFIG_TEMPLATE
  | OUT_CONFIG_LIST
  | OUT_HOMER_INSTRUCTION.

(** What [getopt] delivers; for [-D] the values that
    [sscanf(optarg, "%f,%f", ...)] converts. *)
Inductive cli_option :=
  | Opt_P
  | Opt_c (optarg : string)
  | Opt_C (optarg : string)
  | Opt_D (vals : list float)
  | Opt_t
  | Opt_l
  | Opt_H
  | Opt_p
  | Opt_d
  | Opt_other.

Record main_locals := mkMainLocals {
  output_type : OutputType;
  start_ms : float;
  area_ms : float;
  config_filename : option string;
  simple_config_filename : option string;
  out_postscript : bool
}.

Definition main_locals_init : main_locals :=
  mkMainLocals OUT_NONE minimum_milliseconds area_to_milliseconds
               None None false.

Definition with_output_type (o : OutputType) (s : main_locals) : main_locals :=
  mkMainLocals o (start_ms s) (area_ms s) (config_filename s)
               (simple_config_filename s) (out_postscript s).

(** One round of the [getopt] loop; [None] is [return usage(argv[0])]. *)
Definition main_option (s : main_locals) (o : cli_option) : option main_locals :=
  match o with
  | Opt_P =>
      Some (mkMainLocals (output_type s) (start_ms s) (area_ms s)
              (config_filename s) (simple_config_filename s) true)
  | Opt_c optarg =>
      Some (mkMainLocals (output_type s) (start_ms s) (area_ms s)
              (Some optarg) (simple_config_filename s) (out_postscript s))
  | Opt_C optarg =>
      Some (mkMainLocals (output_type s) (start_ms s) (area_ms s)
              (config_filename s) (Some optarg) (out_postscript s))
  | Opt_D vals =>
      match vals with
      | [a; b] =>
          Some (mkMainLocals (output_type s) a b
                  (config_filename s) (simple_config_filename s)
                  (out_postscript s))
      | _ => None
      end
  | Opt_t => Some (with_output_type OUT_CONFIG_TEMPLATE s)
  | Opt_l => Some (with_output_type OUT_CONFIG_LIST s)
  | Opt_H => Some (with_output_type OUT_HOMER_INSTRUCTION s)
  | Opt_p => Some (with_output_type OUT_PICKNPLACE s)
  | Opt_d => Some (with_output_type OUT_DISPENSING s)
  | Opt_other => None
  end.

Fixpoint main_options (s : main_locals) (os : list cli_option)
  : option main_locals :=
  match os with
  | [] => Some s
  | o :: os' =>
      match main_option s o with
      | Some s' => main_options s' os'
      | None => None
      end
  end.

(** The exact value of a finite [float]. *)
Definition float_value (f : float) : option Q :=
  match f with
  | S754_zero _ => Some 0%Q
  | S754_finite s m e =>
      Some (inject_Z (cond_Zopp s (Zpos m)) * Qpower 2 e)%Q
  | _ => None
  end.

(* ===================================================================== *)
(** * The planner: what a board holds, and the files made from it *)
(* ===================================================================== *)

(** [typedef std::map<std::string, int> ComponentCount] *)
Abbreviation ComponentCount := (gmap string Z).

(** [ExtractComponents]: the total it returns and the map it leaves
    behind its pointer argument.  The increment of the entry of [key]
    starts an absent key at 0, as [operator[]] creates it. *)
Definition ExtractComponents (list_ : list Part) (c : ComponentCount)
  : Z * ComponentCount :=
  foldl (fun (st : Z * ComponentCount) part =>
           let key := component_key part in
           (int_wrap (fst st + 1),
            <[key := int_wrap (default 0 (snd st !! key) + 1)]> (snd st)))
        (0, c) list_.

(** [FindPartClosestTo].  [Distance] is declared in [board.h], which is
    not part of the sources at hand, and is taken as the parameter
    [distance]; [None] is the null pointer. *)
Definition FindPartClosestTo (distance : Position -> Position -> float)
    (list_ : list Part) (pos_ : Position) : option Part :=
  fst (foldl (fun (st : option Part * float) part =>
                let dist := distance (pos part) pos_ in
                if F32.ltb (snd st) (F32.of_int 0) || F32.ltb dist (snd st)
                then (Some part, dist)
                else st)
             (None, F32.of_int (-1)) list_).

(** ** The instructions for finding tapes and board *)

(** A [ComponentCount] is walked in the order of its keys. *)
Definition count_key_le (a b : string * Z) : Prop :=
  String.leb (fst a) (fst b) = true.

#[global] Instance count_key_le_dec a b : Decision (count_key_le a b).
Proof. unfold count_key_le. apply _. Defined.

Definition counts_in_key_order (m : ComponentCount) : list (string * Z) :=
  merge_sort count_key_le (map_to_list m).

(** The lines [CreateHomerInstruction] prints, without the text after the
    tab: [bedlevel:BedLevel-Z], [tape<idx>:<key>] and [board:<name>]. *)
Inductive homer_line :=
  | HL_bedlevel
  | HL_tape (idx : Z) (key : string)
  | HL_board (name : string).

(** [CreateHomerInstruction].  [dimension] is what [board.dimension()]
    returns, its [w] and [h] as the two coordinates. *)
Definition CreateHomerInstruction (distance : Position -> Position -> float)
    (board : Board) (dimension : Position) : list homer_line :=
  let components := snd (ExtractComponents (parts board) ∅) in
  [HL_bedlevel] ++
  flat_map (fun pair : string * Z =>
              let next_pos := Z.min (Z.max 2 (snd pair)) 4 in
              [HL_tape 1 (fst pair); HL_tape next_pos (fst pair)])
           (counts_in_key_order components) ++
  match FindPartClosestTo distance (parts board)
          (mkPosition (F32.of_int 0) (F32.of_int 0)) with
  | Some board_part => [HL_board (component_name board_part)]
  | None => []
  end ++
  match FindPartClosestTo distance (parts board)
          (mkPosition (pos_x dimension) (pos_y dimension)) with
  | Some board_part => [HL_board (component_name board_part)]
  | None => []
  end.

(** ** The list and the configuration template *)

(** [CreateList]: for each line the three arguments of
    [printf("%-*s %4d\n", longest, key, count)], and the total that goes to
    [stderr]. *)
Definition CreateList (list_ : list Part) : list (Z * string * Z) * Z :=
  let r := ExtractComponents list_ ∅ in
  let total_count := fst r in
  let components := snd r in
  let longest :=
    foldl (fun longest (pair : string * Z) =>
             Z.max (int_wrap (Z.of_nat (String.length (fst pair)))) longest)
          (-1) (counts_in_key_order components) in
  (map (fun pair : string * Z => (longest, fst pair, snd pair))
       (counts_in_key_order components),
   total_count).

(** One [Tape:] section of the template: the key, and the integers the
    four [printf] calls format. *)
Record tape_section := mkTapeSection {
  ts_key : string;
  ts_count : Z;
  ts_origin_x : Z;
  ts_origin_y : Z;
  ts_spacing : Z
}.

(** The body of the loop of [CreateConfigTemplate].  [bounding_box] is a
    member that [board.h] declares, which is not part of the sources at
    hand, and which conversion the two initialisers [abs(...) + 5] and
    [abs(...)] go through depends on it; the [int] values they leave in
    [width] and [height] are taken as the functions [width] and [height]
    of the part.  [/] on [int] truncates. *)
Definition CreateConfigTemplate_step (width height : Part -> Z)
    (st : Z * ComponentCount * list tape_section) (part : Part)
  : Z * ComponentCount * list tape_section :=
  let '(ypos, components, out) := st in
  let key := component_key part in
  match components !! key with
  | None => st                                  (* already printed *)
  | Some found_count =>
      (int_wrap (ypos + width part),
       delete key components,
       out ++ [mkTapeSection key found_count
                 (int_wrap (10 + Z.quot (height part) 2))
                 (int_wrap (ypos + Z.quot (width part) 2))
                 (if height part <? 4 then 4 else int_wrap (height part + 2))])
  end.

(** [CreateConfigTemplate]: the y of the tape tray origin, which is
    printed with ["%.1f"], the sections, and the total that goes to
    [stderr].  [dimension] is what [board.dimension()] returns. *)
Definition CreateConfigTemplate (width height : Part -> Z) (board : Board)
    (dimension : Position) : float * list tape_section * Z :=
  let origin_y := F32.of_int 10 in
  let r := ExtractComponents (parts board) ∅ in
  let total_count := fst r in
  let '(_, _, out) :=
    foldl (CreateConfigTemplate_step width height) (0, snd r, []) (parts board) in
  (F32.add origin_y (pos_y dimension), out, total_count).

(* ===================================================================== *)
(** * main: what it calls *)
(* ===================================================================== *)

(** The calls [main] makes into the other modules and the messages of its
    own, in the order in which it makes them. *)
Inductive main_event :=
  | EvUsage
  | EvParseFromRpt
  | EvCreateConfigTemplate
  | EvCreateList
  | EvCreateHomerInstruction
  | EvParsePnPConfiguration (filename : string)
  | EvParseSimplePnPConfiguration (filename : string)
  | EvNewPostScriptMachine
  | EvNewGCodeMachine (start_ms area_ms : float)
  | EvInit
  | EvInitializationFailed
  | EvSolderDispense
  | EvPickNPlace
  | EvPleaseChooseOperation
  | EvFinish.

(** [main].  [os] is what the [getopt] loop sees, [has_rpt_file] whether
    [optind < argc] after it, [rpt_ok] the result of [board.ParseFromRpt],
    [parse_returns] whether the call of [ParsePnPConfiguration], if one is
    made, comes back (it does not when its stream fails and no line has
    been refused before) and [init_ok] the result of [machine->Init]; the
    value is the calls made and the exit code, if [main] gets to return
    one. *)
Definition main (os : list cli_option)
    (has_rpt_file rpt_ok parse_returns init_ok : bool)
  : list main_event * run Z :=
  match main_options main_locals_init os with
  | None => ([EvUsage], Returns 1)
  | Some s =>
      if negb has_rpt_file then ([EvUsage], Returns 1)
      else if negb rpt_ok then ([EvParseFromRpt], Returns 1)
      else
        match output_type s with
        | OUT_CONFIG_TEMPLATE =>
            ([EvParseFromRpt; EvCreateConfigTemplate], Returns 0)
        | OUT_CONFIG_LIST => ([EvParseFromRpt; EvCreateList], Returns 0)
        | OUT_HOMER_INSTRUCTION =>
            ([EvParseFromRpt; EvCreateHomerInstruction], Returns 0)
        | operation =>
            let config :=
              match config_filename s with
              | Some filename => [EvParsePnPConfiguration filename]
              | None =>
                  match simple_config_filename s with
                  | Some filename => [EvParseSimplePnPConfiguration filename]
                  | None => []
                  end
              end in
            let machine :=
              if out_postscript s then EvNewPostScriptMachine
              else EvNewGCodeMachine (start_ms s) (area_ms s) in
            let parses :=
              match config_filename s with Some _ => true | None => false end in
            if parses && negb parse_returns
            then (EvParseFromRpt :: config, NeverReturns)
            else if negb init_ok
            then (EvParseFromRpt :: config ++
                  [machine; EvInit; EvInitializationFailed], Returns 1)
            else (EvParseFromRpt :: config ++
                  [machine; EvInit;
                   match operation with
                   | OUT_DISPENSING => EvSolderDispense
                   | OUT_PICKNPLACE => EvPickNPlace
                   | _ => EvPleaseChooseOperation
                   end;
                   EvFinish], Returns 0)
        end
  end.

(* ===================================================================== *)
(** * Notions of the statements *)
(* ===================================================================== *)

(** The x of the next [k] pickup positions of a tape. *)
Fixpoint pickup_xs (k : nat) (t : Tape) : list float :=
  match k with
  | O => []
  | S k' => x_ t :: pickup_xs k' (snd (Advance t))
  end.

(** Where [k] steps of [d] from [p] lead when nothing is rounded. *)
Definition exact_travel (p d : float) (k : nat) : option Q :=
  match float_value p, float_value d with
  | Some a, Some b => Some (a + inject_Z (Z.of_nat k) * b)%Q
  | _, _ => None
  end.

(** The place of a float that is not a NaN in the order of its kind: the
    class (infinite, finite, zero, by sign), then exponent and mantissa,
    reversed for the negative ones.  Comparison of floats is comparison of
    these triples, first component first. *)
Definition float_key (f : float) : Z * Z * Z :=
  match f with
  | S754_infinity true => (-2, 0, 0)
  | S754_finite true m e => (-1, - e, Zneg m)
  | S754_zero _ => (0, 0, 0)
  | S754_nan => (0, 0, 0)
  | S754_finite false m e => (1, e, Zpos m)
  | S754_infinity false => (2, 0, 0)
  end.

Definition key_lt (a b : Z * Z * Z) : Prop :=
  let '(a1, a2, a3) := a in
  let '(b1, b2, b3) := b in
  a1 < b1 \/ (a1 = b1 /\ (a2 < b2 \/ (a2 = b2 /\ a3 < b3))).

(** The bound tapes of a configuration that lie below its bed level, and
    what makes the cross check fail. *)
Definition tape_below_bed (c : PnPConfig) (h : heap) : Prop :=
  exists key t,
    tape_for_component c !! key = Some t /\
    F32.ltb (height (h !!! t)) (bed_level c) = true.

Definition below_bed (c : PnPConfig) (h : heap) : Prop :=
  F32.is_nan (board_top c) = false /\
  (F32.ltb (board_top c) (bed_level c) = true \/ tape_below_bed c h).

(** Every tape still has the count its constructor gave it. *)
Definition all_full (h : heap) : Prop := Forall (fun t => count_ t = 1000) h.

(** Distinct objects have distinct addresses. *)
Definition addr_identifies (l : list Part) : Prop :=
  forall a b, a ∈ l -> b ∈ l -> part_addr a = part_addr b -> a = b.

(** What the comparator makes of heights and names once the addresses
    are told apart. *)
Definition height_name_before (config : PnPConfig) (h : heap) (a b : Part)
  : bool :=
  if F32.eqb (GetHeight config h a) (GetHeight config h b)
  then String.ltb (component_name a) (component_name b)
  else F32.ltb (GetHeight config h a) (GetHeight config h b).

(** The tapes, the lines on [stderr] and the calls of the machine that a
    walk of [PickNPlace] through [list_] leaves, each on its own. *)
Definition advance_tape (t : nat) (h : heap) : heap :=
  alter (fun tp => snd (Advance tp)) t h.

Definition tape_of (config : option PnPConfig) (part : Part) : option nat :=
  match config with
  | Some c => FindTapeForPart c part
  | None => None
  end.

Fixpoint pnp_heap_after (config : option PnPConfig) (h : heap)
    (list_ : list Part) : heap :=
  match list_ with
  | [] => h
  | part :: rest =>
      pnp_heap_after config
        (match tape_of config part with
         | Some t => advance_tape t h
         | None => h
         end) rest
  end.

Definition pnp_messages (config : option PnPConfig) (list_ : list Part)
  : list string :=
  match config with
  | Some c =>
      no_tape_message <$>
        filter (fun part => FindTapeForPart c part = None) list_
  | None => []
  end.

Fixpoint pnp_calls (config : option PnPConfig) (h : heap) (list_ : list Part)
  : list call :=
  match list_ with
  | [] => []
  | part :: rest =>
      CallPickPart part (tape_arg (tape_of config part) h) ::
      CallPlacePart part (tape_arg (tape_of config part) h) ::
      pnp_calls config
        (match tape_of config part with
         | Some t => advance_tape t h
         | None => h
         end) rest
  end.

(** The lines a walk leaves on [stderr] when the machine is the backend
    that reports a tape it cannot pick from: the line of [PickNPlace] for a
    part without tape, and the line of the backend, worded by [report],
    for a part whose tape gives no position when its turn comes. *)
Fixpoint pnp_reports (report : Part -> string) (c : PnPConfig) (h : heap)
    (list_ : list Part) : list string :=
  match list_ with
  | [] => []
  | part :: rest =>
      match FindTapeForPart c part with
      | None => no_tape_message part :: pnp_reports report c h rest
      | Some t =>
          (if fst (GetPos (h !!! t) F32.zero F32.zero) then []
           else [report part]) ++
          pnp_reports report c (advance_tape t h) rest
      end
  end.

(** A call without its tape argument. *)
Inductive call_head :=
  | HeadPickPart (part : Part)
  | HeadPlacePart (part : Part)
  | HeadDispense (part : Part) (pad : Pad).

Definition head_of (c : call) : call_head :=
  match c with
  | CallPickPart part _ => HeadPickPart part
  | CallPlacePart part _ => HeadPlacePart part
  | CallDispense part pad => HeadDispense part pad
  end.

(** ** Notions of the further properties *)

(** How many parts of a list take their component from tape [t]. *)
Definition draws (config : option PnPConfig) (t : nat) (list_ : list Part) : nat :=
  length (filter (fun part => tape_of config part = Some t) list_).

(** Whether a string holds the separator of a component key. *)
Definition at_sign : Ascii.ascii := Ascii.ascii_of_nat 64.

Fixpoint has_at (s : string) : bool :=
  match s with
  | EmptyString => false
  | String a s' => Ascii.eqb a at_sign || has_at s'
  end.

(** The number of parts of a list that have a given key. *)
Definition kind_count (key : string) (list_ : list Part) : nat :=
  length (filter (fun part => component_key part = key) list_).

(** The sum of the counts of a map. *)
Definition count_sum (c : ComponentCount) : Z :=
  map_fold (fun _ n s => n + s) 0 c.

(** The tape a key is bound to once the lines [ls] are read, when [next]
    tapes exist before them: the tape of the last [Tape:] line that names
    the key, tapes being numbered in the order of their lines. *)
Fixpoint last_binding (key : string) (next : nat) (ls : list config_line)
  : option nat :=
  match ls with
  | [] => None
  | CL_Tape names :: ls' =>
      match last_binding key (S next) ls' with
      | Some t => Some t
      | None => if decide (key ∈ names) then Some next else None
      end
  | _ :: ls' => last_binding key next ls'
  end.

(** The number of [Tape:] lines. *)
Fixpoint tape_lines (ls : list config_line) : nat :=
  match ls with
  | [] => 0%nat
  | CL_Tape _ :: ls' => S (tape_lines ls')
  | _ :: ls' => tape_lines ls'
  end.

(** Whether a line is accepted, given whether a tape section is open, and
    whether one is open after it. *)
Definition line_accepted (in_tape : bool) (l : config_line) : bool :=
  match l with
  | CL_skip | CL_Board | CL_Tape _ => true
  | CL_TapeTrayOrigin vals => bool_decide (2 <= length vals)%nat
  | CL_origin vals =>
      if in_tape then bool_decide (length vals = 3%nat)
      else bool_decide (2 <= length vals)%nat
  | CL_spacing vals =>
      in_tape &&
      match vals with
      | [x; y] => negb (F32.eqb x (F32.of_int 0) && F32.eqb y (F32.of_int 0))
      | _ => false
      end
  | CL_angle vals => in_tape && bool_decide (length vals = 1%nat)
  | CL_count vals => in_tape && bool_decide (length vals = 1%nat)
  | CL_invalid _ => false
  end.

Definition section_after (in_tape : bool) (l : config_line) : bool :=
  match l with
  | CL_Tape _ => true
  | CL_Board | CL_TapeTrayOrigin _ => false
  | _ => in_tape
  end.

Fixpoint file_accepted (in_tape : bool) (ls : list config_line) : bool :=
  match ls with
  | [] => true
  | l :: ls' =>
      line_accepted in_tape l && file_accepted (section_after in_tape l) ls'
  end.

(** The lines that open a section. *)
Definition opens_section (l : config_line) : bool :=
  match l with
  | CL_Board | CL_TapeTrayOrigin _ | CL_Tape _ => true
  | _ => false
  end.

(** The tape under construction, if any, is the one allocated last. *)
Definition current_is_last (s : parse_state) : Prop :=
  forall t, ps_current_tape s = Some t -> S t = length (ps_heap s).

(** What each setting of a tape of an accepted file is: the value the
    constructor and [SetAngle(90)] leave, or the value of a line. *)
Definition settings_from (ls : list config_line) (tp : Tape) : Prop :=
  ((dx_ tp = F32.zero /\ dy_ tp = F32.zero) \/
   (exists x y, CL_spacing [x; y] ∈ ls /\ dx_ tp = x /\ dy_ tp = y /\
                F32.eqb x (F32.of_int 0) && F32.eqb y (F32.of_int 0) = false)) /\
  (count_ tp = 1000%Z \/ exists n, CL_count [n] ∈ ls /\ count_ tp = n) /\
  (angle_ tp = F32.of_int 90 \/ exists a, CL_angle [a] ∈ ls /\ angle_ tp = a).

(** Whether a tape section is open. *)
Definition in_tape_section (s : parse_state) : bool :=
  match ps_current_tape s with Some _ => true | None => false end.

(** The [tape1:] lines of a calibration file, in order: the designator and
    the three values of each. *)
Fixpoint first_components (ls : list simple_line)
  : list (string * (float * float * float)) :=
  match ls with
  | [] => []
  | SL_tape tape_idx designator x y z :: ls' =>
      if tape_idx =? 1 then (designator, (x, y, z)) :: first_components ls'
      else first_components ls'
  | _ :: ls' => first_components ls'
  end.

(** The number, counted from [next], of the last entry with a given
    designator. *)
Fixpoint last_named {A : Type} (key : string) (next : nat)
    (fs : list (string * A)) : option nat :=
  match fs with
  | [] => None
  | (designator, _) :: fs' =>
      match last_named key (S next) fs' with
      | Some t => Some t
      | None => if decide (key = designator) then Some next else None
      end
  end.

Definition pickup_point (tp : Tape) : float * float * float :=
  (x_ tp, y_ tp, z_ tp).

(** The designator of a [tape] line. *)
Definition names_tape (key : string) (l : simple_line) : Prop :=
  match l with
  | SL_tape _ designator _ _ _ => designator = key
  | _ => False
  end.

(** Every binding points to an allocated tape, and no two keys share
    one. *)
Definition bindings_apart (c : PnPConfig) (h : heap) : Prop :=
  (forall key t, tape_for_component c !! key = Some t -> (t < length h)%nat) /\
  (forall key1 key2 t,
     tape_for_component c !! key1 = Some t ->
     tape_for_component c !! key2 = Some t -> key1 = key2).

(** The tape that a [tape1:] line at (x1, y1, z1) and a later line for
    component [tape_idx] at (x2, y2) describe. *)
Definition calibrated_tape (tape_idx : Z) (x1 y1 z1 x2 y2 : float) : Tape :=
  SetComponentSpacing
    (F32.div (F32.sub x2 x1) (F32.of_int (int_wrap (tape_idx - 1))))
    (F32.div (F32.sub y2 y1) (F32.of_int (int_wrap (tape_idx - 1))))
    (SetFirstComponentPosition x1 y1 z1 (SetAngle (F32.of_int 90) Tape_new)).



(** The word a chunk has stored in [designator], if any, and a file all of
    whose words fit the array. *)
Definition stored_word (l : simple_line) : option string :=
  match l with
  | SL_tape _ designator _ _ _ => Some designator
  | SL_board designator _ _ _ => Some designator
  | SL_bedlevel designator _ _ _ => Some designator
  | SL_other stored => stored
  end.

Definition designators_fit (ls : list simple_line) : Prop :=
  Forall (fun l => match stored_word l with
                   | Some word => fits_designator word = true
                   | None => True
                   end) ls.




(** The two lines of one kind of component. *)
Definition tape_lines_of (pair : string * Z) : list homer_line :=
  [HL_tape 1 (fst pair); HL_tape (Z.min (Z.max 2 (snd pair)) 4) (fst pair)].

(** The distinct elements of a list, in the order in which they first
    occur. *)
Definition first_occurrences (l : list string) : list string :=
  foldl (fun acc x => if decide (x ∈ acc) then acc else acc ++ [x]) [] l.





(** What a section says of the board it was made for. *)
Definition section_of (width height : Part -> Z) (list_ : list Part)
    (s : tape_section) : Prop :=
  exists part,
    part ∈ list_ /\
    ts_key s = component_key part /\
    ts_count s = Z.of_nat (kind_count (ts_key s) list_) /\
    ts_origin_x s = int_wrap (10 + Z.quot (height part) 2) /\
    ts_spacing s = (if (height part <? 4)%Z then 4 else int_wrap (height part + 2))%Z.


(** An option that makes [main] print the usage: one [getopt] does not
    know, or a [-D] whose argument does not convert to two numbers. *)
Definition bad_option (o : cli_option) : Prop :=
  match o with
  | Opt_other => True
  | Opt_D vals => length vals <> 2%nat
  | _ => False
  end.

(** What the options leave in each local when none of them is bad: the
    value of the last option that sets it, or the value before. *)
Definition operation_of (o : cli_option) : option OutputType :=
  match o with
  | Opt_t => Some OUT_CONFIG_TEMPLATE
  | Opt_l => Some OUT_CONFIG_LIST
  | Opt_H => Some OUT_HOMER_INSTRUCTION
  | Opt_p => Some OUT_PICKNPLACE
  | Opt_d => Some OUT_DISPENSING
  | _ => None
  end.

Definition last_of {A B : Type} (f : A -> option B) (init : B) (l : list A) : B :=
  foldl (fun acc x => match f x with Some b => b | None => acc end) init l.

(* ===================================================================== *)
(** * Data of the examples *)
(* ===================================================================== *)

(** A tape as a configuration describes it. *)
Definition tape_at (x y z dx dy : float) (n : Z) : Tape :=
  SetNumberComponents n
    (SetComponentSpacing dx dy (SetFirstComponentPosition x y z Tape_new)).

(** One component left, first at (0, 0, 2), the next 4 mm to the right. *)
Definition last_one : Tape :=
  tape_at F32.zero F32.zero (F32.of_int 2) (F32.of_int 4) F32.zero 1.

(** A full reel at (0, 0, 2) with its components 4 mm apart. *)
Definition full_reel : Tape :=
  tape_at F32.zero F32.zero (F32.of_int 2) (F32.of_int 4) F32.zero 1000.

(** [0.1f], and a full reel whose components are that far apart. *)
Definition tenth : float := S754_finite false 13421773 (-27).

Definition fine_pitch : Tape :=
  tape_at F32.zero F32.zero F32.zero tenth F32.zero 1000.

(** A configuration file with one tape whose spacing line reads [0 0]. *)
Definition stuck_tape_file : list config_line :=
  [ CL_skip;
    CL_Board;
    CL_origin [F32.of_int 10; F32.of_int 10; F64.to_float TYPICAL_BOARD_THICKNESS];
    CL_TapeTrayOrigin [F32.of_int 0; F32.of_int 50; F32.of_int 0];
    CL_Tape ["smd0805@100n"];
    CL_count [2];
    CL_origin [F32.of_int 10; F32.of_int 2; F32.of_int 2];
    CL_spacing [F32.of_int 0; S754_zero true] ].

(** The same file with the components 4 mm apart. *)
Definition moving_tape_file : list config_line :=
  [ CL_skip;
    CL_Board;
    CL_origin [F32.of_int 10; F32.of_int 10; F64.to_float TYPICAL_BOARD_THICKNESS];
    CL_TapeTrayOrigin [F32.of_int 0; F32.of_int 50; F32.of_int 0];
    CL_Tape ["smd0805@100n"];
    CL_count [2];
    CL_origin [F32.of_int 10; F32.of_int 2; F32.of_int 2];
    CL_spacing [F32.of_int 4; F32.of_int 0] ].

(** A freshly constructed configuration, for the examples: no binding,
    origin and top at 0, bed level not yet known. *)
Definition fresh_config : PnPConfig :=
  mkPnPConfig (mkPosition F32.zero F32.zero) F32.zero (F32.of_int (-1)) ∅.

Definition fresh_position : Position := mkPosition F32.zero F32.zero.

(** Boards and calibration files of the examples.  [R1] and [C1] are two
    parts of different kinds. *)
Definition part_R1 : Part :=
  mkPart 1 "R1" "smd0805" "10k"
         (mkPosition (F32.of_int 5) (F32.of_int 5))
         [mkPad (mkPosition (F32.of_int (-1)) F32.zero) (F32.of_int 1);
          mkPad (mkPosition (F32.of_int 1) F32.zero) (F32.of_int 1)].

Definition part_C1 : Part :=
  mkPart 2 "C1" "smd0805" "100n"
         (mkPosition (F32.of_int 20) (F32.of_int 5))
         [mkPad (mkPosition (F32.of_int (-1)) F32.zero) (F32.of_int 1);
          mkPad (mkPosition (F32.of_int 1) F32.zero) (F32.of_int 1)].

Definition two_part_board : Board := mkBoard [part_R1; part_C1].

(** The tape of [C1] is found with its first component at z = 5, the bed
    is touched at z = 5 and the board at z = 7. *)
Definition tape_at_bed_level_file : list simple_line :=
  [ SL_bedlevel "BedLevel-Z" (F32.of_int 0) (F32.of_int 0) (F32.of_int 5);
    SL_tape 1 "smd0805@100n" (F32.of_int 10) (F32.of_int 60) (F32.of_int 5);
    SL_tape 3 "smd0805@100n" (F32.of_int 18) (F32.of_int 60) (F32.of_int 5);
    SL_other None;
    SL_board "R1" (F32.of_int 30) (F32.of_int 30) (F32.of_int 7) ].

(** The same with the tape at z = 4, below the bed. *)
Definition tape_below_bed_file : list simple_line :=
  [ SL_bedlevel "BedLevel-Z" (F32.of_int 0) (F32.of_int 0) (F32.of_int 5);
    SL_tape 1 "smd0805@100n" (F32.of_int 10) (F32.of_int 60) (F32.of_int 4);
    SL_tape 3 "smd0805@100n" (F32.of_int 18) (F32.of_int 60) (F32.of_int 4);
    SL_board "R1" (F32.of_int 30) (F32.of_int 30) (F32.of_int 7) ].

(** The tape at the bed level, z = 5, and the board found at z = 3. *)
Definition board_below_bed_file : list simple_line :=
  [ SL_tape 1 "smd0805@100n" (F32.of_int 10) (F32.of_int 60) (F32.of_int 5);
    SL_board "R1" (F32.of_int 30) (F32.of_int 30) (F32.of_int 3);
    SL_bedlevel "BedLevel-Z" (F32.of_int 0) (F32.of_int 0) (F32.of_int 5) ].

(** The tape at z = 1 below the bed at z = 5, and a board line whose z
    reads [nan]. *)
Definition board_nan_file : list simple_line :=
  [ SL_tape 1 "smd0805@100n" (F32.of_int 10) (F32.of_int 60) (F32.of_int 1);
    SL_board "R1" (F32.of_int 30) (F32.of_int 30) S754_nan;
    SL_bedlevel "BedLevel-Z" (F32.of_int 0) (F32.of_int 0) (F32.of_int 5) ].

(** The scenario of the spec: one tape for [smd0805@100n], first component
    at (0, 0, 2), spacing (4, 0), two components; three parts that take
    from it. *)
Definition part_C2 : Part :=
  mkPart 3 "C2" "smd0805" "100n"
         (mkPosition (F32.of_int 20) (F32.of_int 10)) [].

Definition part_C3 : Part :=
  mkPart 4 "C3" "smd0805" "100n"
         (mkPosition (F32.of_int 20) (F32.of_int 15)) [].

Definition one_tape_config : PnPConfig :=
  mkPnPConfig (mkPosition F32.zero F32.zero)
              (F64.to_float TYPICAL_BOARD_THICKNESS) (F32.of_int 0)
              {[ "smd0805@100n" := 0%nat ]}.

Definition two_left : heap :=
  [SetAngle (F32.of_int 90)
     (tape_at F32.zero F32.zero (F32.of_int 2) (F32.of_int 4) F32.zero 2)].

Definition three_caps_board : Board := mkBoard [part_C3; part_C1; part_C2].

Definition pnp_start (h : heap) : pnp_state (list call) := mkPnpState h [] [].

(** A tape whose pickup height is below -1: z = -2. *)
Definition sunk_tape : heap :=
  [SetAngle (F32.of_int 90)
     (tape_at F32.zero F32.zero (F32.of_int (-2)) (F32.of_int 4) F32.zero 1000)].

Definition unsorted_board : Board := mkBoard [part_R1; part_C1].

Definition resistor_and_cap_board : Board := mkBoard [part_R1; part_C2].

(** The second scenario of the spec: a part on a tape at height 5 and two
    parts on a tape at height 2. *)
Definition part_C3_tall : Part :=
  mkPart 6 "C3" "can" "470u"
         (mkPosition (F32.of_int 30) (F32.of_int 30)) [].

Definition two_tape_config : PnPConfig :=
  mkPnPConfig (mkPosition F32.zero F32.zero)
              (F64.to_float TYPICAL_BOARD_THICKNESS) (F32.of_int 0)
              {[ "smd0805@100n" := 0%nat; "can@470u" := 1%nat ]}.

Definition two_tapes : heap :=
  [SetAngle (F32.of_int 90)
     (tape_at F32.zero F32.zero (F32.of_int 2) (F32.of_int 4) F32.zero 1000);
   SetAngle (F32.of_int 90)
     (tape_at F32.zero (F32.of_int 10) (F32.of_int 5) (F32.of_int 12) F32.zero 1000)].

Definition tall_first_board : Board := mkBoard [part_C3_tall; part_C1; part_C2].

(** Three tapes at z = 5, z = [nan] and z = 2: the height of the tape of
    [L1] and [L2] has been read from an [origin:] line whose third value
    is [nan]. *)
Definition part_L1 : Part :=
  mkPart 7 "L1" "coil" "1u"
         (mkPosition (F32.of_int 10) (F32.of_int 30)) [].

Definition part_L2 : Part :=
  mkPart 8 "L2" "coil" "1u"
         (mkPosition (F32.of_int 15) (F32.of_int 30)) [].

Definition nan_config : PnPConfig :=
  mkPnPConfig (mkPosition F32.zero F32.zero)
              (F64.to_float TYPICAL_BOARD_THICKNESS) (F32.of_int 0)
              {[ "can@470u" := 0%nat; "coil@1u" := 1%nat;
                 "smd0805@100n" := 2%nat ]}.

Definition nan_heap : heap :=
  [SetAngle (F32.of_int 90)
     (tape_at F32.zero (F32.of_int 10) (F32.of_int 5) (F32.of_int 12) F32.zero 1000);
   SetAngle (F32.of_int 90)
     (tape_at F32.zero (F32.of_int 20) S754_nan (F32.of_int 8) F32.zero 1000);
   SetAngle (F32.of_int 90)
     (tape_at F32.zero F32.zero (F32.of_int 2) (F32.of_int 4) F32.zero 1000)].

Definition nan_board : Board :=
  mkBoard [part_R1; part_C3_tall; part_L1; part_C1].

Definition nan_first_board : Board :=
  mkBoard [part_L1; part_C3_tall; part_L2; part_R1].

(** The wording of the backend of the examples. *)
Definition example_report (part : Part) : string :=
  "Out of components for '" +:+ component_name part +:+ "'" +:+ newline.

(** ** Data of the further examples *)

(** A tape whose pickup height reads [nan], next to the tape at z = 2. *)
Definition nan_tapes : heap :=
  [SetAngle (F32.of_int 90)
     (tape_at F32.zero F32.zero (F32.of_int 2) (F32.of_int 4) F32.zero 1000);
   SetAngle (F32.of_int 90)
     (tape_at F32.zero (F32.of_int 10) S754_nan (F32.of_int 12) F32.zero 1000)].

(** Two parts that take from one tape. *)
Definition two_caps_board : Board := mkBoard [part_C1; part_C2].

(** A file with a second tape section after the first. *)
Definition two_section_tail : list config_line :=
  [ CL_origin [F32.of_int 10; F32.of_int 12; F32.of_int 5];
    CL_spacing [F32.of_int 12; F32.of_int 0] ].

(** A tape section that has no spacing line. *)
Definition no_spacing_file : list config_line :=
  [ CL_Tape ["smd0805@100n"];
    CL_origin [F32.of_int 10; F32.of_int 2; F32.of_int 2] ].

(** The size of the board of the examples, and what is found for the
    seven lines of its instructions. *)
Definition example_dimension : Position :=
  mkPosition (F32.of_int 30) (F32.of_int 30).


(** Every part of the examples is 2 mm wide and 3 mm high: the two
    integers of the template are 7 and 3. *)
Definition example_width (_ : Part) : Z := 7.
Definition example_height (_ : Part) : Z := 3.

(* ===================================================================== *)
(** * Properties of the tape *)
(* ===================================================================== *)

Lemma int_wrap_pred (c : Z) : 0 < c -> int_range c -> int_wrap (c - 1) = c - 1.
Proof.
  unfold int_range, INT_MIN, INT_MAX, int_wrap. intros Hpos [_ Hmax].
  rewrite Z.mod_small; lia.
Qed.

Lemma Advance_exhausted (t : Tape) : count_ t <= 0 -> Advance t = (false, t).
Proof.
  intros Hc. unfold Advance.
  destruct (Z.leb_spec (count_ t) 0) as [_ | Hlt]; [reflexivity | lia].
Qed.

Lemma GetPos_exhausted (t : Tape) (x y : float) :
  count_ t <= 0 -> GetPos t x y = (false, (x, y)).
Proof.
  intros Hc. unfold GetPos.
  destruct (Z.leb_spec (count_ t) 0) as [_ | Hlt]; [reflexivity | lia].
Qed.

Lemma GetPos_supplied (t : Tape) (x y : float) :
  0 < count_ t -> GetPos t x y = (true, (x_ t, y_ t)).
Proof.
  intros Hc. unfold GetPos.
  destruct (Z.leb_spec (count_ t) 0) as [Hle | _]; [lia | reflexivity].
Qed.

Lemma Advance_supplied (t : Tape) :
  0 < count_ t -> int_range (count_ t) ->
  Advance t =
    (true, mkTape (F32.add (x_ t) (dx_ t)) (F32.add (y_ t) (dy_ t)) (z_ t)
                  (dx_ t) (dy_ t) (angle_ t) (slant_angle_ t) (count_ t - 1)).
Proof.
  intros Hc Hr. unfold Advance.
  destruct (Z.leb_spec (count_ t) 0) as [Hle | _]; [lia |].
  now rewrite int_wrap_pred.
Qed.

Lemma Advance_n_exhausted (m : nat) (t : Tape) :
  count_ t <= 0 -> Advance_n m t = (repeat false m, t).
Proof.
  intros Hc. induction m as [| m IH]; simpl; [reflexivity |].
  now rewrite (Advance_exhausted t Hc), IH.
Qed.

Lemma add_n_shift (k : nat) (d p : float) :
  add_n k d (F32.add p d) = add_n (S k) d p.
Proof.
  unfold add_n. induction k as [| k IH]; simpl; [reflexivity |].
  simpl in IH. now rewrite IH.
Qed.

(** After [k] calls on a tape with [n >= k] components the calls have all
    succeeded and the tape has moved by [k] float additions. *)
Lemma Advance_n_supplied (k : nat) : forall (t : Tape) (n : nat),
  count_ t = Z.of_nat n -> int_range (count_ t) -> (k <= n)%nat ->
  Advance_n k t =
    (repeat true k,
     mkTape (add_n k (dx_ t) (x_ t)) (add_n k (dy_ t) (y_ t)) (z_ t)
            (dx_ t) (dy_ t) (angle_ t) (slant_angle_ t)
            (Z.of_nat (n - k))).
Proof.
  induction k as [| k IH]; intros t n Hn Hr Hk.
  - simpl. rewrite Nat.sub_0_r, <- Hn. now destruct t.
  - destruct n as [| n]; [lia |].
    cbn [Advance_n]. rewrite Advance_supplied by (assumption || lia).
    assert (Hr' : int_range (count_ t - 1))
      by (unfold int_range, INT_MIN, INT_MAX in *; lia).
    rewrite (IH _ n) by (cbn [count_]; (assumption || lia)).
    cbn [x_ y_ z_ dx_ dy_ angle_ slant_angle_ count_ repeat].
    now rewrite !add_n_shift.
Qed.

(** C1 (as stated, refuted).  The claim lets [GetPos] return [p + k*d]
    after [k <= n] successful calls of [Advance], calls the exhausted state
    terminal under every operation, and takes the position to be the exact
    sum.  On the tape [last_one] ([n = 1], first position (0, 0), spacing
    (4, 0)) the one call of [Advance] succeeds and [GetPos] then fails,
    leaving the out-variables as they were; [SetNumberComponents] gives the
    exhausted tape a positive count again; and on [fine_pitch] ten steps of
    [0.1f] from 0 are reported by [GetPos] as 8388609/8388608, not as the
    exact 134217730/134217728. *)
Lemma GetPos_after_last_Advance_fails :
  (count_ last_one = 1 /\
   fst (Advance_n 1 last_one) = [true] /\
   GetPos (snd (Advance_n 1 last_one)) F32.zero F32.zero
     = (false, (F32.zero, F32.zero))) /\
  (count_ (snd (Advance_n 1 last_one)) = 0 /\
   count_ (SetNumberComponents 5 (snd (Advance_n 1 last_one))) = 5) /\
  (fst (Advance_n 10 fine_pitch) = repeat true 10 /\
   fst (GetPos (snd (Advance_n 10 fine_pitch)) F32.zero F32.zero) = true /\
   float_value (fst (snd (GetPos (snd (Advance_n 10 fine_pitch))
                                 F32.zero F32.zero)))
     = Some (8388609 # 8388608)%Q /\
   exact_travel (x_ fine_pitch) (dx_ fine_pitch) 10
     = Some (134217730 # 134217728)%Q /\
   ~ (8388609 # 8388608 == 134217730 # 134217728)%Q).
Proof.
  repeat split; try (vm_compute; reflexivity).
  unfold Qeq. simpl. lia.
Qed.

(** C1 (amended).  On a tape with [n >= 0] components, first position [p]
    and spacing [d], the first [k <= n] calls of [Advance] all succeed and
    leave the tape at [p] advanced by [k] float additions of [d], z
    unchanged, with [n - k] components left; as long as [k < n], [GetPos]
    succeeds and returns that position; after the [n]-th call [GetPos]
    fails without writing, and every further call of [Advance] fails and
    changes nothing, so that through [Advance] and [GetPos] the count
    stays 0. *)
Theorem Advance_n_then_GetPos (t : Tape) (n k : nat) :
  count_ t = Z.of_nat n -> int_range (count_ t) -> (k <= n)%nat ->
  let tk := snd (Advance_n k t) in
  fst (Advance_n k t) = repeat true k /\
  x_ tk = add_n k (dx_ t) (x_ t) /\
  y_ tk = add_n k (dy_ t) (y_ t) /\
  z_ tk = z_ t /\
  count_ tk = Z.of_nat (n - k) /\
  ((k < n)%nat -> forall x y, GetPos tk x y = (true, (x_ tk, y_ tk))) /\
  (k = n ->
   (forall x y, GetPos tk x y = (false, (x, y))) /\
   (forall m, Advance_n m tk = (repeat false m, tk)) /\
   (forall m x y, count_ (snd (Advance_n m tk)) = 0 /\
                  fst (GetPos (snd (Advance_n m tk)) x y) = false)).
Proof.
  intros Hn Hr Hk tk. subst tk.
  rewrite (Advance_n_supplied k t n Hn Hr Hk).
  cbn [fst snd x_ y_ z_ count_].
  repeat split; try reflexivity.
  - intros Hlt x y. apply GetPos_supplied. cbn [count_]. lia.
  - intros x y. apply GetPos_exhausted. cbn [count_]. lia.
  - intros m. apply Advance_n_exhausted. cbn [count_]. lia.
  - rewrite Advance_n_exhausted by (cbn [count_]; lia).
    cbn [snd count_]. lia.
  - rewrite Advance_n_exhausted by (cbn [count_]; lia).
    cbn [snd]. rewrite GetPos_exhausted by (cbn [count_]; lia). reflexivity.
Qed.

Lemma Advance_n_then_GetPos_witness :
  count_ last_one = Z.of_nat 1 /\ int_range (count_ last_one) /\ (1 <= 1)%nat /\
  fst (Advance_n 1 last_one) = repeat true 1 /\
  GetPos (snd (Advance_n 1 last_one)) F32.zero F32.zero
    = (false, (F32.zero, F32.zero)).
Proof.
  assert (H1 : count_ last_one = Z.of_nat 1) by reflexivity.
  assert (H2 : int_range (count_ last_one))
    by (unfold int_range, INT_MIN, INT_MAX; simpl; lia).
  assert (H3 : (1 <= 1)%nat) by lia.
  pose proof (Advance_n_then_GetPos last_one 1 1 H1 H2 H3) as H.
  cbv zeta in H.
  destruct H as (Hres & _ & _ & _ & _ & _ & Hend).
  destruct (Hend eq_refl) as (Hget & _).
  exact (conj H1 (conj H2 (conj H3 (conj Hres (Hget _ _))))).
Defined.

(** C8.  A successful call of [Advance] leaves z as it is: it adds the
    spacing to x and y, takes one off the count and keeps the spacing and
    the angles; and of all operations of a tape only
    [SetFirstComponentPosition] changes z. *)
Theorem Advance_keeps_z (t : Tape) :
  int_range (count_ t) ->
  (fst (Advance t) = true ->
   let t' := snd (Advance t) in
   z_ t' = z_ t /\
   x_ t' = F32.add (x_ t) (dx_ t) /\
   y_ t' = F32.add (y_ t) (dy_ t) /\
   count_ t' = count_ t - 1 /\
   dx_ t' = dx_ t /\ dy_ t' = dy_ t /\
   angle_ t' = angle_ t /\ slant_angle_ t' = slant_angle_ t) /\
  (forall o : TapeOp,
     (forall x y z, o <> OpSetFirstComponentPosition x y z) ->
     z_ (apply_op o t) = z_ t).
Proof.
  intros Hr. split.
  - intros Hok. destruct (Z.leb_spec (count_ t) 0) as [Hle | Hlt].
    + rewrite Advance_exhausted in Hok by assumption. discriminate.
    + rewrite Advance_supplied by assumption. cbn. repeat split.
  - intros o Hne. destruct o; cbn; try reflexivity.
    + exfalso. eapply Hne. reflexivity.
    + unfold Advance. destruct (count_ t <=? 0); reflexivity.
Qed.

Lemma Advance_keeps_z_witness :
  int_range (count_ last_one) /\
  fst (Advance last_one) = true /\
  z_ (snd (Advance last_one)) = z_ last_one /\
  z_ (apply_op OpAdvance last_one) = z_ last_one.
Proof.
  assert (Hr : int_range (count_ last_one))
    by (unfold int_range, INT_MIN, INT_MAX; simpl; lia).
  destruct (Advance_keeps_z last_one Hr) as [Hadv Hops].
  assert (Hok : fst (Advance last_one) = true) by reflexivity.
  destruct (Hadv Hok) as (Hz & _).
  refine (conj Hr (conj Hok (conj Hz (Hops OpAdvance _)))).
  intros x y z. discriminate.
Defined.

(** C9.  On a tape whose count is 0 or less, [GetPos] and [Advance] return
    false and leave everything as it was: the tape with position,
    spacing, angles and count, and the out-variables of [GetPos]; and no
    call of [Advance] turns a count that is not negative into a negative
    one. *)
Theorem exhausted_tape_is_left_alone (t : Tape) :
  int_range (count_ t) ->
  (count_ t <= 0 ->
   (forall x y, GetPos t x y = (false, (x, y))) /\
   Advance t = (false, t)) /\
  (0 <= count_ t -> 0 <= count_ (snd (Advance t))).
Proof.
  intros Hr. split.
  - intros Hc. split.
    + intros x y. now apply GetPos_exhausted.
    + now apply Advance_exhausted.
  - intros Hc. destruct (Z.leb_spec (count_ t) 0) as [Hle | Hlt].
    + now rewrite Advance_exhausted.
    + rewrite Advance_supplied by assumption. cbn [snd count_]. lia.
Qed.

Lemma exhausted_tape_is_left_alone_witness :
  let t := snd (Advance last_one) in
  int_range (count_ t) /\ count_ t <= 0 /\ 0 <= count_ t /\
  GetPos t F32.zero F32.zero = (false, (F32.zero, F32.zero)) /\
  Advance t = (false, t) /\
  0 <= count_ (snd (Advance t)).
Proof.
  set (t := snd (Advance last_one)).
  assert (Hc : count_ t = 0) by reflexivity.
  assert (Hr : int_range (count_ t))
    by (rewrite Hc; unfold int_range, INT_MIN, INT_MAX; lia).
  assert (Hle : count_ t <= 0) by (rewrite Hc; lia).
  assert (Hge : 0 <= count_ t) by (rewrite Hc; lia).
  destruct (exhausted_tape_is_left_alone t Hr) as [Hex Hnn].
  destruct (Hex Hle) as [Hget Hadv].
  exact (conj Hr (conj Hle (conj Hge (conj (Hget _ _) (conj Hadv (Hnn Hge)))))).
Defined.

(* ===================================================================== *)
(** * Properties of ParsePnPConfiguration *)
(* ===================================================================== *)

(** A spacing line that converts to two zeros ends the parse, whatever
    the state it is met in. *)
Lemma parse_line_zero_spacing (s : parse_state) (x y : float) :
  F32.eqb x (F32.of_int 0) = true -> F32.eqb y (F32.of_int 0) = true ->
  parse_line s (CL_spacing [x; y]) = None.
Proof.
  intros Hx Hy. unfold parse_line.
  destruct (ps_current_tape s); [| reflexivity].
  now rewrite Hx, Hy.
Qed.

Lemma parse_lines_zero_spacing (ls : list config_line) (x y : float) :
  In (CL_spacing [x; y]) ls ->
  F32.eqb x (F32.of_int 0) = true -> F32.eqb y (F32.of_int 0) = true ->
  forall s, parse_lines s ls = None.
Proof.
  intros Hin Hx Hy. induction ls as [| l ls IH]; [destruct Hin |].
  intros s. cbn [parse_lines]. destruct Hin as [-> | Hin].
  - now rewrite parse_line_zero_spacing.
  - destruct (parse_line s l); [apply IH, Hin | reflexivity].
Qed.

(** C10.  If some [spacing:] line of the file converts to [dx == 0] and
    [dy == 0], [ParsePnPConfiguration] returns null, however the stream
    ends: no binding table comes out of such a file. *)
Theorem ParsePnPConfiguration_rejects_zero_spacing
    (new_config : PnPConfig) (new_position : Position)
    (ls : list config_line) (e : stream_end) (dx dy : float) :
  In (CL_spacing [dx; dy]) ls ->
  F32.eqb dx (F32.of_int 0) = true ->
  F32.eqb dy (F32.of_int 0) = true ->
  ParsePnPConfiguration new_config new_position ls e = Returns None.
Proof.
  intros Hin Hx Hy. unfold ParsePnPConfiguration.
  now rewrite (parse_lines_zero_spacing ls dx dy Hin Hx Hy).
Qed.

Lemma ParsePnPConfiguration_rejects_zero_spacing_witness :
  In (CL_spacing [F32.of_int 0; S754_zero true]) stuck_tape_file /\
  F32.eqb (F32.of_int 0) (F32.of_int 0) = true /\
  F32.eqb (S754_zero true) (F32.of_int 0) = true /\
  ParsePnPConfiguration fresh_config fresh_position stuck_tape_file EndOfFile
    = Returns None.
Proof.
  assert (Hin : In (CL_spacing [F32.of_int 0; S754_zero true]) stuck_tape_file)
    by (unfold stuck_tape_file; simpl; tauto).
  assert (Hx : F32.eqb (F32.of_int 0) (F32.of_int 0) = true) by reflexivity.
  assert (Hy : F32.eqb (S754_zero true) (F32.of_int 0) = true) by reflexivity.
  exact (conj Hin (conj Hx (conj Hy
    (ParsePnPConfiguration_rejects_zero_spacing
       fresh_config fresh_position stuck_tape_file EndOfFile _ _ Hin Hx Hy)))).
Defined.

(** The file with a spacing of (4, 0) is accepted, and binds its key to a
    tape of two components at (10, 52, 2). *)
Example ParsePnPConfiguration_accepts_moving_tape :
  exists c h t,
    ParsePnPConfiguration fresh_config fresh_position moving_tape_file EndOfFile
      = Returns (Some (c, h)) /\
    tape_for_component c !! "smd0805@100n" = Some t /\
    h !! t = Some (SetAngle (F32.of_int 90)
                     (tape_at (F32.of_int 10) (F32.of_int 52) (F32.of_int 2)
                              (F32.of_int 4) (F32.of_int 0) 2)) /\
    bed_level c = F32.of_int 0.
Proof.
  eexists _, _, 0%nat. split; [vm_compute; reflexivity |].
  split; [| split]; vm_compute; reflexivity.
Qed.

(* ===================================================================== *)
(** * The order of floats *)
(* ===================================================================== *)

Section FloatOrder.

Lemma Pos_compare_cont_Eq (m1 m2 : positive) :
  Pos.compare_cont Eq m1 m2 = (Zpos m1 ?= Zpos m2).
Proof. reflexivity. Qed.

Ltac order_cases :=
  repeat match goal with
  | |- context [?a ?= ?b] => destruct (Z.compare_spec a b)
  end.

Lemma ltb_key (a b : float) :
  F32.is_nan a = false -> F32.is_nan b = false ->
  (F32.ltb a b = true <-> key_lt (float_key a) (float_key b)).
Proof.
  intros Ha Hb. unfold F32.ltb, SFltb, SFcompare.
  destruct a as [sa | sa | | sa ma ea], b as [sb | sb | | sb mb eb];
    try discriminate; try destruct sa; try destruct sb;
    cbn [float_key key_lt]; rewrite ?Pos_compare_cont_Eq;
    order_cases; cbn [CompOpp];
    split; intros Hyp; try discriminate; try reflexivity; try lia.
Qed.

Lemma eqb_key (a b : float) :
  F32.is_nan a = false -> F32.is_nan b = false ->
  (F32.eqb a b = true <-> float_key a = float_key b).
Proof.
  intros Ha Hb. unfold F32.eqb, SFeqb, SFcompare.
  destruct a as [sa | sa | | sa ma ea], b as [sb | sb | | sb mb eb];
    try discriminate; try destruct sa; try destruct sb;
    cbn [float_key]; rewrite ?Pos_compare_cont_Eq;
    order_cases; cbn [CompOpp];
    split; intros Hyp; try discriminate; try reflexivity;
    try (injection Hyp; intros; lia); try (f_equal; [f_equal |]; lia).
Qed.

Lemma ltb_nan_l (a b : float) : F32.ltb a b = true -> F32.is_nan a = false.
Proof. destruct a; [reflexivity | reflexivity | discriminate | reflexivity]. Qed.

Lemma ltb_nan_r (a b : float) : F32.ltb a b = true -> F32.is_nan b = false.
Proof.
  destruct b; try reflexivity. unfold F32.ltb, SFltb.
  destruct a; discriminate.
Qed.

Lemma eqb_nan_l (a b : float) : F32.eqb a b = true -> F32.is_nan a = false.
Proof. destruct a; [reflexivity | reflexivity | discriminate | reflexivity]. Qed.

Lemma eqb_nan_r (a b : float) : F32.eqb a b = true -> F32.is_nan b = false.
Proof.
  destruct b; try reflexivity. unfold F32.eqb, SFeqb.
  destruct a; discriminate.
Qed.

Lemma key_lt_trans (a b c : Z * Z * Z) : key_lt a b -> key_lt b c -> key_lt a c.
Proof.
  destruct a as [[a1 a2] a3], b as [[b1 b2] b3], c as [[c1 c2] c3].
  unfold key_lt. lia.
Qed.

Lemma key_lt_irrefl (a : Z * Z * Z) : ~ key_lt a a.
Proof. destruct a as [[a1 a2] a3]. unfold key_lt. lia. Qed.

Lemma key_lt_total (a b : Z * Z * Z) : key_lt a b \/ a = b \/ key_lt b a.
Proof.
  destruct a as [[a1 a2] a3], b as [[b1 b2] b3]. unfold key_lt.
  destruct (Z.lt_total a1 b1) as [H | [H | H]];
    destruct (Z.lt_total a2 b2) as [H' | [H' | H']];
    destruct (Z.lt_total a3 b3) as [H'' | [H'' | H'']];
    subst; auto; lia.
Qed.

Lemma ltb_trans (a b c : float) :
  F32.ltb a b = true -> F32.ltb b c = true -> F32.ltb a c = true.
Proof.
  intros Hab Hbc.
  pose proof (ltb_nan_l _ _ Hab). pose proof (ltb_nan_r _ _ Hab).
  pose proof (ltb_nan_r _ _ Hbc).
  apply ltb_key in Hab; try assumption. apply ltb_key in Hbc; try assumption.
  apply ltb_key; try assumption. eapply key_lt_trans; eassumption.
Qed.

Lemma ltb_irrefl (a : float) : F32.ltb a a = false.
Proof.
  destruct (F32.ltb a a) eqn:H; [| reflexivity].
  pose proof (ltb_nan_l _ _ H) as Hn.
  apply ltb_key in H; try assumption. now apply key_lt_irrefl in H.
Qed.

Lemma ltb_asym (a b : float) : F32.ltb a b = true -> F32.ltb b a = false.
Proof.
  intros Hab. destruct (F32.ltb b a) eqn:Hba; [| reflexivity].
  pose proof (ltb_trans _ _ _ Hab Hba) as H. now rewrite ltb_irrefl in H.
Qed.

Lemma eqb_sym (a b : float) : F32.eqb a b = F32.eqb b a.
Proof.
  destruct (F32.eqb a b) eqn:Hab, (F32.eqb b a) eqn:Hba; try reflexivity.
  - pose proof (eqb_nan_l _ _ Hab). pose proof (eqb_nan_r _ _ Hab).
    apply eqb_key in Hab; try assumption.
    assert (F32.eqb b a = true) by (apply eqb_key; auto). congruence.
  - pose proof (eqb_nan_l _ _ Hba). pose proof (eqb_nan_r _ _ Hba).
    apply eqb_key in Hba; try assumption.
    assert (F32.eqb a b = true) by (apply eqb_key; auto). congruence.
Qed.

Lemma eqb_not_ltb (a b : float) : F32.eqb a b = true -> F32.ltb a b = false.
Proof.
  intros Hab. destruct (F32.ltb a b) eqn:Hlt; [| reflexivity].
  pose proof (eqb_nan_l _ _ Hab). pose proof (eqb_nan_r _ _ Hab).
  apply eqb_key in Hab; try assumption. apply ltb_key in Hlt; try assumption.
  rewrite Hab in Hlt. now apply key_lt_irrefl in Hlt.
Qed.

(** Two floats that are numbers are in one of the three relations. *)
Lemma float_trichotomy (a b : float) :
  F32.is_nan a = false -> F32.is_nan b = false ->
  F32.ltb a b = true \/ F32.eqb a b = true \/ F32.ltb b a = true.
Proof.
  intros Ha Hb.
  destruct (key_lt_total (float_key a) (float_key b)) as [H | [H | H]].
  - left. now apply ltb_key.
  - right. left. now apply eqb_key.
  - right. right. now apply ltb_key.
Qed.

(** [l <= h < b] gives [l < b], for a number [l]. *)
Lemma not_ltb_ltb_trans (l h b : float) :
  F32.is_nan l = false ->
  F32.ltb h l = false -> F32.ltb h b = true -> F32.ltb l b = true.
Proof.
  intros Hl Hhl Hhb.
  pose proof (ltb_nan_l _ _ Hhb) as Hh. pose proof (ltb_nan_r _ _ Hhb) as Hb.
  destruct (float_trichotomy l h Hl Hh) as [H | [H | H]].
  - eapply ltb_trans; eassumption.
  - apply eqb_key in H; try assumption.
    apply ltb_key; try assumption. rewrite H. now apply ltb_key.
  - congruence.
Qed.

End FloatOrder.

(* ===================================================================== *)
(** * Properties of ParseSimplePnPConfiguration *)
(* ===================================================================== *)

(** The lowest value is below the bed exactly when the value the search
    starts from is a number and it, or one of the others, is below. *)
Lemma lowest_below {A : Type} (g : A -> float) (bed : float) (ts : list A) :
  forall start,
    F32.ltb (foldl (fun lowest t => F32.min lowest (g t)) start ts) bed = true
    <-> F32.is_nan start = false /\
        (F32.ltb start bed = true \/ Exists (fun t => F32.ltb (g t) bed = true) ts).
Proof.
  induction ts as [| t ts IH]; intros start; cbn [foldl].
  - split.
    + intros H. split; [eapply ltb_nan_l; eassumption | now left].
    + intros [_ [H | H]]; [assumption | inversion H].
  - rewrite IH. unfold F32.min. destruct (F32.ltb (g t) start) eqn:Hlt.
    + pose proof (ltb_nan_l _ _ Hlt) as Hg. pose proof (ltb_nan_r _ _ Hlt) as Hs.
      split.
      * intros [_ [H | H]]; (split; [assumption |]); right;
          [now apply Exists_cons_hd | now apply Exists_cons_tl].
      * intros [_ [H | H]]; (split; [assumption |]).
        -- left. eapply ltb_trans; eassumption.
        -- inversion H; subst; [now left | now right].
    + split.
      * intros [Hs [H | H]]; (split; [assumption |]);
          [now left | right; now apply Exists_cons_tl].
      * intros [Hs [H | H]]; (split; [assumption |]); [now left |].
        inversion H; subst; [| now right].
        left. eapply not_ltb_ltb_trans; eassumption.
Qed.

Lemma in_key_order_elem (m : gmap string nat) (key : string) (t : nat) :
  (key, t) ∈ in_key_order m <-> m !! key = Some t.
Proof.
  unfold in_key_order. rewrite merge_sort_Permutation.
  apply elem_of_map_to_list.
Qed.

Lemma cross_check_None (c : PnPConfig) (h : heap) :
  cross_check c h = None <-> below_bed c h.
Proof.
  unfold cross_check, lowest_value, below_bed, tape_below_bed.
  destruct (F32.ltb _ (bed_level c)) eqn:Hlow.
  - apply lowest_below in Hlow. destruct Hlow as [Hn Hlow].
    split; [intros _ | reflexivity]. split; [assumption |].
    destruct Hlow as [H | H]; [now left | right].
    apply Exists_exists in H. destruct H as ([key t] & Hin & Hlt).
    exists key, t. split; [| assumption].
    apply in_key_order_elem, Hin.
  - split; [discriminate |]. intros [Hn Hbelow]. exfalso.
    assert (Htrue : F32.ltb
      (foldl (fun lowest (t : string * nat) => F32.min lowest (height (h !!! t.2)))
             (board_top c) (in_key_order (tape_for_component c)))
      (bed_level c) = true); [| congruence].
    apply lowest_below. split; [assumption |].
    destruct Hbelow as [H | (key & t & Hb & Hlt)]; [now left | right].
    apply Exists_exists. exists (key, t). split; [| assumption].
    apply in_key_order_elem, Hb.
Qed.

Lemma cross_check_Some (c : PnPConfig) (h : heap) :
  cross_check c h = Some (c, h) <-> ~ below_bed c h.
Proof.
  rewrite <- cross_check_None. unfold cross_check.
  destruct (F32.ltb _ _); split; intros H; congruence.
Qed.



Lemma lookup_total_full (h : heap) (t : nat) :
  all_full h -> count_ (h !!! t) = 1000.
Proof.
  intros Hf. rewrite list_lookup_total_alt.
  destruct (h !! t) as [tp |] eqn:Hl; [| reflexivity].
  unfold all_full in Hf. rewrite Forall_forall in Hf.
  apply Hf. eapply list_elem_of_lookup_2. eassumption.
Qed.

Lemma alter_full (f : Tape -> Tape) (t : nat) (h : heap) :
  (forall tp, count_ (f tp) = count_ tp) -> all_full h -> all_full (alter f t h).
Proof.
  intros Hf Hh. unfold all_full. apply Forall_alter; [assumption |].
  intros tp _ Hc. now rewrite Hf.
Qed.

(** No line of a calibration file reads a variable before it is written:
    the tapes all have their 1000 components, so [GetPos] writes. *)
Lemma simple_line_step_defined (board : Board) (c : PnPConfig) (h : heap)
    (l : simple_line) :
  all_full h ->
  exists c' h', simple_line_step board (c, h) l = Defined (c', h') /\ all_full h'.
Proof.
  intros Hf. destruct l as [idx d x y z | d x y z | d x y z | stored]; cbn.
  - destruct (idx =? 1).
    + eexists _, _. split; [reflexivity |].
      do 2 (apply alter_full; [reflexivity |]).
      apply Forall_app. split; [assumption |]. now constructor.
    + destruct (tape_for_component c !! d) as [t |].
      * unfold GetPos. rewrite (lookup_total_full h t Hf). cbn.
        eexists _, _. split; [reflexivity |].
        apply alter_full; [reflexivity | assumption].
      * eexists _, _. split; [reflexivity | assumption].
  - eexists _, _. split; [reflexivity | assumption].
  - eexists _, _. split; [reflexivity | assumption].
  - eexists _, _. split; [reflexivity | assumption].
Qed.

Lemma simple_lines_defined (board : Board) (ls : list simple_line) :
  forall c h, all_full h ->
  exists c' h', simple_lines board (c, h) ls = Defined (c', h') /\ all_full h'.
Proof.
  induction ls as [| l ls IH]; intros c h Hf; cbn [simple_lines].
  - eexists _, _. split; [reflexivity | assumption].
  - destruct (simple_line_step_defined board c h l Hf) as (c' & h' & -> & Hf').
    apply IH, Hf'.
Qed.

(** C5 (as stated, refuted).  The claim accepts every configuration whose
    lowest bound tape is exactly at bed level, and rejects every one with
    a tape below it.  In [board_below_bed_file] the only tape is at z = 5,
    the bed level is 5 and the board top 3: the cross check starts from
    the board top and returns null.  In [board_nan_file] the tape at z = 1
    is below the bed at z = 5, the board top is a NaN, every comparison
    with it is false, and the configuration is returned. *)
Lemma tape_at_bed_level_rejected :
  (exists c h,
     simple_lines two_part_board (fresh_config, []) board_below_bed_file
       = Defined (c, h) /\
     tape_for_component c = {[ "smd0805@100n" := 0%nat ]} /\
     height (h !!! 0%nat) = F32.of_int 5 /\
     bed_level c = F32.of_int 5 /\
     board_top c = F32.of_int 3 /\
     ParseSimplePnPConfiguration fresh_config two_part_board
       (Some board_below_bed_file) = Defined None) /\
  (exists c h,
     ParseSimplePnPConfiguration fresh_config two_part_board
       (Some board_nan_file) = Defined (Some (c, h)) /\
     tape_for_component c !! "smd0805@100n" = Some 0%nat /\
     F32.ltb (height (h !!! 0%nat)) (bed_level c) = true).
Proof.
  split.
  - eexists _, _. split; [vm_compute; reflexivity |].
    repeat split; vm_compute; reflexivity.
  - eexists _, _. split; [vm_compute; reflexivity |].
    split; vm_compute; reflexivity.
Qed.

(** C5 (amended).  The lines of a calibration file always yield a
    configuration to check, and the check returns null exactly when the
    board top is a number and the board top or the height of some bound
    tape is strictly below the bed level.  So with a board top that is a
    number, a bound tape strictly below the bed level makes the
    construction fail; and a configuration in which no bound tape is below
    the bed level (the lowest may be exactly at it) is accepted as long as
    the board top is not below the bed level either. *)
Theorem ParseSimplePnPConfiguration_cross_check
    (new_config : PnPConfig) (board : Board) (ls : list simple_line) :
  exists c h,
    simple_lines board (new_config, []) ls = Defined (c, h) /\
    (ParseSimplePnPConfiguration new_config board (Some ls) = Defined None
       <-> below_bed c h) /\
    (ParseSimplePnPConfiguration new_config board (Some ls) = Defined (Some (c, h))
       <-> ~ below_bed c h) /\
    (F32.is_nan (board_top c) = false -> tape_below_bed c h ->
     ParseSimplePnPConfiguration new_config board (Some ls) = Defined None) /\
    (F32.ltb (board_top c) (bed_level c) = false ->
     (forall key t, tape_for_component c !! key = Some t ->
                    F32.ltb (height (h !!! t)) (bed_level c) = false) ->
     ParseSimplePnPConfiguration new_config board (Some ls)
       = Defined (Some (c, h))).
Proof.
  destruct (simple_lines_defined board ls new_config [])
    as (c & h & Hls & _); [constructor |].
  exists c, h. split; [assumption |].
  unfold ParseSimplePnPConfiguration. rewrite Hls.
  assert (Hnone : Defined (cross_check c h) = Defined None <-> below_bed c h).
  { rewrite <- cross_check_None. split; congruence. }
  assert (Hsome : Defined (cross_check c h) = Defined (Some (c, h))
                  <-> ~ below_bed c h).
  { rewrite <- cross_check_Some. split; congruence. }
  split; [assumption |]. split; [assumption |]. split.
  - intros Hn Hb. apply Hnone. split; [assumption | now right].
  - intros Htop Htapes. apply Hsome. intros [_ [H | (key & t & Hb & Hlt)]].
    + congruence.
    + rewrite (Htapes key t Hb) in Hlt. discriminate.
Qed.

Lemma ParseSimplePnPConfiguration_cross_check_witness :
  ParseSimplePnPConfiguration fresh_config two_part_board
    (Some tape_below_bed_file) = Defined None /\
  exists c h,
    ParseSimplePnPConfiguration fresh_config two_part_board
      (Some tape_at_bed_level_file) = Defined (Some (c, h)) /\
    F32.eqb (height (h !!! 0%nat)) (bed_level c) = true.
Proof.
  split.
  - destruct (ParseSimplePnPConfiguration_cross_check
                fresh_config two_part_board tape_below_bed_file)
      as (c & h & Hls & _ & _ & Hbelow & _).
    vm_compute in Hls. injection Hls as <- <-.
    apply Hbelow; [reflexivity |].
    exists "smd0805@100n", 0%nat. split; vm_compute; reflexivity.
  - destruct (ParseSimplePnPConfiguration_cross_check
                fresh_config two_part_board tape_at_bed_level_file)
      as (c & h & Hls & _ & _ & _ & Hat).
    exists c, h. vm_compute in Hls. injection Hls as <- <-. split.
    + apply Hat; [vm_compute; reflexivity |].
      intros key t Hb.
      match type of Hb with
      | ?m !! _ = _ =>
          replace m with ({[ "smd0805@100n" := 0%nat ]} : gmap string nat)
            in Hb by (vm_compute; reflexivity)
      end.
      apply lookup_singleton_Some in Hb. destruct Hb as [_ <-].
      vm_compute. reflexivity.
    + vm_compute. reflexivity.

Defined.

(** The two sides of the boundary: a tape exactly at bed level is
    accepted, a tape below it is rejected. *)
Example tape_at_bed_level_accepted :
  exists c h,
    ParseSimplePnPConfiguration fresh_config two_part_board
      (Some tape_at_bed_level_file) = Defined (Some (c, h)) /\
    tape_for_component c !! "smd0805@100n" = Some 0%nat /\
    F32.eqb (height (h !!! 0%nat)) (bed_level c) = true /\
    dx_ (h !!! 0%nat) = F32.of_int 4.
Proof.
  eexists _, _. split; [vm_compute; reflexivity |].
  repeat split; vm_compute; reflexivity.
Qed.

Example tape_below_bed_rejected :
  ParseSimplePnPConfiguration fresh_config two_part_board
    (Some tape_below_bed_file) = Defined None.
Proof. vm_compute. reflexivity. Qed.

(* ===================================================================== *)
(** * Properties of PickNPlace: the walk *)
(* ===================================================================== *)

Local Open Scope nat_scope.

(** The loop, with the machine that writes its calls down, taken apart
    into what it does to the tapes, to [stderr] and to the machine. *)
Lemma PickNPlace_loop_Recorder (config : option PnPConfig) (list_ : list Part) :
  forall st : pnp_state (list call),
    PickNPlace_loop config list_ st =
      mkPnpState (pnp_heap_after config (pnp_heap st) list_)
                 (pnp_stderr st ++ pnp_messages config list_)
                 (pnp_machine st ++ pnp_calls config (pnp_heap st) list_).
Proof.
  unfold PickNPlace_loop.
  induction list_ as [| part rest IH]; intros [h err log]; cbn [foldl].
  - cbn. destruct config; cbn; now rewrite !app_nil_r.
  - rewrite IH. unfold PickNPlace_step.
    cbn [pnp_heap pnp_stderr pnp_machine PickPart PlacePart Recorder fst snd].
    cbn [pnp_heap_after pnp_calls]. unfold advance_tape, tape_of.
    f_equal.
    + cbn [app]. rewrite app_nil_r.
      destruct config as [c |]; cbn [pnp_messages].
      * destruct (FindTapeForPart c part) eqn:Hfind.
        -- rewrite filter_cons_False by congruence. reflexivity.
        -- rewrite filter_cons_True by assumption.
           rewrite fmap_cons. now rewrite <- app_assoc.
      * reflexivity.

    + now rewrite <- !app_assoc.
Qed.

(** Whatever the machine, the tapes fare the same. *)
Lemma PickNPlace_loop_heap {M} `{Machine M}
    (config : option PnPConfig) (list_ : list Part) :
  forall st : pnp_state M,
    pnp_heap (PickNPlace_loop config list_ st)
    = pnp_heap_after config (pnp_heap st) list_.
Proof.
  unfold PickNPlace_loop.
  induction list_ as [| part rest IH]; intros [h err m]; cbn [foldl].
  - reflexivity.
  - rewrite IH. unfold PickNPlace_step.
    cbn [pnp_heap pnp_heap_after]. reflexivity.
Qed.

(** A tape gives a position exactly when it can be advanced. *)
Lemma GetPos_as_Advance (t : Tape) (x y : float) :
  fst (GetPos t x y) = fst (Advance t).
Proof. unfold GetPos, Advance. destruct (count_ t <=? 0)%Z; reflexivity. Qed.

(** The loop with the backend that reports, taken apart in the same
    way. *)
Lemma PickNPlace_loop_Backend (c : PnPConfig) (list_ : list Part) :
  forall st : pnp_state Backend,
    PickNPlace_loop (Some c) list_ st =
      mkPnpState (pnp_heap_after (Some c) (pnp_heap st) list_)
                 (pnp_stderr st ++
                  pnp_reports (backend_report (pnp_machine st)) c
                              (pnp_heap st) list_)
                 (mkBackend (backend_report (pnp_machine st))
                    (backend_calls (pnp_machine st) ++
                     pnp_calls (Some c) (pnp_heap st) list_)).
Proof.
  unfold PickNPlace_loop.
  induction list_ as [| part rest IH]; intros [h err [report log]]; cbn [foldl].
  - cbn. now rewrite !app_nil_r.
  - rewrite IH. unfold PickNPlace_step.
    cbn [pnp_heap pnp_stderr pnp_machine PickPart PlacePart Backend_Machine
         fst snd backend_report backend_calls].
    cbn [pnp_heap_after pnp_calls pnp_reports]. unfold advance_tape, tape_of.
    f_equal.
    + destruct (FindTapeForPart c part) as [t |] eqn:Hfind.
      * now rewrite !app_nil_r, <- !app_assoc.
      * cbn [app]. rewrite !app_nil_r, <- !app_assoc. reflexivity.
    + now rewrite <- !app_assoc.
Qed.

(** The lines of such a walk: one for each part without a tape and one
    for each pick from an exhausted tape, and no other. *)
Lemma pnp_reports_Permutation (report : Part -> string) (c : PnPConfig)
    (list_ : list Part) :
  forall h,
    Permutation (pnp_reports report c h list_)
      ((no_tape_message <$> filter (fun part => FindTapeForPart c part = None) list_)
       ++ (report <$> exhausted_picks c h list_)).
Proof.
  induction list_ as [| part rest IH]; intros h; [reflexivity |].
  cbn [pnp_reports exhausted_picks]. rewrite filter_cons.
  destruct (FindTapeForPart c part) as [t |] eqn:Hfind.
  - rewrite decide_False by congruence.
    rewrite GetPos_as_Advance, fmap_app.
    rewrite (IH (advance_tape t h)). unfold advance_tape.
    destruct (fst (Advance (h !!! t))); cbn [app fmap list_fmap].
    + reflexivity.
    + apply Permutation_middle.
  - rewrite decide_True by reflexivity. rewrite fmap_cons. cbn [app].
    apply perm_skip, IH.
Qed.

Lemma pnp_calls_heads (config : option PnPConfig) (list_ : list Part) :
  forall h,
    head_of <$> pnp_calls config h list_
    = flat_map (fun part => [HeadPickPart part; HeadPlacePart part]) list_.
Proof.
  induction list_ as [| part rest IH]; intros h; [reflexivity |].
  cbn [pnp_calls fmap list_fmap flat_map app head_of].
  change (list_fmap call call_head head_of) with (fmap (M := list) head_of).
  now rewrite IH.
Qed.

Lemma pnp_calls_lookup (config : option PnPConfig) (list_ : list Part) :
  forall h i part,
    list_ !! i = Some part ->
    let h_i := pnp_heap_after config h (take i list_) in
    pnp_calls config h list_ !! (2 * i)
      = Some (CallPickPart part (tape_arg (tape_of config part) h_i)) /\
    pnp_calls config h list_ !! (2 * i + 1)
      = Some (CallPlacePart part (tape_arg (tape_of config part) h_i)).
Proof.
  induction list_ as [| p rest IH]; intros h i part Hi; [discriminate |].
  destruct i as [| i].
  - injection Hi as ->. cbn. split; reflexivity.
  - cbn in Hi. cbn zeta.
    replace (2 * S i) with (S (S (2 * i))) by lia.
    replace (S (S (2 * i)) + 1) with (S (S (2 * i + 1))) by lia.
    cbn [pnp_calls take pnp_heap_after lookup list_lookup].
    apply (IH _ i part Hi).
Qed.


Lemma pnp_messages_unbound (c : PnPConfig) (list_ : list Part) (line : string) :
  line ∈ pnp_messages (Some c) list_ <->
  exists part, part ∈ list_ /\ FindTapeForPart c part = None /\
               line = no_tape_message part.
Proof.
  cbn [pnp_messages]. rewrite list_elem_of_fmap. split.
  - intros (part & -> & Hin). apply list_elem_of_filter in Hin.
    destruct Hin as [Hnone Hin]. now exists part.
  - intros (part & Hin & Hnone & ->). exists part.
    split; [reflexivity |]. now apply list_elem_of_filter.
Qed.


(* ===================================================================== *)
(** * Properties of PickNPlace: the visit order *)
(* ===================================================================== *)

Lemma StronglySorted_lookup {A : Type} (R : A -> A -> Prop) (l : list A) :
  StronglySorted R l ->
  forall i j a b, i < j -> l !! i = Some a -> l !! j = Some b -> R a b.
Proof.
  induction 1 as [| x l Hs IH Hx]; intros i j a b Hij Hi Hj; [discriminate |].
  destruct j as [| j]; [lia |]. cbn in Hj. destruct i as [| i].
  - injection Hi as <-. rewrite Forall_forall in Hx.
    apply Hx. eapply list_elem_of_lookup_2. eassumption.
  - cbn in Hi. apply (IH i j); [lia | assumption | assumption].
Qed.

Lemma String_ltb_irrefl (s : string) : String.ltb s s = false.
Proof.
  unfold String.ltb. pose proof (String.compare_antisym s s) as H.
  destruct (String.compare s s); [reflexivity | discriminate | reflexivity].
Qed.


Lemma String_ltb_asym (s1 s2 : string) :
  String.ltb s1 s2 = true -> String.ltb s2 s1 = false.
Proof.
  unfold String.ltb. rewrite (String.compare_antisym s1 s2).
  destruct (String.compare s2 s1); cbn; congruence.
Qed.


Lemma String_ltb_total (s1 s2 : string) :
  String.ltb s1 s2 = false -> s1 <> s2 -> String.ltb s2 s1 = true.
Proof.
  unfold String.ltb. rewrite (String.compare_antisym s1 s2).
  destruct (String.compare s2 s1) eqn:Hc; cbn; try congruence.
  intros _ Hne. apply String.compare_eq_iff in Hc. congruence.
Qed.


Lemma height_name_before_irrefl (c : PnPConfig) (h : heap) (a : Part) :
  height_name_before c h a a = false.
Proof.
  unfold height_name_before.
  destruct (F32.eqb _ _); [apply String_ltb_irrefl | apply ltb_irrefl].
Qed.

(** The comparator looks at addresses only to answer at once for one and
    the same part; its answer is that of heights and names. *)
Lemma ComponentHeightComparator_by_key (c : PnPConfig) (h : heap) (a b : Part) :
  (part_addr a = part_addr b -> a = b) ->
  ComponentHeightComparator c h a b = height_name_before c h a b.
Proof.
  intros Hid. unfold ComponentHeightComparator.
  destruct (Nat.eqb_spec (part_addr a) (part_addr b)) as [Heq | Hne].
  - rewrite <- (Hid Heq). now rewrite height_name_before_irrefl.
  - reflexivity.
Qed.

(** In a sorted list, a part that heights and names put before another
    one does not come after it. *)
Lemma sorted_before (c : PnPConfig) (h : heap) (list_ : list Part) :
  addr_identifies list_ ->
  StronglySorted (fun a b => ComponentHeightComparator c h b a = false) list_ ->
  forall i j a b,
    list_ !! i = Some a -> list_ !! j = Some b ->
    height_name_before c h a b = true -> i < j.
Proof.
  intros Hid Hs i j a b Hi Hj Hab.
  assert (Ha : a ∈ list_) by (eapply list_elem_of_lookup_2; eassumption).
  assert (Hb : b ∈ list_) by (eapply list_elem_of_lookup_2; eassumption).
  destruct (Nat.lt_total i j) as [Hlt | [Heq | Hgt]]; [assumption | |].
  - subst j. rewrite Hi in Hj. injection Hj as <-.
    now rewrite height_name_before_irrefl in Hab.
  - pose proof (StronglySorted_lookup _ _ Hs j i b a Hgt Hj Hi) as Hba.
    cbn in Hba. rewrite ComponentHeightComparator_by_key in Hba by auto.
    congruence.
Qed.

Lemma addr_identifies_Permutation (l l' : list Part) :
  Permutation l l' -> addr_identifies l -> addr_identifies l'.
Proof.
  intros Hp Hid a b Ha Hb. apply Hid; now rewrite Hp.
Qed.

(** In a sorted list a part of strictly smaller height comes first. *)
Lemma lower_height_before (c : PnPConfig) (h : heap) (list_ : list Part) :
  addr_identifies list_ ->
  StronglySorted (fun a b => ComponentHeightComparator c h b a = false) list_ ->
  forall i j a b,
    list_ !! i = Some a -> list_ !! j = Some b ->
    F32.ltb (GetHeight c h a) (GetHeight c h b) = true -> i < j.
Proof.
  intros Hid Hs i j a b Hi Hj Hlt.
  apply (sorted_before c h list_ Hid Hs i j a b Hi Hj).
  unfold height_name_before.
  destruct (F32.eqb _ _) eqn:Heq; [| assumption].
  apply eqb_not_ltb in Heq. congruence.
Qed.

(** Two sorted lists with the same elements are one list, when no two
    distinct elements are each not after the other. *)
Lemma sorted_Permutation_unique {A : Type} (R : A -> A -> Prop) (l1 : list A) :
  (forall a b, a ∈ l1 -> b ∈ l1 -> R a b -> R b a -> a = b) ->
  forall l2,
    StronglySorted R l1 -> StronglySorted R l2 -> Permutation l1 l2 -> l1 = l2.
Proof.
  induction l1 as [| x l1 IH]; intros Hanti l2 Hs1 Hs2 Hperm.
  - symmetry. now apply Permutation_nil.
  - destruct l2 as [| y l2].
    { symmetry in Hperm. now apply Permutation_nil in Hperm. }
    apply StronglySorted_inv in Hs1. destruct Hs1 as [Hs1 Hx].
    apply StronglySorted_inv in Hs2. destruct Hs2 as [Hs2 Hy].
    rewrite Forall_forall in Hx, Hy.
    assert (Hxy : x = y).
    { assert (Hxin : x ∈ y :: l2) by (rewrite <- Hperm; now left).
      assert (Hyin : y ∈ x :: l1) by (rewrite Hperm; now left).
      apply elem_of_cons in Hxin. destruct Hxin as [Heq | Hxin]; [assumption |].
      apply elem_of_cons in Hyin. destruct Hyin as [Heq | Hyin]; [now symmetry |].
      apply Hanti; [now left | now right | now apply Hx | now apply Hy]. }
    subst y. f_equal. apply IH; try assumption.
    + intros a b Ha Hb. apply Hanti; now right.
    + eapply Permutation_cons_inv. eassumption.
Qed.

(** Two parts that heights and names put neither before the other have
    equal heights and one name, if the heights are numbers. *)
Lemma height_name_tie (c : PnPConfig) (h : heap) (a b : Part) :
  F32.is_nan (GetHeight c h a) = false ->
  F32.is_nan (GetHeight c h b) = false ->
  height_name_before c h a b = false ->
  height_name_before c h b a = false ->
  F32.eqb (GetHeight c h a) (GetHeight c h b) = true /\
  component_name a = component_name b.
Proof.
  unfold height_name_before. intros Ha Hb.
  rewrite (eqb_sym (GetHeight c h b)).
  destruct (F32.eqb _ _) eqn:Heq; intros Hab Hba.
  - split; [reflexivity |].
    destruct (decide (component_name a = component_name b)) as [| Hne];
      [assumption |].
    pose proof (String_ltb_total _ _ Hab Hne). congruence.
  - destruct (float_trichotomy _ _ Ha Hb) as [H | [H | H]]; congruence.
Qed.

Lemma String_compare_as_OT (s1 s2 : string) :
  String.compare s1 s2 = String_as_OT.compare s1 s2.
Proof.
  revert s2. induction s1 as [| a s1 IH]; intros [| b s2]; reflexivity.
Qed.



Lemma String_ltb_trans (s1 s2 s3 : string) :
  String.ltb s1 s2 = true -> String.ltb s2 s3 = true -> String.ltb s1 s3 = true.
Proof.
  unfold String.ltb. intros E12 E23.
  destruct (String.compare s1 s2) eqn:H12; try discriminate.
  destruct (String.compare s2 s3) eqn:H23; try discriminate.
  rewrite String_compare_as_OT in H12, H23.
  pose proof (StrictOrder_Transitive (R := String_as_OT.lt) s1 s2 s3 H12 H23) as H.
  unfold String_as_OT.lt in H. rewrite <- String_compare_as_OT in H.
  now rewrite H.
Qed.



(** Names that are not after one another, in a chain. *)
Lemma String_not_after_trans (s1 s2 s3 : string) :
  String.ltb s2 s1 = false -> String.ltb s3 s2 = false ->
  String.ltb s3 s1 = false.
Proof.
  intros H21 H32. destruct (String.ltb s3 s1) eqn:H31; [| reflexivity].
  destruct (decide (s1 = s2)) as [-> | Hne12]; [congruence |].
  pose proof (String_ltb_total _ _ H21 (not_eq_sym Hne12)) as H12.
  pose proof (String_ltb_trans _ _ _ H31 H12) as H. congruence.
Qed.

Lemma height_name_before_asym (c : PnPConfig) (h : heap) (a b : Part) :
  height_name_before c h a b = true -> height_name_before c h b a = false.
Proof.
  unfold height_name_before. rewrite (eqb_sym (GetHeight c h b)).
  destruct (F32.eqb _ _); [apply String_ltb_asym | apply ltb_asym].
Qed.

Lemma height_name_not_after_trans (c : PnPConfig) (h : heap) (p1 p2 p3 : Part) :
  F32.is_nan (GetHeight c h p1) = false ->
  F32.is_nan (GetHeight c h p2) = false ->
  F32.is_nan (GetHeight c h p3) = false ->
  height_name_before c h p2 p1 = false ->
  height_name_before c h p3 p2 = false ->
  height_name_before c h p3 p1 = false.
Proof.
  unfold height_name_before. intros H1 H2 H3.
  set (h1 := GetHeight c h p1) in *. set (h2 := GetHeight c h p2) in *.
  set (h3 := GetHeight c h p3) in *.
  destruct (F32.eqb h2 h1) eqn:E21, (F32.eqb h3 h2) eqn:E32,
           (F32.eqb h3 h1) eqn:E31; intros H21 H32;
    try (apply eqb_key in E21; [| assumption | assumption]);
    try (apply eqb_key in E32; [| assumption | assumption]);
    try (apply eqb_key in E31; [| assumption | assumption]).
  - eapply String_not_after_trans; eassumption.
  - exfalso. assert (F32.eqb h3 h1 = true) by (apply eqb_key; congruence).
    congruence.
  - exfalso. assert (F32.eqb h3 h2 = true) by (apply eqb_key; congruence).
    congruence.
  - destruct (F32.ltb h3 h1) eqn:L31; [| reflexivity]. exfalso.
    apply ltb_key in L31; [| assumption | assumption].
    assert (F32.ltb h3 h2 = true) by (apply ltb_key; congruence). congruence.
  - exfalso. assert (F32.eqb h2 h1 = true) by (apply eqb_key; congruence).
    congruence.
  - destruct (F32.ltb h3 h1) eqn:L31; [| reflexivity]. exfalso.
    apply ltb_key in L31; [| assumption | assumption].
    assert (F32.ltb h2 h1 = true) by (apply ltb_key; congruence). congruence.
  - exfalso.
    destruct (float_trichotomy h3 h2 H3 H2) as [H | [H | H]]; try congruence.
    destruct (float_trichotomy h2 h1 H2 H1) as [H' | [H' | H']]; try congruence.
    apply ltb_key in H; [| assumption | assumption].
    apply ltb_key in H'; [| assumption | assumption].
    rewrite E31 in H. pose proof (key_lt_trans _ _ _ H H') as Hk.
    now apply key_lt_irrefl in Hk.
  - destruct (F32.ltb h3 h1) eqn:L31; [| reflexivity]. exfalso.
    destruct (float_trichotomy h3 h2 H3 H2) as [H | [H | H]]; try congruence.
    destruct (float_trichotomy h2 h1 H2 H1) as [H' | [H' | H']]; try congruence.
    pose proof (ltb_trans _ _ _ H' H) as Hk.
    pose proof (ltb_asym _ _ Hk). congruence.
Qed.

(** On parts that their addresses tell apart and whose heights are
    numbers the comparator is a strict weak ordering. *)
Lemma ComponentHeightComparator_swo (c : PnPConfig) (h : heap) (l : list Part) :
  addr_identifies l ->
  Forall (fun p => F32.is_nan (GetHeight c h p) = false) l ->
  strict_weak_ordering (ComponentHeightComparator c h) l.
Proof.
  intros Hid Hnum. rewrite Forall_forall in Hnum.
  assert (Hkey : forall a b, a ∈ l -> b ∈ l ->
            ComponentHeightComparator c h a b = height_name_before c h a b).
  { intros a b Ha Hb. apply ComponentHeightComparator_by_key. now apply Hid. }
  split; [| split].
  - intros a Ha. rewrite Hkey by assumption. apply height_name_before_irrefl.
  - intros a b d Ha Hb Hd. rewrite !Hkey by assumption. intros Hab Hbd.
    destruct (height_name_before c h a d) eqn:Had; [reflexivity |].
    pose proof (height_name_before_asym c h b d Hbd) as Hdb.
    pose proof (height_name_not_after_trans c h b d a
                  (Hnum b Hb) (Hnum d Hd) (Hnum a Ha) Hdb Had) as H.
    congruence.
  - intros a b d Ha Hb Hd. rewrite !Hkey by assumption.
    intros Hab Hba Hbd Hdb. split.
    + apply (height_name_not_after_trans c h d b a); auto.
    + apply (height_name_not_after_trans c h a b d); auto.
Qed.

(** With such parts the visit order is sorted. *)
Lemma visit_order_sorted (c : PnPConfig) (h : heap) (board : Board)
    (list_ : list Part) :
  addr_identifies (parts board) ->
  Forall (fun p => F32.is_nan (GetHeight c h p) = false) (parts board) ->
  visit_order (Some c) h board list_ ->
  Permutation (parts board) list_ /\
  StronglySorted (fun a b => ComponentHeightComparator c h b a = false) list_.
Proof.
  intros Hid Hnum [Hperm Hsorted]. split; [exact Hperm |].
  apply Hsorted, ComponentHeightComparator_swo; assumption.
Qed.

(** With heights that are numbers and no name twice, [std::sort] can
    leave one list only. *)
Lemma sorted_order_unique (c : PnPConfig) (h : heap) (l l1 l2 : list Part) :
  addr_identifies l ->
  Forall (fun p => F32.is_nan (GetHeight c h p) = false) l ->
  (forall a b, a ∈ l -> b ∈ l -> component_name a = component_name b -> a = b) ->
  std_sort_post (ComponentHeightComparator c h) l l1 ->
  std_sort_post (ComponentHeightComparator c h) l l2 ->
  l1 = l2.
Proof.
  intros Hid Hnum Hnames [Hp1 Hs1] [Hp2 Hs2].
  pose proof (ComponentHeightComparator_swo c h l Hid Hnum) as Hswo.
  specialize (Hs1 Hswo). specialize (Hs2 Hswo).
  apply (sorted_Permutation_unique
           (fun a b => ComponentHeightComparator c h b a = false) l1);
    [| assumption | assumption | now rewrite <- Hp1].
  intros a b Ha Hb Hab Hba. rewrite <- Hp1 in Ha, Hb.
  rewrite ComponentHeightComparator_by_key in Hab, Hba by auto.
  rewrite Forall_forall in Hnum.
  apply Hnames; try assumption.
  now apply (height_name_tie c h a b (Hnum a Ha) (Hnum b Hb)).
Qed.

Lemma visit_order_Permutation (config : option PnPConfig) (h : heap)
    (board : Board) (list_ : list Part) :
  visit_order config h board list_ -> Permutation (parts board) list_.
Proof.
  destruct config; cbn; [now intros [Hp _] | now intros ->].
Qed.

(** C2 (amended).  The visit order has the parts of the board.  Without a
    binding table it is the board order.  With one it is the part list as
    [std::sort] leaves it under the comparator, which answers by height
    and name (the addresses do not enter) and counts a part without
    binding with height -1.  When no height is a NaN: no part comes after
    a part of strictly greater height, and of two parts with equal height
    the one that comes later does not have the smaller name; a part of
    strictly smaller height comes first, so a part without binding comes
    before every part whose tape is higher than -1; of two parts with
    equal height and distinct names the one with the smaller name comes
    first; and when no two parts have one name, the order is the only one
    [std::sort] can leave.  (Nothing is said of parts with equal height
    and equal name, nor of the order when a height is a NaN.) *)
Theorem visit_order_by_height_then_name
    (config : option PnPConfig) (h : heap) (board : Board) (list_ : list Part) :
  addr_identifies (parts board) ->
  visit_order config h board list_ ->
  Permutation (parts board) list_ /\
  match config with
  | None => list_ = parts board
  | Some c =>
      (forall part, FindTapeForPart c part = None ->
                    GetHeight c h part = F32.of_int (-1)) /\
      (forall a b, a ∈ parts board -> b ∈ parts board ->
         ComponentHeightComparator c h a b = height_name_before c h a b) /\
      (Forall (fun p => F32.is_nan (GetHeight c h p) = false) (parts board) ->
       (forall i j a b,
          i < j -> list_ !! i = Some a -> list_ !! j = Some b ->
          F32.ltb (GetHeight c h b) (GetHeight c h a) = false /\
          (F32.eqb (GetHeight c h a) (GetHeight c h b) = true ->
           String.ltb (component_name b) (component_name a) = false)) /\
       (forall i j a b,
          list_ !! i = Some a -> list_ !! j = Some b ->
          F32.ltb (GetHeight c h a) (GetHeight c h b) = true -> i < j) /\
       (forall i j a b,
          list_ !! i = Some a -> list_ !! j = Some b ->
          FindTapeForPart c a = None ->
          F32.ltb (F32.of_int (-1)) (GetHeight c h b) = true -> i < j) /\
       (forall i j a b,
          list_ !! i = Some a -> list_ !! j = Some b ->
          F32.eqb (GetHeight c h a) (GetHeight c h b) = true ->
          component_name a <> component_name b ->
          (i < j <-> String.ltb (component_name a) (component_name b) = true)) /\
       ((forall a b, a ∈ parts board -> b ∈ parts board ->
           component_name a = component_name b -> a = b) ->
        forall list', visit_order (Some c) h board list' -> list' = list_))
  end.
Proof.
  intros Hid Hvo.
  split; [eapply visit_order_Permutation; eassumption |].
  destruct config as [c |]; [| exact Hvo].
  assert (Hnone : forall part, FindTapeForPart c part = None ->
                               GetHeight c h part = F32.of_int (-1)).
  { intros part Hp. unfold GetHeight. now rewrite Hp. }
  split; [assumption |]. split.
  { intros a b Ha Hb. apply ComponentHeightComparator_by_key. now apply Hid. }
  intros Hnum.
  destruct (visit_order_sorted c h board list_ Hid Hnum Hvo) as [Hperm Hsorted].
  pose proof (addr_identifies_Permutation _ _ Hperm Hid) as Hid'.
  pose proof (lower_height_before c h list_ Hid' Hsorted) as Hlower.
  assert (Hname : forall i j a b,
            list_ !! i = Some a -> list_ !! j = Some b ->
            F32.eqb (GetHeight c h a) (GetHeight c h b) = true ->
            String.ltb (component_name a) (component_name b) = true -> i < j).
  { intros i j a b Hi Hj Heq Hlt.
    apply (sorted_before c h list_ Hid' Hsorted i j a b Hi Hj).
    unfold height_name_before. now rewrite Heq. }
  split; [| split; [| split; [| split]]].
  - intros i j a b Hij Hi Hj.
    assert (Ha : a ∈ list_) by (eapply list_elem_of_lookup_2; eassumption).
    assert (Hb : b ∈ list_) by (eapply list_elem_of_lookup_2; eassumption).
    pose proof (StronglySorted_lookup _ _ Hsorted i j a b Hij Hi Hj) as Hba.
    cbn in Hba. rewrite ComponentHeightComparator_by_key in Hba by auto.
    unfold height_name_before in Hba. rewrite eqb_sym.
    destruct (F32.eqb (GetHeight c h b) (GetHeight c h a)) eqn:Heq.
    + split; [now apply eqb_not_ltb | now intros _].
    + split; [assumption | discriminate].
  - exact Hlower.
  - intros i j a b Hi Hj Ha Hb. apply (Hlower i j a b Hi Hj).
    now rewrite (Hnone a Ha).
  - intros i j a b Hi Hj Heq Hne. split.
    + intros Hij. destruct (String.ltb (component_name a) (component_name b)) eqn:Hab;
        [reflexivity |].
      pose proof (String_ltb_total _ _ Hab Hne) as Hba.
      rewrite eqb_sym in Heq.
      pose proof (Hname j i b a Hj Hi Heq Hba). lia.
    + apply (Hname i j a b Hi Hj Heq).
  - intros Hnames list' Hvo'.
    now apply (sorted_order_unique c h (parts board) list' list_).
Qed.

(** Membership in a list that is written out, case by case. *)
Ltac by_cases_in_list :=
  repeat match goal with
  | H : _ ∈ _ :: _ |- _ => apply elem_of_cons in H; destruct H as [-> | H]
  | H : _ ∈ [] |- _ => apply elem_of_nil in H; destruct H
  end.

Ltac addresses_differ :=
  intros ? ? Ha Hb Haddr; cbn in Ha, Hb; by_cases_in_list;
  first [reflexivity | discriminate Haddr].

Ltac sorted_by_computation :=
  try (intros _);
  repeat match goal with
  | |- StronglySorted _ _ => constructor
  | |- Forall _ _ => constructor
  | |- _ = false => vm_compute; reflexivity
  end.

Ltac heights_are_numbers :=
  cbn; repeat (constructor; [vm_compute; reflexivity |]); constructor.

Lemma visit_order_by_height_then_name_witness :
  addr_identifies (parts three_caps_board) /\
  visit_order (Some one_tape_config) two_left three_caps_board
              [part_C1; part_C2; part_C3] /\
  Forall (fun p => F32.is_nan (GetHeight one_tape_config two_left p) = false)
         (parts three_caps_board) /\
  Permutation (parts three_caps_board) [part_C1; part_C2; part_C3] /\
  ComponentHeightComparator one_tape_config two_left part_C1 part_C2
    = height_name_before one_tape_config two_left part_C1 part_C2 /\
  forall list',
    visit_order (Some one_tape_config) two_left three_caps_board list' ->
    list' = [part_C1; part_C2; part_C3].
Proof.
  assert (Hid : addr_identifies (parts three_caps_board)) by addresses_differ.
  assert (Hvo : visit_order (Some one_tape_config) two_left three_caps_board
                            [part_C1; part_C2; part_C3]).
  { split.
    - cbn. etransitivity; [apply perm_swap |]. apply perm_skip, perm_swap.
    - sorted_by_computation. }
  assert (Hnum : Forall (fun p => F32.is_nan
                                    (GetHeight one_tape_config two_left p) = false)
                        (parts three_caps_board)) by heights_are_numbers.
  destruct (visit_order_by_height_then_name
              (Some one_tape_config) two_left three_caps_board
              [part_C1; part_C2; part_C3] Hid Hvo)
    as (Hperm & _ & Hkey & Hsorted).
  destruct (Hsorted Hnum) as (_ & _ & _ & _ & Hunique).
  refine (conj Hid (conj Hvo (conj Hnum (conj Hperm
            (conj (Hkey part_C1 part_C2 _ _) (Hunique _)))))).
  - cbn. rewrite !elem_of_cons. tauto.
  - cbn. rewrite !elem_of_cons. tauto.
  - intros a b Ha Hb Hname. cbn in Ha, Hb. by_cases_in_list;
      first [reflexivity | discriminate Hname].
Defined.

(** C2 (as stated, refuted).  The claim lets a part without binding sort
    first, and speaks of every run and of every height.  With a tape at
    z = -2 the part of that tape is put, and has to be put, before the part
    without binding.  Without a binding table nothing is sorted: the board
    order C3, C1, C2 is the visit order.  And with a tape whose height is
    a NaN the comparator is no strict weak ordering, [std::sort] promises
    no order, and the board order R1, C3, L1, C1 is a list it may leave,
    in which C3 at height 5 is visited before C1 at height 2. *)
Lemma visit_order_unbound_not_first_nor_always_sorted :
  (FindTapeForPart one_tape_config part_R1 = None /\
   FindTapeForPart one_tape_config part_C1 = Some 0 /\
   GetHeight one_tape_config sunk_tape part_C1 = F32.of_int (-2) /\
   visit_order (Some one_tape_config) sunk_tape unsorted_board
               [part_C1; part_R1] /\
   ~ visit_order (Some one_tape_config) sunk_tape unsorted_board
                 [part_R1; part_C1]) /\
  (visit_order None two_left three_caps_board [part_C3; part_C1; part_C2] /\
   (forall list_, visit_order None two_left three_caps_board list_ ->
                  list_ = [part_C3; part_C1; part_C2]) /\
   String.ltb (component_name part_C1) (component_name part_C3) = true) /\
  (F32.is_nan (GetHeight nan_config nan_heap part_L1) = true /\
   ~ strict_weak_ordering (ComponentHeightComparator nan_config nan_heap)
                          (parts nan_board) /\
   visit_order (Some nan_config) nan_heap nan_board
               [part_R1; part_C3_tall; part_L1; part_C1] /\
   GetHeight nan_config nan_heap part_C3_tall = F32.of_int 5 /\
   GetHeight nan_config nan_heap part_C1 = F32.of_int 2).
Proof.
  split; [| split].
  - split; [reflexivity |]. split; [reflexivity |].
    split; [vm_compute; reflexivity |]. split.
    + split; [apply perm_swap |].
      sorted_by_computation.
    + intros Hvo.
      destruct (visit_order_sorted one_tape_config sunk_tape unsorted_board
                  [part_R1; part_C1]) as [_ Hs];
        [addresses_differ | heights_are_numbers | exact Hvo |].
      pose proof (StronglySorted_lookup _ _ Hs 0 1 part_R1 part_C1
                    ltac:(lia) eq_refl eq_refl) as H.
      vm_compute in H. discriminate.
  - split; [reflexivity |]. split; [| reflexivity].
    intros list_ Hvo. exact Hvo.
  - assert (Hno : ~ strict_weak_ordering
                      (ComponentHeightComparator nan_config nan_heap)
                      (parts nan_board)).
    { intros (_ & _ & Hequiv).
      destruct (Hequiv part_C3_tall part_L1 part_C1) as [_ H];
        try (cbn; rewrite !elem_of_cons; tauto);
        try (vm_compute; reflexivity).
      vm_compute in H. discriminate H. }
    split; [vm_compute; reflexivity |]. split; [exact Hno |].
    split; [| split; vm_compute; reflexivity].
    split; [reflexivity |]. intros Hswo. destruct (Hno Hswo).
Qed.

(* ===================================================================== *)
(** * PickNPlace has a list to walk *)
(* ===================================================================== *)

Local Open Scope nat_scope.

Section InsertionSort.

Context {A : Type} (comp : A -> A -> bool) (P : A -> Prop).

(** What the sort needs of the comparator on the elements at hand: of two
    elements not both are before the other, and not being after is
    transitive. *)
Hypothesis comp_asym :
  forall a b, P a -> P b -> comp a b = true -> comp b a = false.
Hypothesis comp_not_after_trans :
  forall a b c, P a -> P b -> P c ->
    comp b a = false -> comp c b = false -> comp c a = false.

Lemma sort_insert_Permutation (x : A) (l : list A) :
  Permutation (x :: l) (sort_insert comp x l).
Proof.
  induction l as [| y l IH]; cbn [sort_insert]; [reflexivity |].
  destruct (comp y x); [| reflexivity].
  etransitivity; [apply perm_swap | apply perm_skip, IH].
Qed.

Lemma insertion_sort_Permutation (l : list A) :
  Permutation l (insertion_sort comp l).
Proof.
  unfold insertion_sort. induction l as [| x l IH]; cbn [foldr]; [reflexivity |].
  etransitivity; [apply perm_skip, IH | apply sort_insert_Permutation].
Qed.

Lemma sort_insert_sorted (x : A) (l : list A) :
  P x -> Forall P l ->
  StronglySorted (fun a b => comp b a = false) l ->
  StronglySorted (fun a b => comp b a = false) (sort_insert comp x l).
Proof.
  intros Hx Hl Hs. induction Hs as [| y l Hs IH Hy]; cbn [sort_insert].
  - constructor; constructor.
  - apply Forall_cons in Hl. destruct Hl as [HPy HPl].
    destruct (comp y x) eqn:Hyx.
    + constructor; [now apply IH |].
      rewrite <- sort_insert_Permutation. constructor; [| assumption].
      now apply comp_asym.
    + constructor; [now constructor |]. constructor; [assumption |].
      rewrite Forall_forall in Hy, HPl. apply Forall_forall. intros z Hz.
      apply (comp_not_after_trans x y z); auto.
Qed.

Lemma insertion_sort_sorted (l : list A) :
  Forall P l ->
  StronglySorted (fun a b => comp b a = false) (insertion_sort comp l).
Proof.
  unfold insertion_sort. induction l as [| x l IH]; intros Hl; cbn [foldr].
  - constructor.
  - apply Forall_cons in Hl. destruct Hl as [Hx Hl].
    apply sort_insert_sorted; [assumption | | now apply IH].
    pose proof (insertion_sort_Permutation l) as Hp.
    unfold insertion_sort in Hp. now rewrite <- Hp.
Qed.


Lemma insertion_sort_post (l : list A) :
  Forall P l -> std_sort_post comp l (insertion_sort comp l).
Proof.
  intros Hl. split; [apply insertion_sort_Permutation |].
  intros _. now apply insertion_sort_sorted.
Qed.

End InsertionSort.

(** When the heights are numbers the comparator is one [std::sort] can
    work with, and [PickNPlace] returns. *)
Lemma visit_order_exists (c : PnPConfig) (h : heap) (board : Board) :
  addr_identifies (parts board) ->
  Forall (fun p => F32.is_nan (GetHeight c h p) = false) (parts board) ->
  visit_order (Some c) h board
    (insertion_sort (ComponentHeightComparator c h) (parts board)).
Proof.
  intros Hid Hnum. cbn [visit_order].
  apply (insertion_sort_post (ComponentHeightComparator c h)
           (fun p => p ∈ parts board /\ F32.is_nan (GetHeight c h p) = false)).
  - intros a b [Ha _] [Hb _]. rewrite !ComponentHeightComparator_by_key by auto.
    apply height_name_before_asym.
  - intros p1 p2 p3 [Hp1 Hn1] [Hp2 Hn2] [Hp3 Hn3].
    rewrite !ComponentHeightComparator_by_key by auto.
    now apply height_name_not_after_trans.
  - rewrite Forall_forall in Hnum. apply Forall_forall. auto.
Qed.

Lemma PickNPlace_returns {M} `{Machine M} (c : PnPConfig) (board : Board)
    (st : pnp_state M) :
  addr_identifies (parts board) ->
  Forall (fun p => F32.is_nan (GetHeight c (pnp_heap st) p) = false)
         (parts board) ->
  exists st', PickNPlace (Some c) board st st'.
Proof.
  intros Hid Hnum. eexists. eexists. split; [| reflexivity].
  now apply visit_order_exists.
Qed.

Lemma PickNPlace_without_config_returns {M} `{Machine M} (board : Board)
    (st : pnp_state M) :
  exists st', PickNPlace None board st st'.
Proof. eexists. exists (parts board). split; reflexivity. Qed.

(* ===================================================================== *)
(** * Properties of PickNPlace: tapes that are missing or have run out *)
(* ===================================================================== *)

(** C3.  [PickNPlace] does not stop at a tape that has run out: it
    returns, when the heights it sorts by are numbers, and it walks the
    whole visit order, which has the parts of the board; for each part in
    turn it calls [PickPart] and then [PlacePart], with the tape bound to
    the part in the state the walk has left it in, exhausted or not, and
    so for that part and for every later one.  It writes nothing about the
    exhaustion itself (the result of [Advance] is dropped); the report is
    the machine's, which is handed the exhausted tape.  With the backend
    that reports a tape it cannot pick from, [stderr] receives, next to
    the lines for parts without a tape, one line for each pick from an
    exhausted tape, and no other line. *)
Theorem PickNPlace_goes_on_when_tape_runs_out
    (c : PnPConfig) (board : Board) (st : pnp_state Backend) :
  (addr_identifies (parts board) ->
   Forall (fun p => F32.is_nan (GetHeight c (pnp_heap st) p) = false)
          (parts board) ->
   exists st', PickNPlace (Some c) board st st') /\
  forall st',
    PickNPlace (Some c) board st st' ->
    exists list_ calls lines,
      visit_order (Some c) (pnp_heap st) board list_ /\
      Permutation (parts board) list_ /\
      backend_calls (pnp_machine st') = backend_calls (pnp_machine st) ++ calls /\
      head_of <$> calls
        = flat_map (fun part => [HeadPickPart part; HeadPlacePart part]) list_ /\
      (forall i part,
         list_ !! i = Some part ->
         let h_i := pnp_heap_after (Some c) (pnp_heap st) (take i list_) in
         calls !! (2 * i)
           = Some (CallPickPart part (tape_arg (FindTapeForPart c part) h_i)) /\
         calls !! (2 * i + 1)
           = Some (CallPlacePart part (tape_arg (FindTapeForPart c part) h_i))) /\
      pnp_stderr st' = pnp_stderr st ++ lines /\
      Permutation lines
        ((no_tape_message <$>
            filter (fun part => FindTapeForPart c part = None) list_) ++
         (backend_report (pnp_machine st) <$>
            exhausted_picks c (pnp_heap st) list_)).
Proof.
  split.
  - intros Hid Hnum. now apply PickNPlace_returns.
  - intros st' (list_ & Hvo & ->).
    exists list_, (pnp_calls (Some c) (pnp_heap st) list_),
      (pnp_reports (backend_report (pnp_machine st)) c (pnp_heap st) list_).
    rewrite PickNPlace_loop_Backend.
    cbn [pnp_machine pnp_stderr backend_calls].
    split; [assumption |].
    split; [eapply visit_order_Permutation; eassumption |].
    split; [reflexivity |]. split; [apply pnp_calls_heads |].
    split; [intros i part; apply (pnp_calls_lookup (Some c)) |].
    split; [reflexivity |]. apply pnp_reports_Permutation.
Qed.

Lemma PickNPlace_goes_on_when_tape_runs_out_witness :
  addr_identifies (parts three_caps_board) /\
  Forall (fun p => F32.is_nan (GetHeight one_tape_config two_left p) = false)
         (parts three_caps_board) /\
  exhausted_picks one_tape_config two_left [part_C1; part_C2; part_C3]
    = [part_C3] /\
  exists st',
    PickNPlace (Some one_tape_config) three_caps_board
      (mkPnpState two_left [] (mkBackend example_report [])) st' /\
    head_of <$> backend_calls (pnp_machine st')
      = [HeadPickPart part_C1; HeadPlacePart part_C1;
         HeadPickPart part_C2; HeadPlacePart part_C2;
         HeadPickPart part_C3; HeadPlacePart part_C3] /\
    pnp_stderr st' = [example_report part_C3].
Proof.
  assert (Hid : addr_identifies (parts three_caps_board)) by addresses_differ.
  assert (Hnum : Forall (fun p => F32.is_nan
                                    (GetHeight one_tape_config two_left p) = false)
                        (parts three_caps_board)) by heights_are_numbers.
  set (st := mkPnpState two_left [] (mkBackend example_report [])).
  destruct (PickNPlace_goes_on_when_tape_runs_out
              one_tape_config three_caps_board st) as [Hreturns Hwalk].
  destruct (Hreturns Hid Hnum) as [st' Hrun].
  refine (conj Hid (conj Hnum (conj eq_refl _))). exists st'.
  split; [exact Hrun |].
  destruct (Hwalk st' Hrun)
    as (list_ & calls & lines & Hvo & _ & Hm & Hheads & _ & Herr & Hlines).
  assert (Hlist : list_ = [part_C1; part_C2; part_C3]).
  { apply (sorted_order_unique one_tape_config two_left
             (parts three_caps_board)); try assumption.
    - intros a b Ha Hb Hname. cbn in Ha, Hb. by_cases_in_list;
        first [reflexivity | discriminate Hname].
    - split.
      + cbn. etransitivity; [apply perm_swap |]. apply perm_skip, perm_swap.
      + sorted_by_computation. }
  subst list_. rewrite Hm, Herr. cbn [backend_calls pnp_machine pnp_stderr st app].
  split; [exact Hheads |].
  apply Permutation_singleton_r. exact Hlines.
Defined.

(** C6 (as stated, refuted).  The claim lets a part without a matching
    entry sort first.  On a board with [R1], which has no entry, and [C2],
    whose tape has its pickup height at z = -2, every list [std::sort] may
    leave has [C2] first: [R1] is reported, picked and placed, but
    second.  And with a tape whose height is a NaN the comparator is no
    strict weak ordering and [std::sort] promises no order: the board
    order L1, C3, L2, R1 is a list it may leave, in which [R1] comes after
    [C3], whose tape is at height 5. *)
Lemma part_without_tape_is_not_first :
  FindTapeForPart one_tape_config part_R1 = None /\
  GetHeight one_tape_config sunk_tape part_R1 = F32.of_int (-1) /\
  GetHeight one_tape_config sunk_tape part_C2 = F32.of_int (-2) /\
  (forall list_,
     visit_order (Some one_tape_config) sunk_tape resistor_and_cap_board list_ ->
     list_ = [part_C2; part_R1]) /\
  (exists st',
     PickNPlace (Some one_tape_config) resistor_and_cap_board
       (pnp_start sunk_tape) st' /\
     pnp_stderr st' = [no_tape_message part_R1] /\
     head_of <$> pnp_machine st'
       = [HeadPickPart part_C2; HeadPlacePart part_C2;
          HeadPickPart part_R1; HeadPlacePart part_R1]) /\
  (F32.is_nan (GetHeight nan_config nan_heap part_L1) = true /\
   FindTapeForPart nan_config part_R1 = None /\
   GetHeight nan_config nan_heap part_C3_tall = F32.of_int 5 /\
   ~ strict_weak_ordering (ComponentHeightComparator nan_config nan_heap)
                          (parts nan_first_board) /\
   visit_order (Some nan_config) nan_heap nan_first_board
               [part_L1; part_C3_tall; part_L2; part_R1]).
Proof.
  split; [vm_compute; reflexivity |]. split; [vm_compute; reflexivity |].
  split; [vm_compute; reflexivity |]. split; [| split].
  - intros list_ Hvo.
    destruct (visit_order_sorted one_tape_config sunk_tape
                resistor_and_cap_board list_) as [Hperm Hs];
      [addresses_differ | heights_are_numbers | exact Hvo |].
    cbn in Hperm.
    apply Permutation_length_2_inv in Hperm.
    destruct Hperm as [-> | ->]; [| reflexivity].
    pose proof (StronglySorted_lookup _ _ Hs 0 1 part_R1 part_C2
                  ltac:(lia) eq_refl eq_refl) as H.
    vm_compute in H. discriminate.
  - eexists. split.
    + exists [part_C2; part_R1]. split; [| reflexivity].
      split; [apply perm_swap | sorted_by_computation].
    + split; vm_compute; reflexivity.
  - assert (Hno : ~ strict_weak_ordering
                      (ComponentHeightComparator nan_config nan_heap)
                      (parts nan_first_board)).
    { intros (_ & _ & Hequiv).
      destruct (Hequiv part_C3_tall part_L2 part_R1) as [_ H];
        try (cbn; rewrite !elem_of_cons; tauto);
        try (vm_compute; reflexivity).
      vm_compute in H. discriminate H. }
    split; [vm_compute; reflexivity |]. split; [vm_compute; reflexivity |].
    split; [vm_compute; reflexivity |]. split; [exact Hno |].
    split; [reflexivity |]. intros Hswo. destruct (Hno Hswo).
Qed.

(** C6 (amended).  The tape of a part is the entry of the binding table
    under the key footprint@value, and no other.  A part of the board
    without such an entry counts with height -1 in the ordering, so that,
    when no height is a NaN, it is visited before every part whose tape is
    higher than -1 (a part whose tape is at -1 or lower is not visited
    after it on account of the height); the run goes on and returns, when
    the heights are numbers: at each of its turns [PickPart] and
    [PlacePart] are called for the part with a null tape, and [stderr]
    receives one line for each turn of a part without entry, in visit
    order. *)
Theorem part_without_tape_is_reported_and_placed
    (c : PnPConfig) (board : Board) (st : pnp_state (list call)) (part : Part) :
  addr_identifies (parts board) ->
  part ∈ parts board ->
  tape_for_component c !! (footprint part +:+ "@" +:+ value part) = None ->
  (forall p, FindTapeForPart c p
             = tape_for_component c !! (footprint p +:+ "@" +:+ value p)) /\
  FindTapeForPart c part = None /\
  GetHeight c (pnp_heap st) part = F32.of_int (-1) /\
  (Forall (fun p => F32.is_nan (GetHeight c (pnp_heap st) p) = false)
          (parts board) ->
   exists st', PickNPlace (Some c) board st st') /\
  forall st',
    PickNPlace (Some c) board st st' ->
    exists list_ calls,
      visit_order (Some c) (pnp_heap st) board list_ /\
      part ∈ list_ /\
      (Forall (fun p => F32.is_nan (GetHeight c (pnp_heap st) p) = false)
              (parts board) ->
       forall i j b,
         list_ !! i = Some part -> list_ !! j = Some b ->
         F32.ltb (F32.of_int (-1)) (GetHeight c (pnp_heap st) b) = true ->
         i < j) /\
      pnp_machine st' = pnp_machine st ++ calls /\
      (forall i, list_ !! i = Some part ->
         calls !! (2 * i) = Some (CallPickPart part None) /\
         calls !! (2 * i + 1) = Some (CallPlacePart part None)) /\
      pnp_stderr st'
        = pnp_stderr st ++
          (no_tape_message <$>
             filter (fun p => FindTapeForPart c p = None) list_) /\
      no_tape_message part ∈ pnp_stderr st'.
Proof.
  intros Hid Hin Hnone.
  assert (Hfind : FindTapeForPart c part = None) by exact Hnone.
  split; [reflexivity |]. split; [assumption |].
  split; [unfold GetHeight; now rewrite Hfind |].
  split; [intros Hnum; now apply PickNPlace_returns |].
  intros st' (list_ & Hvo & ->).
  exists list_, (pnp_calls (Some c) (pnp_heap st) list_).
  pose proof (visit_order_Permutation _ _ _ _ Hvo) as Hperm.
  assert (Hin' : part ∈ list_) by now rewrite <- Hperm.
  rewrite PickNPlace_loop_Recorder. cbn [pnp_machine pnp_stderr pnp_messages].
  split; [assumption |]. split; [assumption |]. split.
  { intros Hnum i j b Hi Hj Hb.
    destruct (visit_order_sorted c (pnp_heap st) board list_ Hid Hnum Hvo)
      as [_ Hsorted].
    pose proof (addr_identifies_Permutation _ _ Hperm Hid) as Hid'.
    apply (lower_height_before c (pnp_heap st) list_ Hid' Hsorted i j part b Hi Hj).
    unfold GetHeight at 1. now rewrite Hfind. }
  split; [reflexivity |]. split; [| split; [reflexivity |]].
  - intros i Hi.
    destruct (pnp_calls_lookup (Some c) list_ (pnp_heap st) i part Hi) as [H1 H2].
    cbn [tape_of] in H1, H2. rewrite Hfind in H1, H2. now split.
  - apply elem_of_app. right. apply list_elem_of_fmap. exists part.
    split; [reflexivity |]. now apply list_elem_of_filter.
Qed.

Lemma part_without_tape_is_reported_and_placed_witness :
  addr_identifies (parts resistor_and_cap_board) /\
  part_R1 ∈ parts resistor_and_cap_board /\
  tape_for_component one_tape_config
    !! (footprint part_R1 +:+ "@" +:+ value part_R1) = None /\
  Forall (fun p => F32.is_nan (GetHeight one_tape_config two_left p) = false)
         (parts resistor_and_cap_board) /\
  exists st',
    PickNPlace (Some one_tape_config) resistor_and_cap_board
      (pnp_start two_left) st' /\
    GetHeight one_tape_config two_left part_R1 = F32.of_int (-1) /\
    no_tape_message part_R1 ∈ pnp_stderr st'.
Proof.
  assert (Hid : addr_identifies (parts resistor_and_cap_board))
    by addresses_differ.
  assert (Hin : part_R1 ∈ parts resistor_and_cap_board)
    by (cbn; rewrite !elem_of_cons; tauto).
  assert (Hnone : tape_for_component one_tape_config
                    !! (footprint part_R1 +:+ "@" +:+ value part_R1) = None)
    by (vm_compute; reflexivity).
  assert (Hnum : Forall (fun p => F32.is_nan
                                    (GetHeight one_tape_config two_left p) = false)
                        (parts resistor_and_cap_board)) by heights_are_numbers.
  destruct (part_without_tape_is_reported_and_placed
              one_tape_config resistor_and_cap_board (pnp_start two_left)
              part_R1 Hid Hin Hnone)
    as (_ & _ & Hheight & Hreturns & Hwalk).
  destruct (Hreturns Hnum) as [st' Hrun].
  destruct (Hwalk st' Hrun)
    as (list_ & calls & _ & _ & _ & _ & _ & _ & Hline).
  refine (conj Hid (conj Hin (conj Hnone (conj Hnum _)))).
  exists st'. exact (conj Hrun (conj Hheight Hline)).
Defined.

(* ===================================================================== *)
(** * Properties of SolderDispense *)
(* ===================================================================== *)

Lemma take_nearest_Permutation (from : Position) (rest : list DispenseUnit) :
  forall best b r,
    take_nearest from best rest = (b, r) ->
    Permutation (best :: rest) (b :: r).
Proof.
  induction rest as [| u rest IH]; intros best b r Heq; cbn in Heq.
  - injection Heq as <- <-. reflexivity.
  - destruct (F32.ltb _ _).
    + destruct (take_nearest from u rest) as [b' r'] eqn:Hn.
      injection Heq as <- <-. specialize (IH _ _ _ Hn).
      etransitivity; [apply perm_skip, IH | apply perm_swap].
    + destruct (take_nearest from best rest) as [b' r'] eqn:Hn.
      injection Heq as <- <-. specialize (IH _ _ _ Hn).
      etransitivity; [apply perm_swap |].
      etransitivity; [apply perm_skip, IH | apply perm_swap].
Qed.


Lemma nearest_first_Permutation (fuel : nat) :
  forall from todo, Permutation todo (nearest_first fuel from todo).
Proof.
  induction fuel as [| fuel IH]; intros from todo; [reflexivity |].
  destruct todo as [| u rest]; [reflexivity |]. cbn [nearest_first].
  destruct (take_nearest from u rest) as [b r] eqn:Hn.
  rewrite (take_nearest_Permutation _ _ _ _ _ Hn).
  apply perm_skip, IH.
Qed.

Lemma OptimizeParts_Permutation (l : list DispenseUnit) :
  Permutation l (OptimizeParts l).
Proof.
  destruct l as [| u rest]; [reflexivity |].
  cbn [OptimizeParts]. apply perm_skip, nearest_first_Permutation.
Qed.

Lemma Dispense_loop_Recorder (l : list DispenseUnit) :
  forall log : list call,
    foldl (fun m (p : DispenseUnit) => Dispense (fst p) (snd p) m) log l
    = log ++ map (fun p => CallDispense (fst p) (snd p)) l.
Proof.
  induction l as [| p l IH]; intros log; cbn [foldl map].
  - now rewrite app_nil_r.
  - rewrite IH. cbn [Dispense Recorder]. now rewrite <- app_assoc.
Qed.

Lemma all_pads_elem (board : Board) (part : Part) (pad : Pad) :
  (part, pad) ∈ all_pads board <-> part ∈ parts board /\ pad ∈ pads part.
Proof.
  unfold all_pads. split.
  - intros H. apply list_elem_of_In, in_flat_map in H.
    destruct H as (p & Hp & Hin). apply in_map_iff in Hin.
    destruct Hin as (pd & Heq & Hpd). injection Heq as -> ->.
    split; now apply list_elem_of_In.
  - intros [Hp Hpd]. apply list_elem_of_In, in_flat_map.
    exists part. split; [now apply list_elem_of_In |].
    apply in_map_iff. exists pad. split; [reflexivity |].
    now apply list_elem_of_In.
Qed.


(** C4.  [SolderDispense] collects the pairs of a part and one of its pads
    over all parts of the board, has the collection reordered, and calls
    [Dispense] once for each pair of the result, in its order.  The
    reordering keeps the pairs as a multiset: each pair comes out as often
    as it went in, unchanged, and so as many as went in, whatever their
    number. *)
Theorem SolderDispense_dispenses_each_pad_once (board : Board) (log : list call) :
  (forall part pad,
     (part, pad) ∈ all_pads board <-> part ∈ parts board /\ pad ∈ pads part) /\
  Permutation (all_pads board) (OptimizeParts (all_pads board)) /\
  length (OptimizeParts (all_pads board)) = length (all_pads board) /\
  SolderDispense board log
    = log ++ map (fun p => CallDispense (fst p) (snd p))
                 (OptimizeParts (all_pads board)) /\
  exists dispensed,
    SolderDispense board log
      = log ++ map (fun p => CallDispense (fst p) (snd p)) dispensed /\
    Permutation (all_pads board) dispensed.
Proof.
  split; [intros part pad; apply all_pads_elem |].
  split; [apply OptimizeParts_Permutation |].
  split; [symmetry; apply Permutation_length, OptimizeParts_Permutation |].
  split; [apply Dispense_loop_Recorder |].
  exists (OptimizeParts (all_pads board)).
  split; [apply Dispense_loop_Recorder | apply OptimizeParts_Permutation].
Qed.

(** Boards with no pad, and with the four pads of [R1] and [C1]. *)
Example SolderDispense_empty_board :
  SolderDispense (mkBoard []) ([] : list call) = [].
Proof. reflexivity. Qed.

Example SolderDispense_two_part_board :
  Permutation (all_pads two_part_board)
              (OptimizeParts (all_pads two_part_board)) /\
  length (SolderDispense two_part_board ([] : list call)) = 4.
Proof.
  split; [apply OptimizeParts_Permutation | vm_compute; reflexivity].
Qed.

(* ===================================================================== *)
(** * The scenario of the spec, end to end *)
(* ===================================================================== *)

Local Open Scope nat_scope.

(** One tape at (0, 0, 2) with spacing (4, 0) and two components, three
    parts that take from it: the second pick is at (4, 0, 2), the tape is
    exhausted after the second advance, and the third part is still
    picked and placed. *)
Example three_parts_on_a_tape_of_two :
  exists t1 t2 t3,
    pnp_calls (Some one_tape_config) two_left [part_C1; part_C2; part_C3]
      = [CallPickPart part_C1 (Some (0, t1)); CallPlacePart part_C1 (Some (0, t1));
         CallPickPart part_C2 (Some (0, t2)); CallPlacePart part_C2 (Some (0, t2));
         CallPickPart part_C3 (Some (0, t3)); CallPlacePart part_C3 (Some (0, t3))] /\
    GetPos t1 F32.zero F32.zero = (true, (F32.of_int 0, F32.of_int 0)) /\
    GetPos t2 F32.zero F32.zero = (true, (F32.of_int 4, F32.of_int 0)) /\
    height t2 = F32.of_int 2 /\
    fst (GetPos t3 F32.zero F32.zero) = false /\
    fst (Advance t3) = false /\
    pnp_heap_after (Some one_tape_config) two_left [part_C1; part_C2; part_C3]
      = [t3].
Proof.
  eexists _, _, _. split; [vm_compute; reflexivity |].
  repeat split; vm_compute; reflexivity.
Qed.

(** The part on the tape at height 5 and the two parts on the tape at
    height 2: the two come first, by name, whatever the board order. *)
Example low_parts_first_by_name :
  GetHeight two_tape_config two_tapes part_C3_tall = F32.of_int 5 /\
  GetHeight two_tape_config two_tapes part_C1 = F32.of_int 2 /\
  GetHeight two_tape_config two_tapes part_C2 = F32.of_int 2 /\
  forall list_,
    visit_order (Some two_tape_config) two_tapes tall_first_board list_ ->
    list_ = [part_C1; part_C2; part_C3_tall].
Proof.
  split; [vm_compute; reflexivity |]. split; [vm_compute; reflexivity |].
  split; [vm_compute; reflexivity |]. intros list_ Hvo.
  apply (sorted_order_unique two_tape_config two_tapes
           (parts tall_first_board)); try assumption.
  - addresses_differ.
  - cbn. repeat (constructor; [vm_compute; reflexivity |]). constructor.
  - intros a b Ha Hb Hname. cbn in Ha, Hb. by_cases_in_list;
      first [reflexivity | discriminate Hname].
  - split.
    + cbn. etransitivity; [apply perm_swap |]. apply perm_skip, perm_swap.
    + sorted_by_computation.
Qed.

(** On a full reel at (0, 0, 2) with its components 4 mm apart no step
    rounds: the pickup positions are exactly 0, 4, 8, ... *)
Example whole_millimetres_are_exact :
  pickup_xs 1000 full_reel
    = map (fun k => F32.of_int (4 * Z.of_nat k)) (seq 0 1000).
Proof. vm_compute. reflexivity. Qed.

(* ===================================================================== *)
(** * Integers as floats *)
(* ===================================================================== *)

Local Open Scope Z_scope.

(** ** An integer that is not 0 converts to a float that is not 0 *)








Section NotZero.
Context (prec emax : Z) (Hprec : 0 < prec).





End NotZero.


Local Open Scope nat_scope.

(* ===================================================================== *)
(** * More on the tape and on PickNPlace *)
(* ===================================================================== *)

Lemma Advance_n_app (a b : nat) : forall t : Tape,
  Advance_n (a + b) t =
    (fst (Advance_n a t) ++ fst (Advance_n b (snd (Advance_n a t))),
     snd (Advance_n b (snd (Advance_n a t)))).
Proof.
  induction a as [|a IH]; intros t; simpl.
  - destruct (Advance_n b t); reflexivity.
  - destruct (Advance t) as [b0 t']. rewrite IH.
    destruct (Advance_n a t') as [bs t'']. reflexivity.
Qed.

(** X1.  [m] calls of [Advance] on a tape that holds [n] components (none
    when the count is 0 or negative) succeed [min m n] times and then fail
    for good: the position has moved by that many spacings, the count has
    gone down by that many, and nothing else has changed. *)
Theorem Advance_n_beyond_supply (t : Tape) (m : nat) :
  int_range (count_ t) ->
  let n := Z.to_nat (count_ t) in
  Advance_n m t =
    (repeat true (m `min` n) ++ repeat false (m - n),
     mkTape (add_n (m `min` n) (dx_ t) (x_ t)) (add_n (m `min` n) (dy_ t) (y_ t))
            (z_ t) (dx_ t) (dy_ t) (angle_ t) (slant_angle_ t)
            (count_ t - Z.of_nat (m `min` n))).
Proof.
  intros Hr n.
  destruct (Z_le_gt_dec (count_ t) 0) as [Hc | Hc].
  - assert (n = 0) as -> by (unfold n; lia).
    rewrite Nat.min_0_r, Nat.sub_0_r, (Advance_n_exhausted m t Hc). simpl.
    rewrite Z.sub_0_r. destruct t; reflexivity.
  - assert (Hn : count_ t = Z.of_nat n) by (unfold n; lia).
    destruct (le_gt_dec m n) as [Hm | Hm].
    + rewrite (Advance_n_supplied m t n Hn Hr Hm).
      replace (m `min` n) with m by lia. replace (m - n) with 0 by lia.
      simpl. rewrite app_nil_r. do 2 f_equal. lia.
    + replace m with (n + (m - n)) at 1 by lia.
      rewrite Advance_n_app, (Advance_n_supplied n t n Hn Hr (le_n n)). simpl.
      rewrite Advance_n_exhausted by (simpl; lia). simpl.
      replace (m `min` n) with n by lia. do 2 f_equal. lia.
Qed.

Lemma Advance_n_beyond_supply_witness :
  int_range (count_ last_one) /\
  Advance_n 3 last_one
    = ([true; false; false],
       mkTape (F32.of_int 4) F32.zero (F32.of_int 2) (F32.of_int 4) F32.zero
              F32.zero (SlantAtan2 F32.zero (F32.of_int 4)) 0).
Proof.
  assert (Hr : int_range (count_ last_one)) by (vm_compute; split; discriminate).
  split; [exact Hr |].
  rewrite (Advance_n_beyond_supply last_one 3 Hr). vm_compute. reflexivity.
Defined.

Lemma snd_Advance_n_S (k : nat) (t : Tape) :
  snd (Advance_n (S k) t) = snd (Advance_n k (snd (Advance t))).
Proof.
  simpl. destruct (Advance t) as [b t']. simpl.
  destruct (Advance_n k t'). reflexivity.
Qed.

Lemma draws_cons (config : option PnPConfig) (t : nat) (part : Part)
    (rest : list Part) :
  draws config t (part :: rest)
  = (if decide (tape_of config part = Some t) then 1 else 0) + draws config t rest.
Proof.
  unfold draws. rewrite filter_cons.
  destruct (decide (tape_of config part = Some t)); reflexivity.
Qed.

Lemma pnp_heap_after_lookup (config : option PnPConfig) (list_ : list Part) :
  forall (h : heap) (t : nat),
    pnp_heap_after config h list_ !! t
    = (fun tp => snd (Advance_n (draws config t list_) tp)) <$> (h !! t).
Proof.
  induction list_ as [|part rest IH]; intros h t.
  - simpl. destruct (h !! t); reflexivity.
  - simpl. rewrite IH, draws_cons.
    destruct (tape_of config part) as [t0|] eqn:Ht0.
    + unfold advance_tape. destruct (decide (t0 = t)) as [-> | Hne].
      * rewrite list_lookup_alter_eq.
        destruct (h !! t) as [tp|]; simpl; [| reflexivity].
        rewrite decide_True by reflexivity.
        change (1 + draws config t rest) with (S (draws config t rest)).
        rewrite snd_Advance_n_S. reflexivity.
      * rewrite list_lookup_alter_ne by exact Hne.
        destruct (h !! t) as [tp|]; simpl; [| reflexivity].
        rewrite decide_False by congruence. reflexivity.
    + destruct (h !! t) as [tp|]; simpl; [| reflexivity].
      reflexivity.
Qed.

Lemma pnp_heap_after_length (config : option PnPConfig) (list_ : list Part) :
  forall h : heap, length (pnp_heap_after config h list_) = length h.
Proof.
  induction list_ as [|part rest IH]; intros h; simpl; [reflexivity |].
  rewrite IH. destruct (tape_of config part); [| reflexivity].
  unfold advance_tape. apply length_alter.
Qed.

(** X2.  [PickNPlace] keeps the number of tapes and advances each tape
    once for every part of the board that is bound to it, through
    whichever key; the part at place [i] of the visit order is picked and
    placed with its tape as the parts before it have left it. *)
Theorem PickNPlace_draws_from_tapes
    (config : option PnPConfig) (board : Board)
    (st st' : pnp_state (list call)) :
  PickNPlace config board st st' ->
  exists list_,
    visit_order config (pnp_heap st) board list_ /\
    length (pnp_heap st') = length (pnp_heap st) /\
    (forall t,
       pnp_heap st' !! t
       = (fun tp => snd (Advance_n (draws config t list_) tp))
           <$> (pnp_heap st !! t)) /\
    (forall t, draws config t list_ = draws config t (parts board)) /\
    (forall i part t tp,
       list_ !! i = Some part ->
       tape_of config part = Some t ->
       pnp_heap st !! t = Some tp ->
       let tp_i := snd (Advance_n (draws config t (take i list_)) tp) in
       pnp_machine st' !! (length (pnp_machine st) + 2 * i)
         = Some (CallPickPart part (Some (t, tp_i))) /\
       pnp_machine st' !! (length (pnp_machine st) + 2 * i + 1)
         = Some (CallPlacePart part (Some (t, tp_i)))).
Proof.
  intros [list_ [Hvisit ->]]. exists list_.
  rewrite PickNPlace_loop_Recorder. simpl.
  split; [exact Hvisit |].
  split; [apply pnp_heap_after_length |].
  split; [intros t; apply pnp_heap_after_lookup |].
  split.
  - intros t. unfold draws. apply Permutation_length.
    apply filter_Permutation. symmetry.
    apply (visit_order_Permutation config (pnp_heap st)). exact Hvisit.
  - intros i part t tp Hi Ht Htp.
    destruct (pnp_calls_lookup config list_ (pnp_heap st) i part Hi) as [H1 H2].
    rewrite Ht in H1, H2. simpl in H1, H2.
    assert (Hlk : pnp_heap_after config (pnp_heap st) (take i list_) !!! t
                  = snd (Advance_n (draws config t (take i list_)) tp)).
    { apply list_lookup_total_correct.
      rewrite pnp_heap_after_lookup, Htp. reflexivity. }
    rewrite Hlk in H1, H2.
    rewrite !lookup_app_r by lia.
    split; [rewrite <- H1 | rewrite <- H2]; f_equal; lia.
Qed.

Lemma PickNPlace_draws_from_tapes_witness :
  exists st',
    PickNPlace (Some one_tape_config) three_caps_board (pnp_start two_left) st' /\
    exists list_,
      visit_order (Some one_tape_config) two_left three_caps_board list_ /\
      draws (Some one_tape_config) 0 list_ = 3 /\
      pnp_heap st' !! 0
      = (fun tp => snd (Advance_n 3 tp)) <$> (two_left !! 0).
Proof.
  assert (Hrun : PickNPlace (Some one_tape_config) three_caps_board
                   (pnp_start two_left)
                   (PickNPlace_loop (Some one_tape_config)
                      [part_C1; part_C2; part_C3] (pnp_start two_left))).
  { exists [part_C1; part_C2; part_C3]. split; [| reflexivity].
    split.
    - apply (Permutation_cons_app [part_C1; part_C2] []). reflexivity.
    - sorted_by_computation. }
  eexists. split; [exact Hrun |].
  destruct (PickNPlace_draws_from_tapes _ _ _ _ Hrun)
    as [list_ [Hv [_ [Hh [Hd _]]]]].
  exists list_. split; [exact Hv |].
  assert (H3 : draws (Some one_tape_config) 0 list_ = 3)
    by (rewrite Hd; vm_compute; reflexivity).
  split; [exact H3 |].
  rewrite <- H3. apply Hh.
Defined.

(** X3.  Without a configuration [PickNPlace] handles the parts in board
    order, passes a null tape to every call, moves no tape and prints
    nothing. *)
Theorem PickNPlace_without_config (board : Board)
    (st st' : pnp_state (list call)) :
  PickNPlace None board st st' ->
  st' = mkPnpState (pnp_heap st) (pnp_stderr st)
          (pnp_machine st ++
           flat_map (fun part => [CallPickPart part None; CallPlacePart part None])
                    (parts board)).
Proof.
  intros [list_ [Hvisit ->]]. simpl in Hvisit. subst list_.
  rewrite PickNPlace_loop_Recorder. simpl. rewrite app_nil_r.
  f_equal.
  - generalize (pnp_heap st). induction (parts board) as [|p l IH]; intros h;
      simpl; [reflexivity | apply IH].
  - f_equal. generalize (pnp_heap st).
    induction (parts board) as [|p l IH]; intros h; simpl; [reflexivity |].
    rewrite IH. reflexivity.
Qed.

Lemma PickNPlace_without_config_witness :
  exists st',
    PickNPlace None two_part_board (pnp_start two_left) st' /\
    st' = mkPnpState two_left []
            [CallPickPart part_R1 None; CallPlacePart part_R1 None;
             CallPickPart part_C1 None; CallPlacePart part_C1 None].
Proof.
  assert (Hrun : PickNPlace None two_part_board (pnp_start two_left)
                   (PickNPlace_loop None (parts two_part_board)
                      (pnp_start two_left))).
  { exists (parts two_part_board). split; reflexivity. }
  eexists. split; [exact Hrun |].
  rewrite (PickNPlace_without_config _ _ _ Hrun). reflexivity.
Defined.


(** ** The comparator as an order *)

Lemma height_name_before_trans (c : PnPConfig) (h : heap) (p1 p2 p3 : Part) :
  F32.is_nan (GetHeight c h p1) = false ->
  F32.is_nan (GetHeight c h p2) = false ->
  F32.is_nan (GetHeight c h p3) = false ->
  height_name_before c h p1 p2 = true ->
  height_name_before c h p2 p3 = true ->
  height_name_before c h p1 p3 = true.
Proof.
  intros N1 N2 N3 H12 H23.
  destruct (height_name_before c h p1 p3) eqn:H13; [reflexivity |].
  pose proof (height_name_before_asym c h p2 p3 H23) as H32.
  pose proof (height_name_not_after_trans c h p2 p3 p1 N2 N3 N1 H32 H13) as H.
  congruence.
Qed.

(** X6.  On parts that are told apart by their addresses and whose
    heights are numbers, [ComponentHeightComparator] is the order
    [std::sort] asks for: irreflexive, asymmetric, transitive, and with
    "neither before the other" transitive as well. *)
Theorem ComponentHeightComparator_strict_weak_order
    (c : PnPConfig) (h : heap) (l : list Part) :
  addr_identifies l ->
  Forall (fun p => F32.is_nan (GetHeight c h p) = false) l ->
  let comp := ComponentHeightComparator c h in
  (forall a, comp a a = false) /\
  (forall a b, a ∈ l -> b ∈ l -> comp a b = true -> comp b a = false) /\
  (forall a b d, a ∈ l -> b ∈ l -> d ∈ l ->
     comp a b = true -> comp b d = true -> comp a d = true) /\
  (forall a b d, a ∈ l -> b ∈ l -> d ∈ l ->
     comp a b = false -> comp b a = false ->
     comp b d = false -> comp d b = false ->
     comp a d = false /\ comp d a = false).
Proof.
  intros Haddr Hnan comp.
  assert (Hkey : forall a b, a ∈ l -> b ∈ l ->
            comp a b = height_name_before c h a b).
  { intros a b Ha Hb. apply ComponentHeightComparator_by_key.
    intros Heq. apply Haddr; assumption. }
  assert (Hn : forall a, a ∈ l -> F32.is_nan (GetHeight c h a) = false).
  { intros a Ha. rewrite Forall_forall in Hnan. apply Hnan, Ha. }
  split; [| split; [| split]].
  - intros a. unfold comp, ComponentHeightComparator.
    rewrite Nat.eqb_refl. reflexivity.
  - intros a b Ha Hb. rewrite !Hkey by assumption.
    apply height_name_before_asym.
  - intros a b d Ha Hb Hd. rewrite !Hkey by assumption.
    apply height_name_before_trans; auto.
  - intros a b d Ha Hb Hd. rewrite !Hkey by assumption.
    intros Hab Hba Hbd Hdb. split.
    + apply (height_name_not_after_trans c h d b a); auto.
    + apply (height_name_not_after_trans c h a b d); auto.
Qed.

Lemma ComponentHeightComparator_strict_weak_order_witness :
  addr_identifies (parts three_caps_board) /\
  Forall (fun p => F32.is_nan (GetHeight one_tape_config two_left p) = false)
         (parts three_caps_board) /\
  ComponentHeightComparator one_tape_config two_left part_C1 part_C3 = true.
Proof.
  assert (Hid : addr_identifies (parts three_caps_board)) by addresses_differ.
  assert (Hnum : Forall (fun p => F32.is_nan (GetHeight one_tape_config two_left p)
                                  = false) (parts three_caps_board))
    by (repeat constructor).
  destruct (ComponentHeightComparator_strict_weak_order
              one_tape_config two_left (parts three_caps_board) Hid Hnum)
    as (_ & _ & Htrans & _).
  refine (conj Hid (conj Hnum (Htrans part_C1 part_C2 part_C3 _ _ _ _ _)));
    first [reflexivity | cbn; rewrite !elem_of_cons; tauto].
Defined.

(** X7.  A tape whose height reads [nan] breaks that order: its part is
    neither before nor after any other part, also between two parts of
    which one is before the other. *)
Theorem ComponentHeightComparator_nan_height
    (c : PnPConfig) (h : heap) (a b d : Part) :
  part_addr a <> part_addr b ->
  part_addr b <> part_addr d ->
  part_addr a <> part_addr d ->
  F32.is_nan (GetHeight c h b) = true ->
  F32.ltb (GetHeight c h a) (GetHeight c h d) = true ->
  let comp := ComponentHeightComparator c h in
  (comp a b = false /\ comp b a = false) /\
  (comp b d = false /\ comp d b = false) /\
  comp a d = true.
Proof.
  intros Hab Hbd Had Hnan Hlt comp.
  unfold comp, ComponentHeightComparator.
  rewrite <- Nat.eqb_neq in Hab, Hbd, Had.
  assert (Hba : Nat.eqb (part_addr b) (part_addr a) = false)
    by (rewrite Nat.eqb_sym; exact Hab).
  assert (Hdb : Nat.eqb (part_addr d) (part_addr b) = false)
    by (rewrite Nat.eqb_sym; exact Hbd).
  rewrite Hab, Hbd, Had, Hba, Hdb.
  destruct (GetHeight c h b) eqn:Hb; try discriminate Hnan.
  assert (Hx : forall x, F32.eqb x S754_nan = false /\ F32.ltb x S754_nan = false
                         /\ F32.eqb S754_nan x = false /\ F32.ltb S754_nan x = false).
  { intros x. destruct x as [[]|[]| |[] ? ?]; repeat split; reflexivity. }
  destruct (Hx (GetHeight c h a)) as (Ea1 & Ea2 & Ea3 & Ea4).
  destruct (Hx (GetHeight c h d)) as (Ed1 & Ed2 & Ed3 & Ed4).
  rewrite Ea1, Ea2, Ea3, Ea4, Ed1, Ed2, Ed3, Ed4.
  assert (Hne : F32.eqb (GetHeight c h a) (GetHeight c h d) = false).
  { destruct (F32.eqb (GetHeight c h a) (GetHeight c h d)) eqn:E; [| reflexivity].
    apply eqb_not_ltb in E. congruence. }
  rewrite Hne, Hlt. repeat split; reflexivity.
Qed.

Lemma ComponentHeightComparator_nan_height_witness :
  F32.is_nan (GetHeight two_tape_config nan_tapes part_C3_tall) = true /\
  F32.ltb (GetHeight two_tape_config nan_tapes part_R1)
          (GetHeight two_tape_config nan_tapes part_C1) = true /\
  ComponentHeightComparator two_tape_config nan_tapes part_R1 part_C3_tall = false /\
  ComponentHeightComparator two_tape_config nan_tapes part_C3_tall part_C1 = false /\
  ComponentHeightComparator two_tape_config nan_tapes part_R1 part_C1 = true.
Proof.
  assert (Hnan : F32.is_nan (GetHeight two_tape_config nan_tapes part_C3_tall) = true)
    by (vm_compute; reflexivity).
  assert (Hlt : F32.ltb (GetHeight two_tape_config nan_tapes part_R1)
                        (GetHeight two_tape_config nan_tapes part_C1) = true)
    by (vm_compute; reflexivity).
  destruct (ComponentHeightComparator_nan_height
              two_tape_config nan_tapes part_R1 part_C3_tall part_C1
              ltac:(discriminate) ltac:(discriminate) ltac:(discriminate)
              Hnan Hlt)
    as ((H1 & _) & (H2 & _) & H3).
  exact (conj Hnan (conj Hlt (conj H1 (conj H2 H3)))).
Defined.

(** ** The key of a part *)

Lemma append_at_inj (f1 : string) : forall (f2 v1 v2 : string),
  has_at f1 = false -> has_at f2 = false ->
  f1 +:+ "@" +:+ v1 = f2 +:+ "@" +:+ v2 -> f1 = f2 /\ v1 = v2.
Proof.
  induction f1 as [|a f1 IH]; intros [|b f2] v1 v2 H1 H2 Heq; cbn in *.
  - injection Heq as Heq. split; [reflexivity | exact Heq].
  - injection Heq as <- _. discriminate H2.
  - injection Heq as -> _. discriminate H1.
  - injection Heq as -> Heq.
    apply orb_false_iff in H1 as [_ H1]. apply orb_false_iff in H2 as [_ H2].
    destruct (IH f2 v1 v2 H1 H2 Heq) as [-> ->]. split; reflexivity.
Qed.

Lemma append_assoc (s1 s2 s3 : string) :
  (s1 +:+ s2) +:+ s3 = s1 +:+ (s2 +:+ s3).
Proof.
  induction s1 as [|a s1 IH]; [reflexivity |].
  change (String a ((s1 +:+ s2) +:+ s3) = String a (s1 +:+ (s2 +:+ s3))).
  now rewrite IH.
Qed.

(** X8.  For footprints without an [@], two parts have the same key
    exactly when they agree in footprint and value. *)
Theorem component_key_injective (a b : Part) :
  has_at (footprint a) = false -> has_at (footprint b) = false ->
  (component_key a = component_key b <->
   footprint a = footprint b /\ value a = value b).
Proof.
  intros Ha Hb. split.
  - apply append_at_inj; assumption.
  - unfold component_key. intros [-> ->]. reflexivity.
Qed.

Lemma component_key_injective_witness :
  has_at (footprint part_C1) = false /\ has_at (footprint part_C2) = false /\
  (component_key part_C1 = component_key part_C2 <->
   footprint part_C1 = footprint part_C2 /\ value part_C1 = value part_C2).
Proof.
  refine (conj eq_refl (conj eq_refl _)).
  exact (component_key_injective part_C1 part_C2 eq_refl eq_refl).
Defined.

(** X9.  With an [@] in a footprint the key is ambiguous: footprint
    [f@g] with value [v] and footprint [f] with value [g@v] have one key,
    and so one tape. *)
Theorem component_key_collision (addr1 addr2 : nat) (name1 name2 : string)
    (f g v : string) (p1 p2 : Position) (pads1 pads2 : list Pad) (c : PnPConfig) :
  let a := mkPart addr1 name1 (f +:+ "@" +:+ g) v p1 pads1 in
  let b := mkPart addr2 name2 f (g +:+ "@" +:+ v) p2 pads2 in
  component_key a = component_key b /\
  FindTapeForPart c a = FindTapeForPart c b /\
  footprint a <> footprint b.
Proof.
  intros a b.
  assert (Hk : component_key a = component_key b).
  { unfold component_key, a, b. simpl. now rewrite !append_assoc. }
  split; [exact Hk |]. split.
  - unfold FindTapeForPart. now rewrite Hk.
  - unfold a, b. simpl. clear. induction f as [|x f IH].
    + discriminate.
    + intros H. injection H as H. exact (IH H).
Qed.

(** ** Tapes that hold enough *)

Lemma exhausted_picks_enough (c : PnPConfig) (list_ : list Part) :
  forall h : heap,
    (forall t tp, h !! t = Some tp ->
       int_range (count_ tp) /\
       (Z.of_nat (draws (Some c) t list_) <= count_ tp)%Z) ->
    (forall part t, part ∈ list_ -> FindTapeForPart c part = Some t ->
                    is_Some (h !! t)) ->
    exhausted_picks c h list_ = [].
Proof.
  induction list_ as [|part rest IH]; intros h Hsupply Hbound; [reflexivity |].
  cbn [exhausted_picks].
  assert (Hrest : forall p t, p ∈ rest -> FindTapeForPart c p = Some t ->
                              is_Some (h !! t)).
  { intros p t Hp. apply Hbound, elem_of_cons. now right. }
  destruct (FindTapeForPart c part) as [t|] eqn:Ht.
  - destruct (Hbound part t) as [tp Htp]; [apply elem_of_cons; now left | exact Ht |].
    destruct (Hsupply t tp Htp) as [Hr Hle].
    rewrite draws_cons in Hle. cbn [tape_of] in Hle.
    rewrite decide_True in Hle by exact Ht.
    rewrite (list_lookup_total_correct _ _ _ Htp).
    rewrite (Advance_supplied tp) by (try exact Hr; lia). cbn [fst app].
    apply IH.
    + intros t' tp' Htp'.
      destruct (decide (t = t')) as [<- | Hne].
      * rewrite list_lookup_alter_eq, Htp in Htp'. cbn in Htp'.
        injection Htp' as <-.
        rewrite (Advance_supplied tp) by (try exact Hr; lia). cbn [snd count_].
        unfold int_range, INT_MIN, INT_MAX in *. lia.
      * rewrite list_lookup_alter_ne in Htp' by exact Hne.
        destruct (Hsupply t' tp' Htp') as [Hr' Hle'].
        rewrite draws_cons in Hle'. cbn [tape_of] in Hle'.
        rewrite decide_False in Hle' by congruence.
        split; [exact Hr' | lia].
    + intros p t' Hp Hp'. destruct (Hrest p t' Hp Hp') as [tp' Htp'].
      destruct (decide (t = t')) as [<- | Hne].
      * rewrite list_lookup_alter_eq, Htp'. eauto.
      * rewrite list_lookup_alter_ne by exact Hne. eauto.
  - apply IH; [| exact Hrest].
    intros t tp Htp. destruct (Hsupply t tp Htp) as [Hr Hle].
    rewrite draws_cons in Hle. cbn [tape_of] in Hle.
    rewrite decide_False in Hle by congruence.
    split; [exact Hr | lia].
Qed.

Lemma exhausted_picks_found (c : PnPConfig) (list_ : list Part) :
  forall (h : heap) (i : nat) (part : Part) (t : nat),
    exhausted_picks c h list_ = [] ->
    list_ !! i = Some part ->
    FindTapeForPart c part = Some t ->
    fst (Advance (pnp_heap_after (Some c) h (take i list_) !!! t)) = true.
Proof.
  induction list_ as [|p rest IH]; intros h i part t Hex Hi Ht;
    [discriminate Hi |].
  cbn [exhausted_picks] in Hex.
  destruct i as [|i].
  - injection Hi as ->. rewrite Ht in Hex. cbn [take pnp_heap_after].
    apply app_eq_nil in Hex as [Hex _].
    destruct (fst (Advance (h !!! t))); [reflexivity | discriminate Hex].
  - cbn [take pnp_heap_after tape_of]. cbn [lookup list_lookup] in Hi.
    destruct (FindTapeForPart c p) as [t0|].
    + apply app_eq_nil in Hex as [_ Hex]. apply (IH _ i part t Hex Hi Ht).
    + apply (IH _ i part t Hex Hi Ht).
Qed.

(** X4.  When every tape holds at least as many components as parts of
    the board draw from it, no pick of [PickNPlace] meets a tape that has
    run out: every bound part is picked from a tape whose count is above
    0, where [GetPos] succeeds, and each tape ends with its count lowered
    by the number of parts that drew from it. *)
Theorem PickNPlace_with_enough_supply
    (c : PnPConfig) (board : Board) (st st' : pnp_state (list call)) :
  (forall t tp, pnp_heap st !! t = Some tp ->
     int_range (count_ tp) /\
     (Z.of_nat (draws (Some c) t (parts board)) <= count_ tp)%Z) ->
  (forall part t, part ∈ parts board -> FindTapeForPart c part = Some t ->
                  is_Some (pnp_heap st !! t)) ->
  PickNPlace (Some c) board st st' ->
  exists list_,
    visit_order (Some c) (pnp_heap st) board list_ /\
    st' = PickNPlace_loop (Some c) list_ st /\
    exhausted_picks c (pnp_heap st) list_ = [] /\
    (forall i part t,
       list_ !! i = Some part -> FindTapeForPart c part = Some t ->
       exists tp,
         pnp_machine st' !! (length (pnp_machine st) + 2 * i)
           = Some (CallPickPart part (Some (t, tp))) /\
         (0 < count_ tp)%Z /\
         forall x y, GetPos tp x y = (true, (x_ tp, y_ tp))) /\
    (forall t tp, pnp_heap st !! t = Some tp ->
       exists tp', pnp_heap st' !! t = Some tp' /\
                   count_ tp' = (count_ tp
                                 - Z.of_nat (draws (Some c) t (parts board)))%Z).
Proof.
  intros Hsupply Hbound [list_ [Hvisit ->]]. exists list_.
  pose proof (visit_order_Permutation _ _ _ _ Hvisit) as Hperm.
  assert (Hdraws : forall t, draws (Some c) t list_
                             = draws (Some c) t (parts board)).
  { intros t. unfold draws. apply Permutation_length.
    apply filter_Permutation. symmetry. exact Hperm. }
  assert (Hex : exhausted_picks c (pnp_heap st) list_ = []).
  { apply exhausted_picks_enough.
    - intros t tp Htp. rewrite Hdraws. apply Hsupply, Htp.
    - intros part t Hin. apply Hbound. rewrite Hperm. exact Hin. }
  split; [exact Hvisit |]. split; [reflexivity |]. split; [exact Hex |].
  rewrite PickNPlace_loop_Recorder. cbn [pnp_machine pnp_heap].
  split.
  - intros i part t Hi Ht.
    destruct (pnp_calls_lookup (Some c) list_ (pnp_heap st) i part Hi) as [H1 _].
    cbn [tape_of] in H1. rewrite Ht in H1. cbn [tape_arg] in H1.
    pose proof (exhausted_picks_found c list_ (pnp_heap st) i part t Hex Hi Ht)
      as Hadv.
    eexists. split; [rewrite lookup_app_r by lia; rewrite <- H1; f_equal; lia |].
    unfold Advance in Hadv.
    destruct (count_ _ <=? 0)%Z eqn:Hc; [discriminate Hadv |].
    apply Z.leb_gt in Hc. split; [exact Hc |].
    intros x y. apply GetPos_supplied. exact Hc.
  - intros t tp Htp. rewrite pnp_heap_after_lookup, Htp. cbn [fmap option_fmap option_map].
    eexists. split; [reflexivity |].
    destruct (Hsupply t tp Htp) as [Hr Hle]. rewrite Hdraws.
    set (k := draws (Some c) t (parts board)) in *.
    rewrite (Advance_n_supplied k tp (Z.to_nat (count_ tp))) by (try exact Hr; lia).
    cbn [snd count_]. lia.
Qed.

Lemma PickNPlace_with_enough_supply_witness :
  exists st',
    PickNPlace (Some one_tape_config) two_caps_board (pnp_start two_left) st' /\
    exhausted_picks one_tape_config two_left [part_C1; part_C2] = [] /\
    exists tp', pnp_heap st' !! 0 = Some tp' /\ count_ tp' = 0%Z.
Proof.
  assert (Hrun : PickNPlace (Some one_tape_config) two_caps_board
                   (pnp_start two_left)
                   (PickNPlace_loop (Some one_tape_config)
                      [part_C1; part_C2] (pnp_start two_left))).
  { exists [part_C1; part_C2]. split; [| reflexivity].
    split; [reflexivity | sorted_by_computation]. }
  assert (Hsupply : forall t tp, pnp_heap (pnp_start two_left) !! t = Some tp ->
     int_range (count_ tp) /\
     (Z.of_nat (draws (Some one_tape_config) t (parts two_caps_board))
      <= count_ tp)%Z).
  { intros [|t] tp Htp; [| discriminate Htp].
    injection Htp as <-. vm_compute. split; [split |]; discriminate. }
  assert (Hbound : forall part t, part ∈ parts two_caps_board ->
     FindTapeForPart one_tape_config part = Some t ->
     is_Some (pnp_heap (pnp_start two_left) !! t)).
  { intros part t Hin Ht. cbn in Hin. by_cases_in_list;
      vm_compute in Ht; injection Ht as <-; eexists; reflexivity. }
  destruct (PickNPlace_with_enough_supply _ _ _ _ Hsupply Hbound Hrun)
    as (list_ & _ & _ & _ & _ & Hheap).
  destruct (Hheap 0 _ eq_refl) as [tp' [Htp' Hc]].
  eexists. split; [exact Hrun |]. split; [reflexivity |].
  exists tp'. split; [exact Htp' |]. rewrite Hc. reflexivity.
Defined.

(** ** A configuration without tapes *)

(** X5.  With the configuration of [CreateEmptyConfiguration], which
    binds no tape, [PickNPlace] visits the parts in an order in which no
    part's name is below the name of a part before it, reports every part
    as without tape, passes a null tape to every call and moves no
    tape. *)
Theorem PickNPlace_with_empty_configuration
    (new_config : PnPConfig) (board : Board) (st st' : pnp_state (list call)) :
  tape_for_component new_config = ∅ ->
  addr_identifies (parts board) ->
  PickNPlace (Some (CreateEmptyConfiguration new_config)) board st st' ->
  exists list_,
    Permutation (parts board) list_ /\
    (forall i j a b,
       i < j -> list_ !! i = Some a -> list_ !! j = Some b ->
       String.ltb (component_name b) (component_name a) = false) /\
    pnp_heap st' = pnp_heap st /\
    pnp_stderr st' = pnp_stderr st ++ (no_tape_message <$> list_) /\
    pnp_machine st'
      = pnp_machine st ++
        flat_map (fun part => [CallPickPart part None; CallPlacePart part None])
                 list_.
Proof.
  intros Hempty Hid [list_ [[Hperm Hsorted] ->]]. exists list_.
  set (c := CreateEmptyConfiguration new_config) in *.
  assert (Hnone : forall part, FindTapeForPart c part = None).
  { intros part. unfold FindTapeForPart, c, CreateEmptyConfiguration.
    cbn [set_bed_level set_board_top set_board_origin tape_for_component].
    rewrite Hempty. apply lookup_empty. }
  assert (Hswo : strict_weak_ordering
                   (ComponentHeightComparator c (pnp_heap st)) (parts board)).
  { apply ComponentHeightComparator_swo; [exact Hid |].
    apply Forall_forall. intros p _. unfold GetHeight. rewrite Hnone.
    vm_compute. reflexivity. }
  specialize (Hsorted Hswo).
  split; [exact Hperm |]. split.
  - intros i j a b Hij Hi Hj.
    pose proof (StronglySorted_lookup _ _ Hsorted i j a b Hij Hi Hj) as Hcomp.
    cbv beta in Hcomp. unfold ComponentHeightComparator, GetHeight in Hcomp.
    rewrite !Hnone in Hcomp.
    destruct (Nat.eqb (part_addr b) (part_addr a)) eqn:Haddr.
    + apply Nat.eqb_eq in Haddr.
      assert (Hab : b = a).
      { apply (addr_identifies_Permutation _ _ Hperm Hid);
          [apply list_elem_of_lookup; eauto .. | exact Haddr]. }
      rewrite Hab. apply String_ltb_irrefl.
    + exact Hcomp.
  - rewrite PickNPlace_loop_Recorder. cbn [pnp_heap pnp_stderr pnp_machine].
    assert (Hheap : forall l h, pnp_heap_after (Some c) h l = h).
    { induction l as [|p l IH]; intros h; cbn [pnp_heap_after tape_of];
        [reflexivity |]. rewrite Hnone. apply IH. }
    split; [apply Hheap |]. split.
    + f_equal. unfold pnp_messages. f_equal. clear Hperm Hsorted.
      induction list_ as [|p l IH]; [reflexivity |].
      rewrite filter_cons. rewrite decide_True by apply Hnone.
      f_equal. apply IH.
    + f_equal. clear Hperm Hsorted. generalize (pnp_heap st).
      induction list_ as [|p l IH]; intros h; cbn [pnp_calls flat_map tape_of];
        [reflexivity |].
      rewrite Hnone. cbn [tape_arg app]. do 2 f_equal. apply IH.
Qed.

Lemma PickNPlace_with_empty_configuration_witness :
  tape_for_component fresh_config = ∅ /\
  addr_identifies (parts two_part_board) /\
  exists st',
    PickNPlace (Some (CreateEmptyConfiguration fresh_config)) two_part_board
      (pnp_start []) st' /\
    pnp_heap st' = [] /\
    length (pnp_stderr st') = 2.
Proof.
  assert (Hid : addr_identifies (parts two_part_board)) by addresses_differ.
  assert (Hrun : PickNPlace (Some (CreateEmptyConfiguration fresh_config))
                   two_part_board (pnp_start [])
                   (PickNPlace_loop (Some (CreateEmptyConfiguration fresh_config))
                      [part_C1; part_R1] (pnp_start []))).
  { exists [part_C1; part_R1]. split; [| reflexivity].
    split; [apply perm_swap | sorted_by_computation]. }
  destruct (PickNPlace_with_empty_configuration fresh_config two_part_board
              _ _ eq_refl Hid Hrun) as (list_ & Hperm & _ & Hheap & Herr & _).
  split; [reflexivity |]. split; [exact Hid |].
  eexists. split; [exact Hrun |]. split; [exact Hheap |].
  rewrite Herr. cbn [pnp_stderr pnp_start app]. rewrite length_fmap.
  rewrite <- (Permutation_length Hperm). reflexivity.
Defined.

(* ===================================================================== *)
(** * What a board holds *)
(* ===================================================================== *)

Local Open Scope Z_scope.

Lemma count_sum_insert (c : ComponentCount) (key : string) (n : Z) :
  count_sum (<[key := n]> c) = n + count_sum c - default 0 (c !! key).
Proof.
  unfold count_sum.
  destruct (c !! key) as [v|] eqn:Hk; simpl.
  - rewrite <- insert_delete_eq.
    rewrite map_fold_insert_L
      by first [apply lookup_delete_eq | intros; lia].
    rewrite (map_fold_delete_L _ _ key v c)
      by first [exact Hk | intros; lia].
    lia.
  - rewrite map_fold_insert_L by first [exact Hk | intros; lia]. lia.
Qed.

Lemma kind_count_snoc (key : string) (l : list Part) (x : Part) :
  kind_count key (l ++ [x])
  = (kind_count key l + (if decide (component_key x = key) then 1 else 0))%nat.
Proof.
  unfold kind_count. rewrite filter_app, length_app. f_equal.
  rewrite filter_cons. destruct (decide (component_key x = key)); reflexivity.
Qed.

Lemma kind_count_le (key : string) (l : list Part) :
  (kind_count key l <= length l)%nat.
Proof. unfold kind_count. apply length_filter. Qed.

Lemma ExtractComponents_invariant (list_ : list Part) :
  Z.of_nat (length list_) <= INT_MAX ->
  exists c,
    ExtractComponents list_ ∅ = (Z.of_nat (length list_), c) /\
    (forall key, default 0 (c !! key) = Z.of_nat (kind_count key list_)) /\
    (forall key, c !! key = None <-> kind_count key list_ = 0%nat) /\
    count_sum c = Z.of_nat (length list_).
Proof.
  unfold ExtractComponents.
  induction list_ as [|x l IH] using rev_ind; intros Hlen.
  - exists ∅. split; [reflexivity |]. split; [| split].
    + intros key. rewrite lookup_empty. reflexivity.
    + intros key. rewrite lookup_empty. split; reflexivity.
    + apply map_fold_empty.
  - rewrite length_app in Hlen. simpl in Hlen.
    destruct IH as [c [Hrun [Hcnt [Hnone Hsum]]]]; [lia |].
    assert (Hwrap : forall n : nat, (n <= length l)%nat ->
              int_wrap (Z.of_nat n + 1) = Z.of_nat n + 1).
    { intros n Hn. unfold int_wrap, INT_MAX in *. rewrite Z.mod_small; lia. }
    pose proof (kind_count_le (component_key x) l) as Hle.
    exists (<[component_key x := Z.of_nat (kind_count (component_key x) l) + 1]> c).
    rewrite foldl_snoc, Hrun. simpl.
    rewrite Hcnt, !Hwrap by lia.
    split; [f_equal; rewrite length_app; simpl; lia |].
    split; [| split].
    + intros key. rewrite kind_count_snoc.
      destruct (decide (component_key x = key)) as [<- | Hne].
      * rewrite lookup_insert_eq. simpl. lia.
      * rewrite lookup_insert_ne by exact Hne. rewrite Hcnt. lia.
    + intros key. rewrite kind_count_snoc.
      destruct (decide (component_key x = key)) as [<- | Hne].
      * rewrite lookup_insert_eq. split; [discriminate | lia].
      * rewrite lookup_insert_ne by exact Hne. rewrite Hnone. lia.
    + rewrite count_sum_insert, Hsum, Hcnt, length_app. simpl. lia.
Qed.

Lemma kind_count_zero (key : string) (l : list Part) :
  kind_count key l = 0%nat <-> forall part, part ∈ l -> component_key part <> key.
Proof.
  unfold kind_count. rewrite length_zero_iff_nil. split.
  - intros Hnil part Hin Hkey.
    assert (Hf : part ∈ filter (fun p => component_key p = key) l)
      by (apply list_elem_of_filter; split; assumption).
    rewrite Hnil in Hf. apply elem_of_nil in Hf. exact Hf.
  - intros Hall. induction l as [|x l IH]; [reflexivity |].
    rewrite filter_cons. destruct (decide (component_key x = key)) as [Hk | _].
    + exfalso. apply (Hall x); [apply elem_of_cons; now left | exact Hk].
    + apply IH. intros part Hin. apply Hall, elem_of_cons. now right.
Qed.

(** X10.  [ExtractComponents], started on an empty map, returns the
    number of parts and leaves a map whose keys are the keys of the parts,
    each with the number of parts that have it; the counts add up to the
    total. *)
Theorem ExtractComponents_counts (list_ : list Part) :
  Z.of_nat (length list_) <= INT_MAX ->
  let total_count := fst (ExtractComponents list_ ∅) in
  let c := snd (ExtractComponents list_ ∅) in
  total_count = Z.of_nat (length list_) /\
  (forall part, part ∈ list_ ->
     c !! component_key part
       = Some (Z.of_nat (kind_count (component_key part) list_)) /\
     (1 <= kind_count (component_key part) list_)%nat) /\
  (forall key, c !! key = None <->
               forall part, part ∈ list_ -> component_key part <> key) /\
  count_sum c = total_count.
Proof.
  intros Hlen.
  destruct (ExtractComponents_invariant list_ Hlen)
    as [c [Hrun [Hcnt [Hnone Hsum]]]].
  rewrite Hrun. simpl.
  split; [reflexivity |]. split; [| split].
  - intros part Hin.
    assert (Hpos : kind_count (component_key part) list_ <> 0%nat).
    { rewrite kind_count_zero. intros Hall. exact (Hall part Hin eq_refl). }
    split; [| lia].
    specialize (Hcnt (component_key part)).
    destruct (c !! component_key part) as [n|] eqn:Hn.
    + simpl in Hcnt. now rewrite Hcnt.
    + apply Hnone in Hn. contradiction.
  - intros key. rewrite Hnone. apply kind_count_zero.
  - exact Hsum.
Qed.

Lemma ExtractComponents_counts_witness :
  Z.of_nat (length (parts three_caps_board)) <= INT_MAX /\
  fst (ExtractComponents (parts three_caps_board) ∅) = 3 /\
  snd (ExtractComponents (parts three_caps_board) ∅) !! component_key part_C1
    = Some 3 /\
  count_sum (snd (ExtractComponents (parts three_caps_board) ∅)) = 3.
Proof.
  assert (Hlen : Z.of_nat (length (parts three_caps_board)) <= INT_MAX)
    by (vm_compute; discriminate).
  destruct (ExtractComponents_counts (parts three_caps_board) Hlen)
    as (Htotal & Hpart & _ & Hsum).
  split; [exact Hlen |]. split; [exact Htotal |]. split.
  - apply (Hpart part_C1). cbn. rewrite !elem_of_cons. tauto.
  - rewrite Hsum. exact Htotal.
Defined.

(** ** FindPartClosestTo *)

Lemma ltb_not_ltb_trans (a b d : float) :
  F32.is_nan d = false ->
  F32.ltb a b = true -> F32.ltb d b = false -> F32.ltb a d = true.
Proof.
  intros Nd Hab Hdb.
  pose proof (ltb_nan_l _ _ Hab) as Na. pose proof (ltb_nan_r _ _ Hab) as Nb.
  apply ltb_key; [assumption .. |].
  apply ltb_key in Hab; [| assumption ..].
  destruct (key_lt_total (float_key d) (float_key b)) as [H | [H | H]].
  - apply ltb_key in H; [congruence | assumption ..].
  - now rewrite H.
  - eapply key_lt_trans; eassumption.
Qed.

Lemma FindPartClosestTo_invariant (distance : Position -> Position -> float)
    (pos_ : Position) (list_ : list Part) :
  (forall part, part ∈ list_ ->
     F32.is_nan (distance (pos part) pos_) = false /\
     F32.ltb (distance (pos part) pos_) (F32.of_int 0) = false) ->
  match foldl (fun (st : option Part * float) part =>
                 let dist := distance (pos part) pos_ in
                 if F32.ltb (snd st) (F32.of_int 0) || F32.ltb dist (snd st)
                 then (Some part, dist)
                 else st)
              (None, F32.of_int (-1)) list_ with
  | (None, closest) => list_ = [] /\ closest = F32.of_int (-1)
  | (Some r, closest) =>
      closest = distance (pos r) pos_ /\
      exists l1 l2,
        list_ = l1 ++ r :: l2 /\
        (forall p, p ∈ l1 ->
           F32.ltb (distance (pos r) pos_) (distance (pos p) pos_) = true) /\
        (forall p, p ∈ l2 ->
           F32.ltb (distance (pos p) pos_) (distance (pos r) pos_) = false)
  end.
Proof.
  induction list_ as [|x l IH] using rev_ind; intros Hd.
  - simpl. split; reflexivity.
  - rewrite foldl_snoc.
    assert (Hl : forall part, part ∈ l ->
              F32.is_nan (distance (pos part) pos_) = false /\
              F32.ltb (distance (pos part) pos_) (F32.of_int 0) = false).
    { intros part Hin. apply Hd, elem_of_app. now left. }
    specialize (IH Hl).
    destruct (Hd x) as [Nx Px];
      [apply elem_of_app; right; apply elem_of_cons; now left |].
    destruct (foldl _ (None, F32.of_int (-1)) l) as [[r|] closest].
    + destruct IH as [-> [l1 [l2 [-> [H1 H2]]]]].
      destruct (Hl r) as [Nr Pr];
        [apply elem_of_app; right; apply elem_of_cons; now left |].
      cbv zeta. cbn [snd fst]. rewrite Pr. cbn [orb].
      destruct (F32.ltb (distance (pos x) pos_) (distance (pos r) pos_)) eqn:Hx.
      * split; [reflexivity |].
        exists (l1 ++ r :: l2), []. split; [reflexivity |]. split.
        -- intros p Hp. apply elem_of_app in Hp as [Hp | Hp].
           ++ eapply ltb_trans; [exact Hx | apply H1, Hp].
           ++ apply elem_of_cons in Hp as [-> | Hp]; [exact Hx |].
              apply (ltb_not_ltb_trans _ (distance (pos r) pos_));
                [| exact Hx | apply H2, Hp].
              apply Hl. apply elem_of_app. right. apply elem_of_cons. now right.
        -- intros p Hp. apply elem_of_nil in Hp. destruct Hp.
      * split; [reflexivity |].
        exists l1, (l2 ++ [x]). split; [now rewrite <- app_assoc |]. split.
        -- exact H1.
        -- intros p Hp. apply elem_of_app in Hp as [Hp | Hp]; [apply H2, Hp |].
           apply elem_of_cons in Hp as [-> | Hp]; [exact Hx |].
           apply elem_of_nil in Hp. destruct Hp.
    + destruct IH as [-> ->]. cbv zeta. cbn [snd fst].
      change (F32.ltb (F32.of_int (-1)) (F32.of_int 0)) with true. cbn [orb].
      split; [reflexivity |]. exists [], []. split; [reflexivity |].
      split; intros p Hp; apply elem_of_nil in Hp; destruct Hp.
Qed.

(** X11.  When all distances are numbers that are not below 0,
    [FindPartClosestTo] returns null exactly for the empty list, and else
    the first of the parts that no other part is strictly closer than:
    every part before it is strictly farther, no part after it is
    strictly closer. *)
Theorem FindPartClosestTo_first_nearest
    (distance : Position -> Position -> float)
    (list_ : list Part) (pos_ : Position) :
  (forall part, part ∈ list_ ->
     F32.is_nan (distance (pos part) pos_) = false /\
     F32.ltb (distance (pos part) pos_) (F32.of_int 0) = false) ->
  match FindPartClosestTo distance list_ pos_ with
  | None => list_ = []
  | Some r =>
      exists l1 l2,
        list_ = l1 ++ r :: l2 /\
        (forall p, p ∈ l1 ->
           F32.ltb (distance (pos r) pos_) (distance (pos p) pos_) = true) /\
        (forall p, p ∈ l2 ->
           F32.ltb (distance (pos p) pos_) (distance (pos r) pos_) = false)
  end.
Proof.
  intros Hd. unfold FindPartClosestTo.
  pose proof (FindPartClosestTo_invariant distance pos_ list_ Hd) as H.
  destruct (foldl _ _ list_) as [[r|] closest]; simpl.
  - destruct H as [_ H]. exact H.
  - destruct H as [H _]. exact H.
Qed.

Lemma FindPartClosestTo_first_nearest_witness :
  (forall part, part ∈ parts two_part_board ->
     F32.is_nan (Distance (pos part) fresh_position) = false /\
     F32.ltb (Distance (pos part) fresh_position) (F32.of_int 0) = false) /\
  FindPartClosestTo Distance (parts two_part_board) fresh_position = Some part_R1 /\
  exists l1 l2, parts two_part_board = l1 ++ part_R1 :: l2.
Proof.
  assert (Hd : forall part, part ∈ parts two_part_board ->
     F32.is_nan (Distance (pos part) fresh_position) = false /\
     F32.ltb (Distance (pos part) fresh_position) (F32.of_int 0) = false).
  { intros part Hin. cbn in Hin. by_cases_in_list; split; vm_compute; reflexivity. }
  pose proof (FindPartClosestTo_first_nearest Distance (parts two_part_board)
                fresh_position Hd) as H.
  assert (Hr : FindPartClosestTo Distance (parts two_part_board) fresh_position
               = Some part_R1) by (vm_compute; reflexivity).
  rewrite Hr in H. destruct H as [l1 [l2 [Hl _]]].
  exact (conj Hd (conj Hr (ex_intro _ l1 (ex_intro _ l2 Hl)))).
Defined.

(** ** FindPartPos *)

(** X12.  [FindPartPos] finds the position of the first part with the
    name asked for, and fails exactly when no part has that name. *)
Theorem FindPartPos_first_match (ps : list Part) (part_name : string) :
  match FindPartPos ps part_name with
  | Some p =>
      exists l1 part l2,
        ps = l1 ++ part :: l2 /\
        component_name part = part_name /\ pos part = p /\
        forall q, q ∈ l1 -> component_name q <> part_name
  | None => forall q, q ∈ ps -> component_name q <> part_name
  end.
Proof.
  induction ps as [|part ps IH]; simpl.
  - intros q Hq. apply elem_of_nil in Hq. destruct Hq.
  - destruct (String.eqb (component_name part) part_name) eqn:Heq.
    + apply String.eqb_eq in Heq. exists [], part, ps.
      split; [reflexivity |]. split; [exact Heq |]. split; [reflexivity |].
      intros q Hq. apply elem_of_nil in Hq. destruct Hq.
    + apply String.eqb_neq in Heq.
      destruct (FindPartPos ps part_name) as [p|].
      * destruct IH as [l1 [part' [l2 [-> [Hn [Hp Hl1]]]]]].
        exists (part :: l1), part', l2.
        split; [reflexivity |]. split; [exact Hn |]. split; [exact Hp |].
        intros q Hq. apply elem_of_cons in Hq as [-> | Hq]; [exact Heq |].
        apply Hl1, Hq.
      * intros q Hq. apply elem_of_cons in Hq as [-> | Hq]; [exact Heq |].
        apply IH, Hq.
Qed.

Local Open Scope nat_scope.

(* ===================================================================== *)
(** * More on ParsePnPConfiguration *)
(* ===================================================================== *)

(** ** The binding table of an accepted file *)

Lemma foldl_bind_tape_lookup (names : list string) (t : nat) :
  forall (c : PnPConfig) (key : string),
    tape_for_component (foldl (fun c name => bind_tape name t c) c names) !! key
    = if decide (key ∈ names) then Some t else tape_for_component c !! key.
Proof.
  induction names as [|n names IH]; intros c key.
  - destruct (decide (key ∈ [])) as [Hin | _]; [| reflexivity].
    apply elem_of_nil in Hin. destruct Hin.
  - cbn [foldl]. rewrite IH. cbn [bind_tape tape_for_component].
    destruct (decide (key ∈ names)) as [Hin | Hnin];
      destruct (decide (key ∈ n :: names)) as [Hin' | Hnin'];
      try reflexivity.
    + exfalso. apply Hnin', elem_of_cons. now right.
    + apply elem_of_cons in Hin' as [-> | Hin']; [| contradiction].
      apply lookup_insert_eq.
    + apply lookup_insert_ne. intros ->. apply Hnin', elem_of_cons. now left.
Qed.

Lemma foldl_bind_tape_fields (names : list string) (t : nat) :
  forall c : PnPConfig,
    let c' := foldl (fun c name => bind_tape name t c) c names in
    board_origin c' = board_origin c /\ board_top c' = board_top c /\
    bed_level c' = bed_level c.
Proof.
  induction names as [|n names IH]; intros c; simpl; [auto |].
  destruct (IH (bind_tape n t c)) as (H1 & H2 & H3). simpl in *. auto.
Qed.

(** What one accepted line does to the table and to the number of
    tapes. *)
Lemma parse_line_bindings (s s' : parse_state) (l : config_line) :
  parse_line s l = Some s' ->
  length (ps_heap s') = (length (ps_heap s) + tape_lines [l])%nat /\
  forall key,
    tape_for_component (ps_result s') !! key
    = match last_binding key (length (ps_heap s)) [l] with
      | Some t => Some t
      | None => tape_for_component (ps_result s) !! key
      end.
Proof.
  destruct l; unfold parse_line; lazy beta iota; intros H.
  - injection H as <-. split; [simpl; lia | reflexivity].
  - injection H as <-. split; [simpl; lia | reflexivity].
  - destruct vals as [|x [|y rest]]; try discriminate H.
    injection H as <-. split; [simpl; lia | reflexivity].
  - simpl in H. injection H as <-. simpl. split.
    + rewrite length_alter, length_app. simpl. lia.
    + intros key. rewrite foldl_bind_tape_lookup.
      destruct (decide (key ∈ names)); reflexivity.
  - destruct (ps_current_tape s).
    + destruct vals as [|x [|y [|z [|]]]]; try discriminate H.
      injection H as <-. simpl. rewrite length_alter. split; [lia | reflexivity].
    + destruct vals as [|x [|y rest]]; try discriminate H.
      injection H as <-. simpl. split; [lia |].
      intros key. destruct rest; reflexivity.
  - destruct (ps_current_tape s); [| discriminate H].
    destruct vals as [|x [|y [|]]]; try discriminate H.
    destruct (F32.eqb x (F32.of_int 0) && F32.eqb y (F32.of_int 0));
      [discriminate H |].
    injection H as <-. simpl. rewrite length_alter. split; [lia | reflexivity].
  - destruct (ps_current_tape s); [| discriminate H].
    destruct vals as [|x [|]]; try discriminate H.
    injection H as <-. simpl. rewrite length_alter. split; [lia | reflexivity].
  - destruct (ps_current_tape s); [| discriminate H].
    destruct vals as [|x [|]]; try discriminate H.
    injection H as <-. simpl. rewrite length_alter. split; [lia | reflexivity].
  - discriminate H.
Qed.

Lemma last_binding_range (key : string) (ls : list config_line) :
  forall next t,
    last_binding key next ls = Some t -> next <= t < next + tape_lines ls.
Proof.
  induction ls as [|l ls IH]; intros next t H; [discriminate H |].
  destruct l; simpl in *; try (apply IH in H; lia).
  destruct (last_binding key (S next) ls) as [t'|] eqn:Hl.
  - injection H as <-. apply IH in Hl. lia.
  - destruct (decide (key ∈ names)); [| discriminate H].
    injection H as <-. lia.
Qed.

Lemma parse_lines_bindings (ls : list config_line) :
  forall s s',
    parse_lines s ls = Some s' ->
    length (ps_heap s') = length (ps_heap s) + tape_lines ls /\
    forall key,
      tape_for_component (ps_result s') !! key
      = match last_binding key (length (ps_heap s)) ls with
        | Some t => Some t
        | None => tape_for_component (ps_result s) !! key
        end.
Proof.
  induction ls as [|l ls IH]; intros s s' H.
  - injection H as <-. split; [simpl; lia | reflexivity].
  - simpl in H. destruct (parse_line s l) as [s1|] eqn:Hl; [| discriminate H].
    destruct (parse_line_bindings _ _ _ Hl) as [Hlen1 Hmap1].
    destruct (IH _ _ H) as [Hlen Hmap].
    split.
    + rewrite Hlen, Hlen1. destruct l; simpl; lia.
    + intros key. rewrite Hmap, Hmap1, Hlen1.
      destruct l; simpl; rewrite ?Nat.add_0_r;
        try (destruct (last_binding key (length (ps_heap s)) ls); reflexivity).
      replace (length (ps_heap s) + 1) with (S (length (ps_heap s))) by lia.
      destruct (last_binding key (S (length (ps_heap s))) ls); reflexivity.
Qed.

Lemma last_binding_app (key : string) (ls1 ls2 : list config_line) :
  forall next,
    last_binding key next (ls1 ++ ls2)
    = match last_binding key (next + tape_lines ls1) ls2 with
      | Some t => Some t
      | None => last_binding key next ls1
      end.
Proof.
  induction ls1 as [|l ls1 IH]; intros next.
  - simpl. rewrite Nat.add_0_r. destruct (last_binding key next ls2); reflexivity.
  - destruct l; simpl; rewrite ?IH; try reflexivity.
    replace (S next + tape_lines ls1) with (next + S (tape_lines ls1)) by lia.
    destruct (last_binding key (next + S (tape_lines ls1)) ls2); reflexivity.
Qed.

Lemma last_binding_None (key : string) (ls : list config_line) :
  (forall names, CL_Tape names ∈ ls -> key ∉ names) ->
  forall next, last_binding key next ls = None.
Proof.
  induction ls as [|l ls IH]; intros Hno next; [reflexivity |].
  assert (Hrest : forall names, CL_Tape names ∈ ls -> key ∉ names).
  { intros names Hin. apply Hno, elem_of_cons. now right. }
  destruct l; simpl; try (apply IH; exact Hrest).
  rewrite (IH Hrest). rewrite decide_False; [reflexivity |].
  apply Hno, elem_of_cons. now left.
Qed.

(** X13.  An accepted configuration has one tape for each [Tape:] line,
    numbered in the order of the lines; every key is bound to the tape of
    the last [Tape:] line that names it, so that the keys of one line
    share one tape; and every binding points to a tape that exists. *)
Theorem ParsePnPConfiguration_binding_table
    (new_config : PnPConfig) (new_position : Position)
    (ls : list config_line) (e : stream_end) (c : PnPConfig) (h : heap) :
  tape_for_component new_config = ∅ ->
  ParsePnPConfiguration new_config new_position ls e = Returns (Some (c, h)) ->
  length h = tape_lines ls /\
  (forall key, tape_for_component c !! key = last_binding key 0 ls) /\
  (forall key t, tape_for_component c !! key = Some t -> is_Some (h !! t)) /\
  (forall ls1 names ls2 key,
     ls = ls1 ++ CL_Tape names :: ls2 ->
     key ∈ names ->
     (forall names', CL_Tape names' ∈ ls2 -> key ∉ names') ->
     tape_for_component c !! key = Some (tape_lines ls1)).
Proof.
  intros Hempty Hparse. unfold ParsePnPConfiguration in Hparse.
  destruct (parse_lines _ ls) as [s|] eqn:Hls; [| discriminate Hparse].
  destruct e; [| discriminate Hparse].
  injection Hparse as <- <-.
  destruct (parse_lines_bindings _ _ _ Hls) as [Hlen Hmap]. simpl in Hlen, Hmap.
  assert (Hkey : forall key,
            tape_for_component (ps_result s) !! key = last_binding key 0 ls).
  { intros key. rewrite Hmap, Hempty, lookup_empty.
    destruct (last_binding key 0 ls); reflexivity. }
  split; [exact Hlen |]. split; [exact Hkey |]. split.
  - intros key t Ht. simpl in Ht. rewrite Hkey in Ht.
    apply last_binding_range in Ht. apply lookup_lt_is_Some. lia.
  - intros ls1 names ls2 key -> Hin Hlater. simpl. rewrite Hkey.
    rewrite last_binding_app. simpl.
    rewrite (last_binding_None key ls2 Hlater).
    rewrite decide_True by exact Hin. reflexivity.
Qed.

Lemma ParsePnPConfiguration_binding_table_witness :
  tape_for_component fresh_config = ∅ /\
  exists c h,
    ParsePnPConfiguration fresh_config fresh_position moving_tape_file EndOfFile
      = Returns (Some (c, h)) /\
    length h = 1 /\
    tape_for_component c !! "smd0805@100n" = Some 0.
Proof.
  split; [reflexivity |].
  destruct (ParsePnPConfiguration fresh_config fresh_position moving_tape_file
              EndOfFile)
    as [[[c h]|]|] eqn:Hp; try (vm_compute in Hp; discriminate Hp).
  destruct (ParsePnPConfiguration_binding_table
              fresh_config fresh_position moving_tape_file EndOfFile c h
              eq_refl Hp)
    as (Hlen & Hkey & _ & _).
  exists c, h. split; [reflexivity |]. split; [exact Hlen |].
  rewrite Hkey. reflexivity.
Defined.

(** ** Sections do not reach into each other *)

Lemma parse_lines_app (ls1 ls2 : list config_line) :
  forall s,
    parse_lines s (ls1 ++ ls2)
    = match parse_lines s ls1 with
      | Some s1 => parse_lines s1 ls2
      | None => None
      end.
Proof.
  induction ls1 as [|l ls1 IH]; intros s; simpl; [reflexivity |].
  destruct (parse_line s l); [apply IH | reflexivity].
Qed.

Lemma parse_line_frame (s s' : parse_state) (l : config_line) :
  parse_line s l = Some s' ->
  current_is_last s ->
  current_is_last s' /\
  length (ps_heap s) <= length (ps_heap s') /\
  (forall t, t < length (ps_heap s) -> ps_current_tape s' = Some t ->
             ps_current_tape s = Some t /\ opens_section l = false) /\
  forall t, t < length (ps_heap s) ->
            ps_current_tape s <> Some t \/ opens_section l = true ->
            ps_heap s' !! t = ps_heap s !! t.
Proof.
  intros H Hinv.
  assert (Hset : forall (f : Tape -> Tape) t0,
            ps_current_tape s = Some t0 ->
            opens_section l = false ->
            let s1 := ps_with_heap (alter f t0 (ps_heap s)) s in
            current_is_last s1 /\
            length (ps_heap s) <= length (ps_heap s1) /\
            (forall t, t < length (ps_heap s) -> ps_current_tape s1 = Some t ->
                       ps_current_tape s = Some t /\ opens_section l = false) /\
            forall t, t < length (ps_heap s) ->
                      ps_current_tape s <> Some t \/ opens_section l = true ->
                      ps_heap s1 !! t = ps_heap s !! t).
  { intros f t0 Hcur Hno s1. unfold s1, current_is_last. simpl.
    rewrite length_alter.
    split; [exact Hinv |]. split; [lia |]. split; [auto |].
    intros t Ht [Hne | Hf]; [| congruence].
    apply list_lookup_alter_ne. congruence. }
  destruct l; unfold parse_line in H; lazy beta iota in H.
  - injection H as <-. repeat split; auto.
  - injection H as <-. unfold current_is_last. simpl.
    repeat split; auto; discriminate.
  - destruct vals as [|x [|y rest]]; try discriminate H.
    injection H as <-. unfold current_is_last. simpl.
    repeat split; auto; discriminate.
  - simpl in H. injection H as <-. unfold current_is_last. simpl.
    rewrite length_alter, length_app. simpl.
    split; [intros t Ht; injection Ht as <-; lia |].
    split; [lia |]. split.
    + intros t Ht Heq. injection Heq as <-. lia.
    + intros t Ht _. rewrite list_lookup_alter_ne by lia.
      apply lookup_app_l. exact Ht.
  - destruct (ps_current_tape s) as [t0|] eqn:Hcur.
    + destruct vals as [|x [|y [|z [|]]]]; try discriminate H.
      injection H as <-. apply Hset; reflexivity.
    + destruct vals as [|x [|y rest]]; try discriminate H.
      injection H as <-. unfold current_is_last. simpl. rewrite Hcur.
      repeat split; auto; discriminate.
  - destruct (ps_current_tape s) as [t0|] eqn:Hcur; [| discriminate H].
    destruct vals as [|x [|y [|]]]; try discriminate H.
    destruct (F32.eqb x (F32.of_int 0) && F32.eqb y (F32.of_int 0));
      [discriminate H |].
    injection H as <-. apply Hset; reflexivity.
  - destruct (ps_current_tape s) as [t0|] eqn:Hcur; [| discriminate H].
    destruct vals as [|x [|]]; try discriminate H.
    injection H as <-. apply Hset; reflexivity.
  - destruct (ps_current_tape s) as [t0|] eqn:Hcur; [| discriminate H].
    destruct vals as [|x [|]]; try discriminate H.
    injection H as <-. apply Hset; reflexivity.
  - discriminate H.
Qed.

Lemma parse_lines_frame (ls : list config_line) :
  forall s s',
    parse_lines s ls = Some s' ->
    current_is_last s ->
    current_is_last s' /\
    length (ps_heap s) <= length (ps_heap s') /\
    forall t, t < length (ps_heap s) -> ps_current_tape s <> Some t ->
              ps_heap s' !! t = ps_heap s !! t.
Proof.
  induction ls as [|l ls IH]; intros s s' H Hinv.
  - injection H as <-. auto.
  - simpl in H. destruct (parse_line s l) as [s1|] eqn:Hl; [| discriminate H].
    destruct (parse_line_frame _ _ _ Hl Hinv) as (Hinv1 & Hlen1 & Hcur1 & Hfr1).
    destruct (IH _ _ H Hinv1) as (Hinv' & Hlen' & Hfr').
    split; [exact Hinv' |]. split; [lia |].
    intros t Ht Hne. rewrite Hfr'; [apply Hfr1; auto | lia |].
    intros Heq. apply (Hcur1 t Ht) in Heq as [Heq _]. contradiction.
Qed.

(** X14.  Once a line opens a new section ([Board:], [Tape-Tray-Origin:]
    or [Tape:]), the tapes of the lines before it are final: the file up to
    that line, ending there, is itself accepted, and its tapes are the
    first tapes of the whole file, unchanged. *)
Theorem ParsePnPConfiguration_sections_are_separate
    (new_config : PnPConfig) (new_position : Position)
    (ls1 : list config_line) (l : config_line) (ls2 : list config_line)
    (e : stream_end) (c : PnPConfig) (h : heap) :
  opens_section l = true ->
  ParsePnPConfiguration new_config new_position (ls1 ++ l :: ls2) e
    = Returns (Some (c, h)) ->
  exists c1 h1,
    ParsePnPConfiguration new_config new_position ls1 EndOfFile
      = Returns (Some (c1, h1)) /\
    h1 `prefix_of` h.
Proof.
  intros Hopen Hparse. unfold ParsePnPConfiguration in *.
  rewrite parse_lines_app in Hparse.
  destruct (parse_lines _ ls1) as [s1|] eqn:H1; [| discriminate Hparse].
  simpl in Hparse.
  destruct (parse_line s1 l) as [s2|] eqn:Hl; [| discriminate Hparse].
  destruct (parse_lines s2 ls2) as [s'|] eqn:H2; [| discriminate Hparse].
  destruct e; [| discriminate Hparse].
  injection Hparse as <- <-.
  exists (set_bed_level (F32.of_int 0) (ps_result s1)), (ps_heap s1).
  split; [reflexivity |].
  assert (Hinv0 : current_is_last
                    (mkParseState new_config [] None new_position F32.zero))
    by (intros t Ht; discriminate Ht).
  destruct (parse_lines_frame _ _ _ H1 Hinv0) as (Hinv1 & _ & _).
  destruct (parse_line_frame _ _ _ Hl Hinv1) as (Hinv2 & Hlen2 & Hcur2 & Hfr2).
  destruct (parse_lines_frame _ _ _ H2 Hinv2) as (_ & Hlen' & Hfr').
  exists (drop (length (ps_heap s1)) (ps_heap s')).
  rewrite <- (take_drop (length (ps_heap s1)) (ps_heap s')) at 1.
  f_equal. apply list_eq. intros t.
  destruct (decide (t < length (ps_heap s1))) as [Ht | Ht].
  - rewrite lookup_take_lt by exact Ht.
    rewrite Hfr'; [apply Hfr2; auto | lia |].
    intros Heq. apply (Hcur2 t Ht) in Heq as [_ Heq]. congruence.
  - rewrite lookup_take_ge by lia. symmetry. apply lookup_ge_None. lia.
Qed.

Lemma ParsePnPConfiguration_sections_are_separate_witness :
  opens_section (CL_Tape ["can@470u"]) = true /\
  exists c h c1 h1,
    ParsePnPConfiguration fresh_config fresh_position
      (moving_tape_file ++ CL_Tape ["can@470u"] :: two_section_tail) EndOfFile
      = Returns (Some (c, h)) /\
    ParsePnPConfiguration fresh_config fresh_position moving_tape_file EndOfFile
      = Returns (Some (c1, h1)) /\
    h1 `prefix_of` h.
Proof.
  split; [reflexivity |].
  destruct (ParsePnPConfiguration fresh_config fresh_position
              (moving_tape_file ++ CL_Tape ["can@470u"] :: two_section_tail)
              EndOfFile)
    as [[[c h]|]|] eqn:Hp; try (vm_compute in Hp; discriminate Hp).
  destruct (ParsePnPConfiguration_sections_are_separate
              fresh_config fresh_position moving_tape_file
              (CL_Tape ["can@470u"]) two_section_tail EndOfFile c h eq_refl Hp)
    as [c1 [h1 [H1 Hpre]]].
  exists c, h, c1, h1. split; [reflexivity |]. split; assumption.
Defined.

(** ** Which files are accepted *)

Ltac decide_lengths :=
  repeat split; cbn [andb length];
  first [ reflexivity
        | apply bool_decide_eq_true; cbn [length]; lia
        | apply bool_decide_eq_false; cbn [length]; lia ].

Lemma parse_line_accepted (s : parse_state) (l : config_line) :
  match parse_line s l with
  | Some s' =>
      line_accepted (in_tape_section s) l = true /\
      in_tape_section s' = section_after (in_tape_section s) l
  | None => line_accepted (in_tape_section s) l = false
  end.
Proof.
  unfold in_tape_section.
  destruct l; unfold parse_line, line_accepted, section_after; lazy beta iota.
  - auto.
  - auto.
  - destruct vals as [|x [|y rest]]; decide_lengths.
  - simpl. auto.
  - destruct (ps_current_tape s) eqn:Hcur.
    + destruct vals as [|x [|y [|z [|]]]]; cbn [ps_with_heap ps_current_tape];
        rewrite ?Hcur; decide_lengths.
    + destruct vals as [|x [|y rest]]; cbn [ps_with_result ps_current_tape];
        rewrite ?Hcur; decide_lengths.
  - destruct (ps_current_tape s) eqn:Hcur; [| reflexivity].
    destruct vals as [|x [|y [|]]]; try reflexivity.
    cbn [andb].
    destruct (F32.eqb x (F32.of_int 0) && F32.eqb y (F32.of_int 0));
      cbn [ps_with_heap ps_current_tape negb]; rewrite ?Hcur; auto.
  - destruct (ps_current_tape s) eqn:Hcur; [| reflexivity].
    destruct vals as [|x [|]]; cbn [ps_with_heap ps_current_tape];
      rewrite ?Hcur; decide_lengths.
  - destruct (ps_current_tape s) eqn:Hcur; [| reflexivity].
    destruct vals as [|x [|]]; cbn [ps_with_heap ps_current_tape];
      rewrite ?Hcur; decide_lengths.
  - reflexivity.
Qed.

Lemma parse_lines_accepted (ls : list config_line) :
  forall s, is_Some (parse_lines s ls) <-> file_accepted (in_tape_section s) ls = true.
Proof.
  induction ls as [|l ls IH]; intros s; simpl.
  - split; [reflexivity | eauto].
  - pose proof (parse_line_accepted s l) as Hl.
    destruct (parse_line s l) as [s1|].
    + destruct Hl as [-> <-]. simpl. apply IH.
    + rewrite Hl. simpl. split; [intros [? H]; discriminate H | discriminate].
Qed.

(** X15.  What [ParsePnPConfiguration] does with a file depends on its
    lines and on how the stream ends.  The lines are accepted when every
    line is known, has the number of values its kind needs, a spacing is
    not 0 in both values, and [spacing:], [angle:] and [count:] come
    within a tape section (a count of 0 or below is accepted).  The
    function returns null exactly when the lines are not accepted; it
    returns a configuration exactly when they are accepted and the stream
    reaches the end of the file; and it never returns exactly when they
    are accepted and the stream has failed, as for a file that cannot be
    opened, which has no line at all. *)
Theorem ParsePnPConfiguration_accepts
    (new_config : PnPConfig) (new_position : Position) (ls : list config_line)
    (e : stream_end) :
  (ParsePnPConfiguration new_config new_position ls e = Returns None
   <-> file_accepted false ls = false) /\
  ((exists c h, ParsePnPConfiguration new_config new_position ls e
                = Returns (Some (c, h)))
   <-> file_accepted false ls = true /\ e = EndOfFile) /\
  (ParsePnPConfiguration new_config new_position ls e = NeverReturns
   <-> file_accepted false ls = true /\ e = StreamFails) /\
  ParsePnPConfiguration new_config new_position [] StreamFails = NeverReturns.
Proof.
  unfold ParsePnPConfiguration.
  pose proof (parse_lines_accepted ls
                (mkParseState new_config [] None new_position F32.zero)) as Hacc.
  cbn [in_tape_section ps_current_tape] in Hacc.
  destruct (parse_lines _ ls) as [s|].
  - assert (Htrue : file_accepted false ls = true) by (apply Hacc; eauto).
    rewrite Htrue.
    split; [split; [destruct e |]; discriminate |].
    split; [| split; [| reflexivity]].
    + destruct e; split.
      * intros _. auto.
      * intros _. eauto.
      * intros (c & h & H). discriminate H.
      * intros [_ H]. discriminate H.
    + destruct e; split; try discriminate; auto.
      intros [_ H]. discriminate H.
  - assert (Hfalse : file_accepted false ls = false).
    { destruct (file_accepted false ls); [| reflexivity].
      destruct (proj2 Hacc eq_refl) as [x H]. discriminate H. }
    rewrite Hfalse.
    split; [split; reflexivity |].
    split; [| split; [| reflexivity]].
    + split; [intros (c & h & H); discriminate H | intros [H _]; discriminate H].
    + split; [discriminate | intros [H _]; discriminate H].
Qed.

(** ** What the tapes of an accepted file hold *)

Lemma settings_from_alter (L : list config_line) (f : Tape -> Tape)
    (t : nat) (h : heap) :
  Forall (settings_from L) h ->
  (forall tp, settings_from L tp -> settings_from L (f tp)) ->
  Forall (settings_from L) (alter f t h).
Proof. intros Hh Hf. apply Forall_alter; [exact Hh | intros tp _; apply Hf]. Qed.

Lemma parse_line_settings (L : list config_line) (s s' : parse_state)
    (l : config_line) :
  l ∈ L ->
  parse_line s l = Some s' ->
  Forall (settings_from L) (ps_heap s) ->
  Forall (settings_from L) (ps_heap s').
Proof.
  intros HL H Hh.
  destruct l; unfold parse_line in H; lazy beta iota in H.
  - injection H as <-. exact Hh.
  - injection H as <-. exact Hh.
  - destruct vals as [|x [|y rest]]; try discriminate H.
    injection H as <-. exact Hh.
  - simpl in H. injection H as <-. simpl.
    rewrite <- (Nat.add_0_r (length (ps_heap s))), alter_app_r. simpl.
    apply Forall_app. split; [exact Hh |]. constructor; [| constructor].
    unfold settings_from. simpl. auto.
  - destruct (ps_current_tape s).
    + destruct vals as [|x [|y [|z [|]]]]; try discriminate H.
      injection H as <-. simpl. apply settings_from_alter; [exact Hh |].
      intros tp Htp. exact Htp.
    + destruct vals as [|x [|y rest]]; try discriminate H.
      injection H as <-. exact Hh.
  - destruct (ps_current_tape s); [| discriminate H].
    destruct vals as [|x [|y [|]]]; try discriminate H.
    destruct (F32.eqb x (F32.of_int 0) && F32.eqb y (F32.of_int 0)) eqn:Hz;
      [discriminate H |].
    injection H as <-. simpl. apply settings_from_alter; [exact Hh |].
    intros tp (H1 & H2 & H3). unfold settings_from. simpl.
    split; [right; eauto 10 | auto].
  - destruct (ps_current_tape s); [| discriminate H].
    destruct vals as [|x [|]]; try discriminate H.
    injection H as <-. simpl. apply settings_from_alter; [exact Hh |].
    intros tp (H1 & H2 & H3). unfold settings_from. simpl.
    split; [exact H1 |]. split; [exact H2 |]. right; eauto.
  - destruct (ps_current_tape s); [| discriminate H].
    destruct vals as [|x [|]]; try discriminate H.
    injection H as <-. simpl. apply settings_from_alter; [exact Hh |].
    intros tp (H1 & H2 & H3). unfold settings_from. simpl.
    split; [exact H1 |]. split; [right; eauto | exact H3].
  - discriminate H.
Qed.

Lemma parse_lines_settings (L ls : list config_line) :
  (forall l, l ∈ ls -> l ∈ L) ->
  forall s s',
    parse_lines s ls = Some s' ->
    Forall (settings_from L) (ps_heap s) ->
    Forall (settings_from L) (ps_heap s').
Proof.
  induction ls as [|l ls IH]; intros HL s s' H Hh.
  - injection H as <-. exact Hh.
  - simpl in H. destruct (parse_line s l) as [s1|] eqn:Hl; [| discriminate H].
    apply (IH ltac:(intros l' Hin; apply HL, elem_of_cons; now right) s1 s' H).
    apply (parse_line_settings L s s1 l); auto.
    apply HL, elem_of_cons. now left.
Qed.

(** X16.  Each tape of an accepted configuration has, for spacing,
    count and angle, the value of a line of the file or else the default:
    spacing (0, 0), count 1000, angle 90.  A tape section without a
    [spacing:] line is accepted and its tape never moves. *)
Theorem ParsePnPConfiguration_tape_settings
    (new_config : PnPConfig) (new_position : Position)
    (ls : list config_line) (e : stream_end) (c : PnPConfig) (h : heap) :
  ParsePnPConfiguration new_config new_position ls e = Returns (Some (c, h)) ->
  Forall (settings_from ls) h /\
  ((forall vals, CL_spacing vals ∉ ls) ->
   Forall (fun tp => dx_ tp = F32.zero /\ dy_ tp = F32.zero) h) /\
  ((forall vals, CL_count vals ∉ ls) ->
   Forall (fun tp => count_ tp = 1000%Z) h).
Proof.
  intros Hparse. unfold ParsePnPConfiguration in Hparse.
  destruct (parse_lines _ ls) as [s|] eqn:Hls; [| discriminate Hparse].
  destruct e; [| discriminate Hparse].
  injection Hparse as <- <-.
  assert (Hall : Forall (settings_from ls) (ps_heap s)).
  { apply (parse_lines_settings ls ls ltac:(auto) _ s Hls). constructor. }
  split; [exact Hall |]. split.
  - intros Hno. eapply Forall_impl; [exact Hall |].
    intros tp ([Hz | (x & y & Hin & _)] & _ & _); [exact Hz |].
    exfalso. exact (Hno _ Hin).
  - intros Hno. eapply Forall_impl; [exact Hall |].
    intros tp (_ & [Hz | (n & Hin & _)] & _); [exact Hz |].
    exfalso. exact (Hno _ Hin).
Qed.

Lemma ParsePnPConfiguration_tape_settings_witness :
  exists c h,
    ParsePnPConfiguration fresh_config fresh_position no_spacing_file EndOfFile
      = Returns (Some (c, h)) /\
    (forall vals, CL_spacing vals ∉ no_spacing_file) /\
    Forall (fun tp => dx_ tp = F32.zero /\ dy_ tp = F32.zero) h /\
    length h = 1.
Proof.
  destruct (ParsePnPConfiguration fresh_config fresh_position no_spacing_file
              EndOfFile)
    as [[[c h]|]|] eqn:Hp; try (vm_compute in Hp; discriminate Hp).
  assert (Hno : forall vals, CL_spacing vals ∉ no_spacing_file).
  { intros vals Hin. unfold no_spacing_file in Hin.
    repeat (apply elem_of_cons in Hin as [Hin | Hin]; [discriminate Hin |]).
    apply elem_of_nil in Hin. exact Hin. }
  destruct (ParsePnPConfiguration_tape_settings _ _ _ _ c h Hp) as (_ & Hz & _).
  exists c, h. split; [reflexivity |]. split; [exact Hno |].
  split; [exact (Hz Hno) |].
  vm_compute in Hp. injection Hp as <- <-. reflexivity.
Defined.

(* ===================================================================== *)
(** * More on ParseSimplePnPConfiguration *)
(* ===================================================================== *)

Lemma simple_line_step_tapes (board : Board) (c c' : PnPConfig) (h h' : heap)
    (l : simple_line) :
  simple_line_step board (c, h) l = Defined (c', h') ->
  pickup_point <$> h' = (pickup_point <$> h) ++ (snd <$> first_components [l]) /\
  (Forall (fun tp => count_ tp = 1000%Z /\ angle_ tp = F32.of_int 90) h ->
   Forall (fun tp => count_ tp = 1000%Z /\ angle_ tp = F32.of_int 90) h') /\
  forall key,
    tape_for_component c' !! key
    = match last_named key (length h) (first_components [l]) with
      | Some t => Some t
      | None => tape_for_component c !! key
      end.
Proof.
  destruct l as [idx d x y z | d x y z | d x y z | stored];
    unfold simple_line_step; cbn [first_components].
  - destruct (idx =? 1)%Z eqn:Hidx.
    + cbn [new_Tape]. intros H. injection H as <- <-.
      rewrite <- (Nat.add_0_r (length h)), !alter_app_r. cbn [alter list_alter].
      split; [| split].
      * rewrite fmap_app. reflexivity.
      * intros Hh. apply Forall_app. split; [exact Hh |].
        constructor; [| constructor]. split; reflexivity.
      * intros key. cbn [bind_tape tape_for_component last_named fmap].
        rewrite Nat.add_0_r.
        destruct (decide (key = d)) as [-> | Hne].
        -- apply lookup_insert_eq.
        -- apply lookup_insert_ne. congruence.
    + destruct (tape_for_component c !! d) as [t|].
      * destruct (GetPos (h !!! t) F32.zero F32.zero) as [[] [old_x old_y]];
          [| discriminate].
        intros H. injection H as <- <-. cbn [fmap list_fmap]. rewrite app_nil_r.
        split; [| split; [| reflexivity]].
        -- apply list_eq. intros i. rewrite !list_lookup_fmap.
           destruct (decide (t = i)) as [<- | Hne].
           ++ rewrite list_lookup_alter_eq. destruct (h !! t); reflexivity.
           ++ rewrite list_lookup_alter_ne by exact Hne. reflexivity.
        -- intros Hh. apply Forall_alter; [exact Hh |].
           intros tp _ Htp. exact Htp.
      * intros H. injection H as <- <-. cbn [fmap list_fmap]. rewrite app_nil_r.
        auto.
  - intros H. injection H as <- <-. cbn [fmap list_fmap]. rewrite app_nil_r.
    split; [reflexivity |]. split; [auto |]. intros key.
    cbn [last_named].
    destruct (FindPartPos (parts board) d);
      destruct (F32.ltb _ _); reflexivity.
  - intros H. injection H as <- <-. cbn [fmap list_fmap]. rewrite app_nil_r.
    auto.
  - intros H. injection H as <- <-. cbn [fmap list_fmap]. rewrite app_nil_r.
    auto.
Qed.

Lemma first_components_cons (l : simple_line) (ls : list simple_line) :
  first_components (l :: ls) = first_components [l] ++ first_components ls.
Proof.
  destruct l as [idx d x y z | | | stored]; simpl; try reflexivity.
  destruct (idx =? 1)%Z; reflexivity.
Qed.

Lemma last_named_app {A : Type} (key : string) (fs1 fs2 : list (string * A)) :
  forall next,
    last_named key next (fs1 ++ fs2)
    = match last_named key (next + length fs1) fs2 with
      | Some t => Some t
      | None => last_named key next fs1
      end.
Proof.
  induction fs1 as [|[d a] fs1 IH]; intros next.
  - simpl. rewrite Nat.add_0_r. destruct (last_named key next fs2); reflexivity.
  - simpl. rewrite IH.
    replace (S next + length fs1) with (next + S (length fs1)) by lia.
    destruct (last_named key (next + S (length fs1)) fs2); reflexivity.
Qed.

Lemma last_named_range {A : Type} (key : string) (fs : list (string * A)) :
  forall next t,
    last_named key next fs = Some t ->
    next <= t < next + length fs /\
    exists a, fs !! (t - next) = Some (key, a).
Proof.
  induction fs as [|[d a] fs IH]; intros next t H; [discriminate H |].
  simpl in H. destruct (last_named key (S next) fs) as [t'|] eqn:Hl.
  - injection H as <-. destruct (IH _ _ Hl) as [Hr [a' Ha]].
    split; [simpl; lia |]. exists a'.
    replace (t' - next) with (S (t' - S next)) by lia. exact Ha.
  - destruct (decide (key = d)) as [-> | _]; [| discriminate H].
    injection H as <-. split; [simpl; lia |]. exists a.
    rewrite Nat.sub_diag. reflexivity.
Qed.

Lemma simple_lines_tapes (board : Board) (ls : list simple_line) :
  forall c h c' h',
    simple_lines board (c, h) ls = Defined (c', h') ->
    pickup_point <$> h' = (pickup_point <$> h) ++ (snd <$> first_components ls) /\
    (Forall (fun tp => count_ tp = 1000%Z /\ angle_ tp = F32.of_int 90) h ->
     Forall (fun tp => count_ tp = 1000%Z /\ angle_ tp = F32.of_int 90) h') /\
    forall key,
      tape_for_component c' !! key
      = match last_named key (length h) (first_components ls) with
        | Some t => Some t
        | None => tape_for_component c !! key
        end.
Proof.
  induction ls as [|l ls IH]; intros c h c' h' H.
  - injection H as <- <-. simpl. rewrite app_nil_r. auto.
  - cbn [simple_lines] in H.
    destruct (simple_line_step board (c, h) l) as [[c1 h1]|] eqn:Hl;
      [| discriminate H].
    destruct (simple_line_step_tapes _ _ _ _ _ _ Hl) as (Hp1 & Hf1 & Hm1).
    destruct (IH _ _ _ _ H) as (Hp & Hf & Hm).
    rewrite first_components_cons.
    split; [| split].
    + rewrite Hp, Hp1, fmap_app, app_assoc. reflexivity.
    + auto.
    + intros key. rewrite Hm, Hm1, last_named_app.
      assert (Hlen : length h1 = length h + length (first_components [l])).
      { apply (f_equal length) in Hp1.
        rewrite length_app, !length_fmap in Hp1. exact Hp1. }
      rewrite Hlen.
      destruct (last_named key _ (first_components ls)); reflexivity.
Qed.

(** X17.  On a file whose words all fit the array [designator],
    [ParseSimplePnPConfiguration] reaches its cross check; it makes one
    tape for each [tape1:] line, whose pickup position is exactly the
    three values of the line, with count 1000 and angle 90, and binds
    every designator to the tape of its last [tape1:] line. *)
Theorem ParseSimplePnPConfiguration_tapes
    (new_config : PnPConfig) (board : Board) (ls : list simple_line) :
  tape_for_component new_config = ∅ ->
  designators_fit ls ->
  exists c h,
    simple_lines board (new_config, []) ls = Defined (c, h) /\
    ParseSimplePnPConfiguration new_config board (Some ls)
      = Defined (cross_check c h) /\
    pickup_point <$> h = snd <$> first_components ls /\
    Forall (fun tp => count_ tp = 1000%Z /\ angle_ tp = F32.of_int 90) h /\
    (forall key,
       tape_for_component c !! key = last_named key 0 (first_components ls)) /\
    (forall key t,
       tape_for_component c !! key = Some t ->
       exists tp x y z,
         h !! t = Some tp /\ first_components ls !! t = Some (key, (x, y, z)) /\
         x_ tp = x /\ y_ tp = y /\ height tp = z).
Proof.
  intros Hempty _.
  destruct (simple_lines_defined board ls new_config [] ltac:(constructor))
    as [c [h [Hrun _]]].
  exists c, h. split; [exact Hrun |].
  destruct (simple_lines_tapes _ _ _ _ _ _ Hrun) as (Hp & Hf & Hm).
  simpl in Hp, Hm.
  assert (Hkey : forall key,
            tape_for_component c !! key = last_named key 0 (first_components ls)).
  { intros key. rewrite Hm, Hempty, lookup_empty.
    destruct (last_named key 0 (first_components ls)); reflexivity. }
  split; [unfold ParseSimplePnPConfiguration; now rewrite Hrun |].
  split; [exact Hp |]. split; [apply Hf; constructor |]. split; [exact Hkey |].
  intros key t Ht. rewrite Hkey in Ht.
  destruct (last_named_range _ _ _ _ Ht) as [Hr [[[x y] z] Ha]].
  rewrite Nat.sub_0_r in Ha.
  assert (Hpt : (pickup_point <$> h) !! t = Some (x, y, z)).
  { rewrite Hp, list_lookup_fmap, Ha. reflexivity. }
  rewrite list_lookup_fmap in Hpt.
  destruct (h !! t) as [tp|]; [| discriminate Hpt].
  injection Hpt as Hx Hy Hz.
  exists tp, x, y, z. auto.
Qed.

Lemma ParseSimplePnPConfiguration_tapes_witness :
  tape_for_component fresh_config = ∅ /\
  designators_fit tape_at_bed_level_file /\
  exists c h,
    simple_lines two_part_board (fresh_config, []) tape_at_bed_level_file
      = Defined (c, h) /\
    pickup_point <$> h = [(F32.of_int 10, F32.of_int 60, F32.of_int 5)] /\
    tape_for_component c !! "smd0805@100n" = Some 0.
Proof.
  assert (Hfit : designators_fit tape_at_bed_level_file).
  { unfold designators_fit, tape_at_bed_level_file.
    repeat (constructor; [first [reflexivity | exact I] |]). constructor. }
  split; [reflexivity |]. split; [exact Hfit |].
  destruct (ParseSimplePnPConfiguration_tapes
              fresh_config two_part_board tape_at_bed_level_file eq_refl Hfit)
    as [c [h (Hrun & _ & Hp & _ & Hkey & _)]].
  exists c, h. split; [exact Hrun |]. split; [exact Hp |].
  rewrite Hkey. reflexivity.
Defined.

(** ** The bed level of a calibration file *)

Lemma simple_lines_app (board : Board) (ls1 ls2 : list simple_line) :
  forall st,
    simple_lines board st (ls1 ++ ls2)
    = match simple_lines board st ls1 with
      | Defined st1 => simple_lines board st1 ls2
      | ReadsUninitialized => ReadsUninitialized
      end.
Proof.
  induction ls1 as [|l ls1 IH]; intros st; [reflexivity |].
  cbn [simple_lines app].
  destruct (simple_line_step board st l); [apply IH | reflexivity].
Qed.

Lemma simple_line_step_keeps_bed_level (board : Board) (c c' : PnPConfig)
    (h h' : heap) (l : simple_line) :
  (forall d x y z, l <> SL_bedlevel d x y z) ->
  F32.ltb (bed_level c) (F32.of_int 0) = false ->
  simple_line_step board (c, h) l = Defined (c', h') ->
  bed_level c' = bed_level c.
Proof.
  intros Hno Hbed.
  destruct l as [idx d x y z | d x y z | d x y z | stored]; unfold simple_line_step.
  - destruct (idx =? 1)%Z.
    + cbn [new_Tape]. intros H. injection H as <- _. reflexivity.
    + destruct (tape_for_component c !! d) as [t|].
      * destruct (GetPos (h !!! t) F32.zero F32.zero) as [[] [old_x old_y]];
          [| discriminate].
        intros H. injection H as <- _. reflexivity.
      * intros H. injection H as <- _. reflexivity.
  - assert (Hc : forall c0, bed_level c0 = bed_level c ->
              bed_level (set_board_top z c0) = bed_level c) by auto.
    destruct (FindPartPos (parts board) d) as [p|]; cbn zeta;
      rewrite Hc, Hbed by reflexivity;
      intros H; injection H as <- _; reflexivity.
  - exfalso. exact (Hno d x y z eq_refl).
  - intros H. injection H as <- _. reflexivity.
Qed.

Lemma simple_lines_keep_bed_level (board : Board) (ls : list simple_line) :
  (forall d x y z, SL_bedlevel d x y z ∉ ls) ->
  forall c h c' h',
    F32.ltb (bed_level c) (F32.of_int 0) = false ->
    simple_lines board (c, h) ls = Defined (c', h') ->
    bed_level c' = bed_level c.
Proof.
  induction ls as [|l ls IH]; intros Hno c h c' h' Hbed H.
  - injection H as <- _. reflexivity.
  - cbn [simple_lines] in H.
    destruct (simple_line_step board (c, h) l) as [[c1 h1]|] eqn:Hl;
      [| discriminate H].
    assert (H1 : bed_level c1 = bed_level c).
    { apply (simple_line_step_keeps_bed_level board c c1 h h1 l); auto.
      intros d x y z ->. apply (Hno d x y z), elem_of_cons. now left. }
    rewrite <- H1. apply (IH ltac:(intros d x y z Hin;
                                   apply (Hno d x y z), elem_of_cons; now right)
                            c1 h1 c' h'); [congruence | exact H].
Qed.

(** X19.  A [bedlevel:] line whose z is not below 0 settles the bed
    level when no other [bedlevel:] line follows: [board:] and [tape]
    lines after it leave it alone, and the file is accepted exactly when
    the lowest point is not below that z. *)
Theorem ParseSimplePnPConfiguration_bed_level
    (new_config : PnPConfig) (board : Board)
    (ls1 ls2 : list simple_line) (designator : string) (x y z : float)
    (c : PnPConfig) (h : heap) :
  (forall d' x' y' z', SL_bedlevel d' x' y' z' ∉ ls2) ->
  F32.ltb z (F32.of_int 0) = false ->
  simple_lines board (new_config, [])
    (ls1 ++ SL_bedlevel designator x y z :: ls2) = Defined (c, h) ->
  bed_level c = z /\
  (ParseSimplePnPConfiguration new_config board
     (Some (ls1 ++ SL_bedlevel designator x y z :: ls2)) = Defined (Some (c, h))
   <-> F32.ltb (lowest_value c h) z = false).
Proof.
  intros Hno Hz Hrun.
  assert (Hbed : bed_level c = z).
  { rewrite simple_lines_app in Hrun.
    destruct (simple_lines board (new_config, []) ls1) as [[c1 h1]|];
      [| discriminate Hrun].
    cbn [simple_lines simple_line_step] in Hrun.
    apply (simple_lines_keep_bed_level board ls2 Hno) in Hrun; [| exact Hz].
    exact Hrun. }
  split; [exact Hbed |].
  unfold ParseSimplePnPConfiguration. rewrite Hrun. unfold cross_check.
  rewrite Hbed. destruct (F32.ltb (lowest_value c h) z).
  - split; [intros H; discriminate H | discriminate].
  - split; reflexivity.
Qed.

Lemma ParseSimplePnPConfiguration_bed_level_witness :
  exists c h,
    simple_lines two_part_board (fresh_config, [])
      ([] ++ SL_bedlevel "BedLevel-Z" (F32.of_int 0) (F32.of_int 0) (F32.of_int 5)
          :: tl tape_at_bed_level_file) = Defined (c, h) /\
    bed_level c = F32.of_int 5.
Proof.
  destruct (simple_lines two_part_board (fresh_config, [])
      ([] ++ SL_bedlevel "BedLevel-Z" (F32.of_int 0) (F32.of_int 0) (F32.of_int 5)
          :: tl tape_at_bed_level_file)) as [[c h]|] eqn:Hrun;
    [| vm_compute in Hrun; discriminate Hrun].
  exists c, h. split; [reflexivity |].
  refine (proj1 (ParseSimplePnPConfiguration_bed_level
            fresh_config two_part_board [] (tl tape_at_bed_level_file)
            "BedLevel-Z" (F32.of_int 0) (F32.of_int 0) (F32.of_int 5) c h
            _ eq_refl Hrun)).
  intros d' x' y' z' Hin. cbn in Hin.
  repeat (apply elem_of_cons in Hin as [Hin | Hin]; [discriminate Hin |]).
  apply elem_of_nil in Hin. exact Hin.
Defined.

(** ** The two lines that calibrate a tape *)

Lemma simple_line_step_apart (board : Board) (c c' : PnPConfig) (h h' : heap)
    (l : simple_line) :
  simple_line_step board (c, h) l = Defined (c', h') ->
  bindings_apart c h ->
  bindings_apart c' h' /\
  forall key t,
    ~ names_tape key l ->
    tape_for_component c !! key = Some t ->
    tape_for_component c' !! key = Some t /\ h' !! t = h !! t.
Proof.
  intros H [Hlt Hinj].
  destruct l as [idx d x y z | d x y z | d x y z | stored];
    unfold simple_line_step in H.
  - destruct (idx =? 1)%Z.
    + cbn [new_Tape] in H. injection H as <- <-.
      rewrite <- (Nat.add_0_r (length h)), !alter_app_r. cbn [alter list_alter].
      split; [split |].
      * intros key t. cbn [bind_tape tape_for_component].
        rewrite length_app. cbn [length].
        destruct (decide (key = d)) as [-> | Hne].
        -- rewrite lookup_insert_eq. intros Ht. injection Ht as <-. lia.
        -- rewrite lookup_insert_ne by congruence. intros Ht.
           apply Hlt in Ht. lia.
      * intros key1 key2 t. cbn [bind_tape tape_for_component].
        destruct (decide (key1 = d)) as [-> | Hne1];
          destruct (decide (key2 = d)) as [-> | Hne2];
          rewrite ?lookup_insert_eq, ?lookup_insert_ne by congruence.
        -- reflexivity.
        -- intros H1 H2. injection H1 as <-. apply Hlt in H2. lia.
        -- intros H1 H2. injection H2 as <-. apply Hlt in H1. lia.
        -- apply Hinj.
      * intros key t Hname Ht. cbn [names_tape] in Hname.
        cbn [bind_tape tape_for_component].
        rewrite lookup_insert_ne by congruence. split; [exact Ht |].
        apply lookup_app_l. apply (Hlt key t Ht).
    + destruct (tape_for_component c !! d) as [t0|] eqn:Hd.
      * destruct (GetPos (h !!! t0) F32.zero F32.zero) as [[] [old_x old_y]];
          [| discriminate H].
        injection H as <- <-. split; [split |].
        -- intros key t Ht. rewrite length_alter. apply (Hlt key t Ht).
        -- exact Hinj.
        -- intros key t Hname Ht. split; [exact Ht |].
           apply list_lookup_alter_ne. intros ->.
           apply Hname. cbn [names_tape]. apply (Hinj d key t Hd Ht).
      * injection H as <- <-. split; [split; assumption | auto].
  - injection H as <- <-. split; [split |].
    + intros key t. destruct (FindPartPos (parts board) d);
        destruct (F32.ltb _ _); apply Hlt.
    + intros key1 key2 t. destruct (FindPartPos (parts board) d);
        destruct (F32.ltb _ _); apply Hinj.
    + intros key t _ Ht. split; [| reflexivity].
      destruct (FindPartPos (parts board) d); destruct (F32.ltb _ _); exact Ht.
  - injection H as <- <-. split; [split; assumption | auto].
  - injection H as <- <-. split; [split; assumption | auto].
Qed.

Lemma simple_lines_apart (board : Board) (ls : list simple_line) :
  forall c h c' h',
    simple_lines board (c, h) ls = Defined (c', h') ->
    bindings_apart c h ->
    bindings_apart c' h' /\
    forall key t,
      (forall l, l ∈ ls -> ~ names_tape key l) ->
      tape_for_component c !! key = Some t ->
      tape_for_component c' !! key = Some t /\ h' !! t = h !! t.
Proof.
  induction ls as [|l ls IH]; intros c h c' h' H Hap.
  - injection H as <- <-. auto.
  - cbn [simple_lines] in H.
    destruct (simple_line_step board (c, h) l) as [[c1 h1]|] eqn:Hl;
      [| discriminate H].
    destruct (simple_line_step_apart _ _ _ _ _ _ Hl Hap) as [Hap1 Hfr1].
    destruct (IH _ _ _ _ H Hap1) as [Hap' Hfr'].
    split; [exact Hap' |].
    intros key t Hno Ht.
    destruct (Hfr1 key t) as [Ht1 Hh1];
      [apply Hno, elem_of_cons; now left | exact Ht |].
    destruct (Hfr' key t) as [Ht' Hh'];
      [intros l' Hin; apply Hno, elem_of_cons; now right | exact Ht1 |].
    split; [exact Ht' | congruence].
Qed.

Lemma alter_last (f : Tape -> Tape) (h : heap) (tp : Tape) :
  alter f (length h) (h ++ [tp]) = h ++ [f tp].
Proof. rewrite alter_app_r_alt by lia. rewrite Nat.sub_diag. reflexivity. Qed.

Lemma lookup_total_last (h : heap) (tp : Tape) : (h ++ [tp]) !!! length h = tp.
Proof.
  apply list_lookup_total_correct. rewrite lookup_app_r by lia.
  rewrite Nat.sub_diag. reflexivity.
Qed.

Lemma simple_lines_calibrate
    (new_config : PnPConfig) (board : Board)
    (ls1 ls2 : list simple_line) (key : string) (tape_idx : Z)
    (x1 y1 z1 x2 y2 z2 : float) :
  tape_for_component new_config = ∅ ->
  tape_idx <> 1%Z ->
  (forall l, l ∈ ls2 -> ~ names_tape key l) ->
  exists c h t,
    simple_lines board (new_config, [])
      (ls1 ++ SL_tape 1 key x1 y1 z1 :: SL_tape tape_idx key x2 y2 z2 :: ls2)
      = Defined (c, h) /\
    tape_for_component c !! key = Some t /\
    h !! t = Some (calibrated_tape tape_idx x1 y1 z1 x2 y2).
Proof.
  intros Hempty Hidx Hno.
  destruct (simple_lines_defined board
              (ls1 ++ SL_tape 1 key x1 y1 z1 :: SL_tape tape_idx key x2 y2 z2 :: ls2)
              new_config [] ltac:(constructor)) as [c [h [Hrun _]]].
  exists c, h, (length (first_components ls1)).
  split; [exact Hrun |].
  rewrite simple_lines_app in Hrun.
  destruct (simple_lines board (new_config, []) ls1) as [[c1 h1]|] eqn:H1;
    [| discriminate Hrun].
  assert (Hap0 : bindings_apart new_config []).
  { split; [intros k t | intros k1 k2 t]; rewrite Hempty, lookup_empty;
      discriminate. }
  destruct (simple_lines_apart _ _ _ _ _ _ H1 Hap0) as [Hap1 _].
  destruct (simple_lines_tapes _ _ _ _ _ _ H1) as (Hp1 & _ & _).
  assert (Hlen1 : length h1 = length (first_components ls1)).
  { apply (f_equal length) in Hp1.
    rewrite length_app, !length_fmap in Hp1. exact Hp1. }
  cbn [simple_lines] in Hrun.
  destruct (simple_line_step board (c1, h1) (SL_tape 1 key x1 y1 z1))
    as [[c2 h2]|] eqn:H2; [| discriminate Hrun].
  destruct (simple_line_step_apart _ _ _ _ _ _ H2 Hap1) as [Hap2 _].
  unfold simple_line_step in H2. cbn [Z.eqb Pos.eqb new_Tape] in H2.
  rewrite !alter_last in H2. injection H2 as <- <-.
  destruct (simple_line_step board _ (SL_tape tape_idx key x2 y2 z2))
    as [[c3 h3]|] eqn:H3; [| discriminate Hrun].
  destruct (simple_line_step_apart _ _ _ _ _ _ H3 Hap2) as [Hap3 _].
  unfold simple_line_step in H3.
  rewrite (proj2 (Z.eqb_neq tape_idx 1) Hidx) in H3.
  cbn [bind_tape tape_for_component] in H3. rewrite lookup_insert_eq in H3.
  rewrite lookup_total_last in H3.
  cbn [GetPos SetFirstComponentPosition SetAngle Tape_new
       count_ x_ y_ Z.leb Z.compare] in H3.
  rewrite alter_last in H3. injection H3 as <- <-.
  destruct (simple_lines_apart _ _ _ _ _ _ Hrun Hap3) as [_ Hfr].
  destruct (Hfr key (length h1) Hno) as [Hk Hh].
  { cbn [bind_tape tape_for_component]. apply lookup_insert_eq. }
  rewrite <- Hlen1. split; [exact Hk |].
  rewrite Hh, lookup_app_r by lia. rewrite Nat.sub_diag. reflexivity.
Qed.

(** X18.  A [tape1:] line for a key followed by the line for another
    component of the same tape, with no later [tape] line for that key,
    leaves the key bound to a tape at the position of the first line whose
    spacing is the difference of the two positions divided by the number
    of steps between them; the z of the second line is not used. *)
Theorem ParseSimplePnPConfiguration_calibrates_tape
    (new_config : PnPConfig) (board : Board)
    (ls1 ls2 : list simple_line) (key : string) (tape_idx : Z)
    (x1 y1 z1 x2 y2 z2 : float) :
  tape_for_component new_config = ∅ ->
  tape_idx <> 1%Z ->
  (forall l, l ∈ ls2 -> ~ names_tape key l) ->
  let file :=
    ls1 ++ SL_tape 1 key x1 y1 z1 :: SL_tape tape_idx key x2 y2 z2 :: ls2 in
  exists c h t,
    simple_lines board (new_config, []) file = Defined (c, h) /\
    ParseSimplePnPConfiguration new_config board (Some file)
      = Defined (cross_check c h) /\
    tape_for_component c !! key = Some t /\
    h !! t = Some (calibrated_tape tape_idx x1 y1 z1 x2 y2) /\
    height (calibrated_tape tape_idx x1 y1 z1 x2 y2) = z1 /\
    count_ (calibrated_tape tape_idx x1 y1 z1 x2 y2) = 1000%Z.
Proof.
  intros Hempty Hidx Hno file.
  destruct (simple_lines_calibrate new_config board ls1 ls2 key tape_idx
              x1 y1 z1 x2 y2 z2 Hempty Hidx Hno) as [c [h [t (Hrun & Hk & Hh)]]].
  exists c, h, t. split; [exact Hrun |].
  split; [unfold ParseSimplePnPConfiguration, file; now rewrite Hrun |].
  split; [exact Hk |]. split; [exact Hh |]. split; reflexivity.
Qed.

Lemma ParseSimplePnPConfiguration_calibrates_tape_witness :
  tape_for_component fresh_config = ∅ /\ 3%Z <> 1%Z /\
  exists c h t,
    simple_lines two_part_board (fresh_config, []) tape_at_bed_level_file
      = Defined (c, h) /\
    tape_for_component c !! "smd0805@100n" = Some t /\
    h !! t = Some (calibrated_tape 3 (F32.of_int 10) (F32.of_int 60) (F32.of_int 5)
                                     (F32.of_int 18) (F32.of_int 60)) /\
    dx_ (calibrated_tape 3 (F32.of_int 10) (F32.of_int 60) (F32.of_int 5)
                           (F32.of_int 18) (F32.of_int 60)) = F32.of_int 4.
Proof.
  split; [reflexivity |]. split; [discriminate |].
  destruct (ParseSimplePnPConfiguration_calibrates_tape
              fresh_config two_part_board
              [SL_bedlevel "BedLevel-Z" (F32.of_int 0) (F32.of_int 0) (F32.of_int 5)]
              [SL_other None;
               SL_board "R1" (F32.of_int 30) (F32.of_int 30) (F32.of_int 7)]
              "smd0805@100n" 3
              (F32.of_int 10) (F32.of_int 60) (F32.of_int 5)
              (F32.of_int 18) (F32.of_int 60) (F32.of_int 5)
              eq_refl ltac:(discriminate))
    as [c [h [t (Hrun & _ & Hk & Hh & _)]]].
  { intros l Hin.
    repeat (apply elem_of_cons in Hin as [-> | Hin]; [exact (fun H => H) |]).
    apply elem_of_nil in Hin. destruct Hin. }
  exists c, h, t. split; [exact Hrun |]. split; [exact Hk |].
  split; [exact Hh |]. vm_compute. reflexivity.
Defined.

(* ===================================================================== *)
(** * The instructions of CreateHomerInstruction *)
(* ===================================================================== *)

Lemma counts_in_key_order_Permutation (m : ComponentCount) :
  Permutation (counts_in_key_order m) (map_to_list m).
Proof. unfold counts_in_key_order. apply merge_sort_Permutation. Qed.

Lemma counts_in_key_order_elem (m : ComponentCount) (key : string) (n : Z) :
  (key, n) ∈ counts_in_key_order m <-> m !! key = Some n.
Proof.
  rewrite (counts_in_key_order_Permutation m). apply elem_of_map_to_list.
Qed.

Lemma counts_in_key_order_NoDup (m : ComponentCount) :
  NoDup (fst <$> counts_in_key_order m).
Proof.
  rewrite (counts_in_key_order_Permutation m). apply NoDup_fst_map_to_list.
Qed.

Lemma tape_lines_of_elem (l : list (string * Z)) (idx : Z) (key : string) :
  HL_tape idx key ∈ flat_map tape_lines_of l ->
  exists n, (key, n) ∈ l /\ (idx = 1 \/ idx = Z.min (Z.max 2 n) 4)%Z.
Proof.
  intros Hin. apply list_elem_of_In, in_flat_map in Hin as [[k n] [Hk Hin]].
  apply list_elem_of_In in Hk. exists n.
  destruct Hin as [Heq | [Heq | []]]; injection Heq as <- <-; auto.
Qed.

Lemma NoDup_fst_split (l : list (string * Z)) (key : string) (n : Z) :
  NoDup (fst <$> l) -> (key, n) ∈ l ->
  exists l1 l2,
    l = l1 ++ (key, n) :: l2 /\
    (forall m, (key, m) ∉ l1) /\ (forall m, (key, m) ∉ l2).
Proof.
  intros Hnd Hin.
  apply list_elem_of_split in Hin as [l1 [l2 ->]].
  exists l1, l2. split; [reflexivity |].
  rewrite fmap_app, fmap_cons in Hnd. cbn [fst] in Hnd.
  apply NoDup_app in Hnd as (_ & Hdisj & Hnd2).
  apply NoDup_cons in Hnd2 as [Hnot2 _].
  split; intros m Hm.
  - apply (Hdisj key).
    + apply list_elem_of_fmap. exists (key, m). auto.
    + apply elem_of_cons. now left.
  - apply Hnot2. apply list_elem_of_fmap. exists (key, m). auto.
Qed.

Lemma ExtractComponents_keys (list_ : list Part) :
  (Z.of_nat (length list_) <= INT_MAX)%Z ->
  forall key n,
    snd (ExtractComponents list_ ∅) !! key = Some n ->
    n = Z.of_nat (kind_count key list_) /\
    exists part, part ∈ list_ /\ component_key part = key.
Proof.
  intros Hlen key n.
  destruct (ExtractComponents_invariant list_ Hlen)
    as [c [Hrun [Hcnt [Hnone _]]]].
  rewrite Hrun. cbn [snd]. intros Hn. split.
  - specialize (Hcnt key). rewrite Hn in Hcnt. exact Hcnt.
  - destruct (decide (kind_count key list_ = 0)) as [Hz | Hnz].
    + apply Hnone in Hz. congruence.
    + unfold kind_count in Hnz.
      destruct (filter _ list_) as [|part rest] eqn:Hf; [contradiction |].
      assert (Hp : part ∈ filter (fun p => component_key p = key) list_)
        by (rewrite Hf; apply elem_of_cons; now left).
      apply list_elem_of_filter in Hp as [Hk Hp]. eauto.
Qed.

Lemma ExtractComponents_part (list_ : list Part) (part : Part) :
  (Z.of_nat (length list_) <= INT_MAX)%Z ->
  part ∈ list_ ->
  snd (ExtractComponents list_ ∅) !! component_key part
  = Some (Z.of_nat (kind_count (component_key part) list_)).
Proof.
  intros Hlen Hpart.
  destruct (ExtractComponents_invariant list_ Hlen)
    as [c [Hrun [Hcnt [Hnone _]]]].
  rewrite Hrun. cbn [snd].
  destruct (c !! component_key part) as [n|] eqn:Hn.
  - specialize (Hcnt (component_key part)). rewrite Hn in Hcnt.
    simpl in Hcnt. now rewrite Hcnt.
  - apply Hnone in Hn. exfalso.
    exact (proj1 (kind_count_zero _ _) Hn part Hpart eq_refl).
Qed.

Lemma FindPartClosestTo_elem (distance : Position -> Position -> float)
    (list_ : list Part) (p : Position) (r : Part) :
  FindPartClosestTo distance list_ p = Some r -> r ∈ list_.
Proof.
  unfold FindPartClosestTo.
  assert (Hgen : forall l st,
            (forall r', fst st = Some r' -> r' ∈ list_) ->
            (forall x, x ∈ l -> x ∈ list_) ->
            forall r', fst (foldl (fun (st : option Part * float) part =>
                 if F32.ltb (snd st) (F32.of_int 0)
                    || F32.ltb (distance (pos part) p) (snd st)
                 then (Some part, distance (pos part) p) else st) st l)
               = Some r' -> r' ∈ list_).
  { induction l as [|x l IH]; intros st Hst Hl r'; [apply Hst |].
    cbn [foldl]. apply IH.
    - destruct (_ || _); [| exact Hst].
      intros r'' Heq. injection Heq as <-. apply Hl, elem_of_cons. now left.
    - intros y Hy. apply Hl, elem_of_cons. now right. }
  apply (Hgen list_ (None, F32.of_int (-1))); auto.
  intros r' Heq. discriminate Heq.
Qed.

Lemma board_line_elem (r : option Part) (l : homer_line) :
  l ∈ match r with
      | Some board_part => [HL_board (component_name board_part)]
      | None => []
      end ->
  exists part, r = Some part /\ l = HL_board (component_name part).
Proof.
  destruct r as [r|]; intros Hl.
  - apply elem_of_cons in Hl as [-> | Hl]; [eauto |].
    apply elem_of_nil in Hl. destruct Hl.
  - apply elem_of_nil in Hl. destruct Hl.
Qed.

Lemma CreateHomerInstruction_split
    (distance : Position -> Position -> float) (board : Board)
    (dimension : Position) (part : Part) :
  (Z.of_nat (length (parts board)) <= INT_MAX)%Z ->
  part ∈ parts board ->
  exists l1 l2,
    CreateHomerInstruction distance board dimension
    = l1 ++ HL_tape 1 (component_key part)
         :: HL_tape (Z.min (Z.max 2 (Z.of_nat
                       (kind_count (component_key part) (parts board)))) 4)
                    (component_key part)
         :: l2 /\
    (forall idx, HL_tape idx (component_key part) ∉ l1) /\
    (forall idx, HL_tape idx (component_key part) ∉ l2).
Proof.
  intros Hlen Hpart.
  pose proof (ExtractComponents_part _ _ Hlen Hpart) as Hc.
  apply counts_in_key_order_elem in Hc.
  destruct (NoDup_fst_split _ _ _ (counts_in_key_order_NoDup _) Hc)
    as [a [b [Hsplit [Ha Hb]]]].
  unfold CreateHomerInstruction. cbv zeta. rewrite Hsplit.
  change (fun pair : string * Z =>
            [HL_tape 1 (fst pair);
             HL_tape (Z.min (Z.max 2 (snd pair)) 4) (fst pair)])
    with tape_lines_of.
  eexists ([HL_bedlevel] ++ flat_map tape_lines_of a), (flat_map tape_lines_of b ++ _).
  split; [| split].
  - rewrite flat_map_app. cbn [flat_map tape_lines_of fst snd app].
    rewrite <- !app_assoc. reflexivity.
  - intros idx Hin. cbn [app] in Hin.
    apply elem_of_cons in Hin as [Heq | Hin]; [discriminate Heq |].
    apply tape_lines_of_elem in Hin as [n [Hn _]]. exact (Ha n Hn).
  - intros idx Hin. apply elem_of_app in Hin as [Hin | Hin].
    + apply tape_lines_of_elem in Hin as [n [Hn _]]. exact (Hb n Hn).
    + apply elem_of_app in Hin as [Hin | Hin];
        apply board_line_elem in Hin as [p [_ Heq]]; discriminate Heq.
Qed.

(** X20.  The instructions of [CreateHomerInstruction] start with the
    bed level; for each kind of part of the board they hold the line for
    component 1 directly followed by the line for component 2, 3 or 4 (the
    count of that kind, kept between 2 and 4), and no other line for that
    kind; every [board:] line names a part of the board, and a board
    without parts gets the bed level line only. *)
Theorem CreateHomerInstruction_lines
    (distance : Position -> Position -> float) (board : Board)
    (dimension : Position) :
  (Z.of_nat (length (parts board)) <= INT_MAX)%Z ->
  let ls := CreateHomerInstruction distance board dimension in
  head ls = Some HL_bedlevel /\
  (forall idx key,
     HL_tape idx key ∈ ls ->
     (idx = 1 \/ 2 <= idx <= 4)%Z /\
     exists part, part ∈ parts board /\ component_key part = key) /\
  (forall part,
     part ∈ parts board ->
     exists l1 l2,
       ls = l1 ++ HL_tape 1 (component_key part)
               :: HL_tape (Z.min (Z.max 2 (Z.of_nat
                             (kind_count (component_key part) (parts board)))) 4)
                          (component_key part)
               :: l2 /\
       (forall idx, HL_tape idx (component_key part) ∉ l1) /\
       (forall idx, HL_tape idx (component_key part) ∉ l2)) /\
  (forall name,
     HL_board name ∈ ls ->
     exists part, part ∈ parts board /\ component_name part = name) /\
  (parts board = [] -> ls = [HL_bedlevel]).
Proof.
  intros Hlen ls.
  split; [reflexivity |]. split; [| split; [| split]].
  - intros idx key Hin. unfold ls, CreateHomerInstruction in Hin.
    cbv zeta in Hin. cbn [app] in Hin.
    apply elem_of_cons in Hin as [Heq | Hin]; [discriminate Heq |].
    apply elem_of_app in Hin as [Hin | Hin].
    + apply (tape_lines_of_elem _ idx key) in Hin as [n [Hn Hidx]].
      apply counts_in_key_order_elem in Hn.
      destruct (ExtractComponents_keys _ Hlen key n Hn) as [_ Hp].
      split; [lia | exact Hp].
    + apply elem_of_app in Hin as [Hin | Hin];
        apply board_line_elem in Hin as [p [_ Heq]]; discriminate Heq.
  - intros part Hpart. apply CreateHomerInstruction_split; assumption.
  - intros name Hin. unfold ls, CreateHomerInstruction in Hin.
    cbv zeta in Hin. cbn [app] in Hin.
    apply elem_of_cons in Hin as [Heq | Hin]; [discriminate Heq |].
    apply elem_of_app in Hin as [Hin | Hin].
    + apply list_elem_of_In, in_flat_map in Hin as [[k n] [_ Hin]].
      destruct Hin as [Heq | [Heq | []]]; discriminate Heq.
    + apply elem_of_app in Hin as [Hin | Hin];
        apply board_line_elem in Hin as [p [Hp Heq]];
        apply FindPartClosestTo_elem in Hp; injection Heq as ->; eauto.
  - intros Hnil. unfold ls, CreateHomerInstruction. rewrite Hnil. reflexivity.
Qed.

(** ** The instructions, answered, as a calibration file *)





Lemma CreateHomerInstruction_lines_witness :
  (Z.of_nat (length (parts two_part_board)) <= INT_MAX)%Z /\
  CreateHomerInstruction Distance two_part_board example_dimension
    = [ HL_bedlevel;
        HL_tape 1 "smd0805@100n"; HL_tape 2 "smd0805@100n";
        HL_tape 1 "smd0805@10k"; HL_tape 2 "smd0805@10k";
        HL_board "R1"; HL_board "C1" ] /\
  head (CreateHomerInstruction Distance two_part_board example_dimension)
    = Some HL_bedlevel.
Proof.
  assert (Hlen : (Z.of_nat (length (parts two_part_board)) <= INT_MAX)%Z)
    by (vm_compute; discriminate).
  split; [exact Hlen |]. split; [vm_compute; reflexivity |].
  exact (proj1 (CreateHomerInstruction_lines Distance two_part_board
                  example_dimension Hlen)).
Defined.


(* ===================================================================== *)
(** * The template of CreateConfigTemplate and the list of CreateList *)
(* ===================================================================== *)

(** ** CreateConfigTemplate *)

Lemma first_occurrences_snoc (l : list string) (x : string) :
  first_occurrences (l ++ [x])
  = if decide (x ∈ first_occurrences l) then first_occurrences l
    else first_occurrences l ++ [x].
Proof. unfold first_occurrences. rewrite foldl_snoc. reflexivity. Qed.

Lemma first_occurrences_elem (l : list string) (x : string) :
  x ∈ first_occurrences l <-> x ∈ l.
Proof.
  induction l as [|y l IH] using rev_ind.
  - reflexivity.
  - rewrite first_occurrences_snoc, elem_of_app, list_elem_of_singleton.
    destruct (decide (y ∈ first_occurrences l)) as [Hy | Hy].
    + rewrite IH. split; [tauto |]. intros [H | ->]; [exact H | now apply IH].
    + rewrite elem_of_app, list_elem_of_singleton, IH. reflexivity.
Qed.

Lemma first_occurrences_NoDup (l : list string) : NoDup (first_occurrences l).
Proof.
  induction l as [|y l IH] using rev_ind.
  - constructor.
  - rewrite first_occurrences_snoc.
    destruct (decide (y ∈ first_occurrences l)) as [Hy | Hy]; [exact IH |].
    apply NoDup_app. split; [exact IH |]. split.
    + intros x Hx Hx'. apply list_elem_of_singleton in Hx'. congruence.
    + apply NoDup_singleton.
Qed.

Lemma CreateConfigTemplate_invariant (width height : Part -> Z)
    (list_ : list Part) :
  (Z.of_nat (length list_) <= INT_MAX)%Z ->
  forall p,
    (forall part, part ∈ p -> part ∈ list_) ->
    exists ypos components out,
      foldl (CreateConfigTemplate_step width height)
            (0%Z, snd (ExtractComponents list_ ∅), []) p
      = (ypos, components, out) /\
      (forall key,
         components !! key
         = if decide (key ∈ component_key <$> p) then None
           else snd (ExtractComponents list_ ∅) !! key) /\
      ts_key <$> out = first_occurrences (component_key <$> p) /\
      Forall (section_of width height list_) out.
Proof.
  intros Hlen p. induction p as [|x p IH] using rev_ind; intros Hsub.
  - exists 0%Z, (snd (ExtractComponents list_ ∅)), [].
    split; [reflexivity |]. split; [| split; [reflexivity | constructor]].
    intros key. rewrite decide_False; [reflexivity |]. apply not_elem_of_nil.
  - destruct IH as (ypos & comps & out & Hrun & Hmap & Hkeys & Hsec).
    { intros part Hin. apply Hsub, elem_of_app. now left. }
    assert (Hx : x ∈ list_).
    { apply Hsub, elem_of_app. right. apply list_elem_of_singleton. reflexivity. }
    rewrite foldl_snoc, Hrun. unfold CreateConfigTemplate_step.
    rewrite fmap_app. cbn [fmap list_fmap].
    rewrite first_occurrences_snoc.
    rewrite (Hmap (component_key x)).
    destruct (decide (component_key x ∈ component_key <$> p)) as [Hseen | Hnew].
    + exists ypos, comps, out. split; [reflexivity |].
      rewrite decide_True by (apply first_occurrences_elem; exact Hseen).
      split; [| split; assumption].
      intros key. rewrite Hmap.
      destruct (decide (key ∈ component_key <$> p)) as [Hk | Hk].
      * rewrite decide_True; [reflexivity |]. apply elem_of_app. now left.
      * rewrite decide_False; [reflexivity |].
        rewrite elem_of_app, list_elem_of_singleton. intros [H | ->]; contradiction.
    + rewrite (ExtractComponents_part list_ x Hlen Hx).
      eexists _, _, _. split; [reflexivity |].
      rewrite decide_False by (rewrite first_occurrences_elem; exact Hnew).
      split; [| split].
      * intros key. destruct (decide (key = component_key x)) as [-> | Hne].
        -- rewrite lookup_delete_eq. rewrite decide_True; [reflexivity |].
           apply elem_of_app. right. apply list_elem_of_singleton. reflexivity.
        -- rewrite lookup_delete_ne by congruence. rewrite Hmap.
           destruct (decide (key ∈ component_key <$> p)) as [Hk | Hk].
           ++ rewrite decide_True; [reflexivity |]. apply elem_of_app. now left.
           ++ rewrite decide_False; [reflexivity |].
              rewrite elem_of_app, list_elem_of_singleton. tauto.
      * rewrite fmap_app, Hkeys. reflexivity.
      * apply Forall_app. split; [exact Hsec |].
        constructor; [| constructor].
        exists x. cbn [ts_key ts_count ts_origin_x ts_spacing]. auto.
Qed.

(** X23.  [CreateConfigTemplate] prints one [Tape:] section for each
    kind of part, in the order in which the kinds first occur on the board
    and none twice, with the number of parts of that kind as [count:]
    (never 0) and a spacing of 4 or of the height plus 2; the total is the
    number of parts. *)
Theorem CreateConfigTemplate_sections (width height : Part -> Z)
    (board : Board) (dimension : Position) :
  (Z.of_nat (length (parts board)) <= INT_MAX)%Z ->
  let sections := snd (fst (CreateConfigTemplate width height board dimension)) in
  let total_count := snd (CreateConfigTemplate width height board dimension) in
  ts_key <$> sections = first_occurrences (component_key <$> parts board) /\
  NoDup (ts_key <$> sections) /\
  (forall part, part ∈ parts board -> component_key part ∈ ts_key <$> sections) /\
  Forall (section_of width height (parts board)) sections /\
  Forall (fun s => (1 <= ts_count s)%Z) sections /\
  total_count = Z.of_nat (length (parts board)).
Proof.
  intros Hlen sections total_count.
  destruct (CreateConfigTemplate_invariant width height (parts board) Hlen
              (parts board) ltac:(auto))
    as (ypos & comps & out & Hrun & _ & Hkeys & Hsec).
  assert (Hs : sections = out).
  { unfold sections, CreateConfigTemplate. cbv zeta. rewrite Hrun. reflexivity. }
  rewrite Hs. split; [exact Hkeys |]. rewrite Hkeys.
  split; [apply first_occurrences_NoDup |]. split; [| split; [| split]].
  - intros part Hpart. apply first_occurrences_elem.
    apply list_elem_of_fmap. eauto.
  - exact Hsec.
  - eapply Forall_impl; [exact Hsec |].
    intros s (part & Hpart & Hk & Hc & _). rewrite Hc.
    assert (Hnz : kind_count (ts_key s) (parts board) <> 0).
    { rewrite kind_count_zero, Hk. intros Hall. exact (Hall part Hpart eq_refl). }
    lia.
  - unfold total_count, CreateConfigTemplate. cbv zeta. rewrite Hrun. cbn [snd].
    destruct (ExtractComponents_invariant (parts board) Hlen) as [c [Hc _]].
    now rewrite Hc.
Qed.

(** ** The template is a configuration file *)










(** ** CreateList *)

Lemma String_leb_ltb (s1 s2 : string) :
  String.leb s1 s2 = true <-> String.ltb s2 s1 = false.
Proof.
  unfold String.leb, String.ltb. rewrite (String.compare_antisym s1 s2).
  destruct (String.compare s2 s1); simpl; split; congruence.
Qed.

#[local] Instance count_key_le_total : Total count_key_le.
Proof. intros a b. unfold count_key_le. apply String.leb_total. Qed.

#[local] Instance count_key_le_trans : Transitive count_key_le.
Proof.
  intros a b c. unfold count_key_le. rewrite !String_leb_ltb.
  intros Hab Hbc. exact (String_not_after_trans _ _ _ Hab Hbc).
Qed.

Lemma counts_in_key_order_sorted (m : ComponentCount) :
  StronglySorted (fun a b => String.ltb (fst a) (fst b) = true)
                 (counts_in_key_order m).
Proof.
  pose proof (StronglySorted_merge_sort count_key_le (map_to_list m)) as Hs.
  pose proof (counts_in_key_order_NoDup m) as Hnd.
  fold (counts_in_key_order m) in Hs.
  induction Hs as [|x l Hs IH Hx]; [constructor |].
  rewrite fmap_cons in Hnd. apply NoDup_cons in Hnd as [Hnot Hnd].
  constructor; [apply IH, Hnd |].
  rewrite Forall_forall in Hx |- *. intros y Hy.
  specialize (Hx y Hy). unfold count_key_le in Hx.
  apply String_leb_ltb in Hx. apply String_ltb_total; [exact Hx |].
  intros Heq. apply Hnot. rewrite <- Heq. apply list_elem_of_fmap. eauto.
Qed.

Lemma foldl_max_ge {A : Type} (f : A -> Z) (l : list A) :
  forall init,
    (init <= foldl (fun acc y => Z.max (f y) acc) init l)%Z /\
    forall x, x ∈ l -> (f x <= foldl (fun acc y => Z.max (f y) acc) init l)%Z.
Proof.
  induction l as [|y l IH]; intros init; cbn [foldl].
  - split; [lia |]. intros x Hx. apply elem_of_nil in Hx. destruct Hx.
  - destruct (IH (Z.max (f y) init)) as [Hinit Hall]. split; [lia |].
    intros x Hx. apply elem_of_cons in Hx as [-> | Hx]; [lia | apply Hall, Hx].
Qed.

(** X22.  [CreateList] prints one line for each kind of part, in strictly
    ascending order of the keys, with the number of parts of that kind; all
    lines have one field width, which no key is longer than; and the total
    is the number of parts. *)
Theorem CreateList_lines (list_ : list Part) :
  (Z.of_nat (length list_) <= INT_MAX)%Z ->
  (forall part, part ∈ list_ ->
     (Z.of_nat (String.length (component_key part)) <= INT_MAX)%Z) ->
  let lines := fst (CreateList list_) in
  let total_count := snd (CreateList list_) in
  total_count = Z.of_nat (length list_) /\
  StronglySorted (fun a b => String.ltb (snd (fst a)) (snd (fst b)) = true) lines /\
  (forall part, part ∈ list_ ->
     exists longest,
       (longest, component_key part,
        Z.of_nat (kind_count (component_key part) list_)) ∈ lines) /\
  (forall longest key n,
     (longest, key, n) ∈ lines ->
     n = Z.of_nat (kind_count key list_) /\ (1 <= n)%Z /\
     (Z.of_nat (String.length key) <= longest)%Z /\
     exists part, part ∈ list_ /\ component_key part = key) /\
  (forall a b, a ∈ lines -> b ∈ lines -> fst (fst a) = fst (fst b)).
Proof.
  intros Hlen Hkeys lines total_count.
  unfold lines, total_count, CreateList. cbv zeta. cbn [fst snd].
  set (c := snd (ExtractComponents list_ ∅)).
  set (longest := foldl _ _ _).
  split; [| split; [| split; [| split]]].
  - destruct (ExtractComponents_invariant list_ Hlen) as [c' [Hc _]].
    now rewrite Hc.
  - pose proof (counts_in_key_order_sorted c) as Hs. clearbody longest.
    induction Hs as [|x l Hs IH Hx]; [constructor |].
    cbn [map]. constructor; [exact IH |].
    clear -Hx. induction Hx as [|y l Hy _ IH]; cbn [map]; constructor;
      [exact Hy | exact IH].
  - intros part Hpart. exists longest.
    apply list_elem_of_In, in_map_iff.
    exists (component_key part, Z.of_nat (kind_count (component_key part) list_)).
    split; [reflexivity |]. apply list_elem_of_In, counts_in_key_order_elem.
    apply ExtractComponents_part; assumption.
  - intros w key n Hin.
    apply list_elem_of_In, in_map_iff in Hin as [[k m] [Heq Hin]].
    cbn [fst snd] in Heq. injection Heq as <- -> ->.
    apply list_elem_of_In in Hin.
    pose proof Hin as Hc. apply counts_in_key_order_elem in Hc.
    destruct (ExtractComponents_keys list_ Hlen key n Hc) as [Hn [part [Hp Hk]]].
    split; [exact Hn |].
    assert (Hnz : kind_count key list_ <> 0).
    { rewrite kind_count_zero. intros Hall. exact (Hall part Hp Hk). }
    split; [lia |]. split; [| eauto].
    destruct (foldl_max_ge
                (fun pair : string * Z => int_wrap (Z.of_nat (String.length (fst pair))))
                (counts_in_key_order c) (-1)%Z) as [_ Hge].
    specialize (Hge (key, n) Hin). cbn [fst] in Hge.
    assert (Hw : int_wrap (Z.of_nat (String.length key))
                 = Z.of_nat (String.length key)).
    { specialize (Hkeys part Hp). rewrite Hk in Hkeys.
      unfold int_wrap, INT_MAX in *. rewrite Z.mod_small; lia. }
    rewrite Hw in Hge. exact Hge.
  - intros a b Ha Hb.
    apply list_elem_of_In, in_map_iff in Ha as [x [<- _]].
    apply list_elem_of_In, in_map_iff in Hb as [y [<- _]]. reflexivity.
Qed.

Lemma CreateConfigTemplate_sections_witness :
  (Z.of_nat (length (parts three_caps_board)) <= INT_MAX)%Z /\
  CreateConfigTemplate example_width example_height three_caps_board
    example_dimension
  = (F32.of_int 40, [mkTapeSection "smd0805@100n" 3 11 3 4], 3%Z) /\
  NoDup (ts_key <$> snd (fst (CreateConfigTemplate example_width example_height
                                three_caps_board example_dimension))).
Proof.
  assert (Hlen : (Z.of_nat (length (parts three_caps_board)) <= INT_MAX)%Z)
    by (vm_compute; discriminate).
  split; [exact Hlen |]. split; [vm_compute; reflexivity |].
  exact (proj1 (proj2 (CreateConfigTemplate_sections example_width
                         example_height three_caps_board example_dimension
                         Hlen))).
Defined.



Lemma CreateList_lines_witness :
  (Z.of_nat (length (parts two_part_board)) <= INT_MAX)%Z /\
  (forall part, part ∈ parts two_part_board ->
     (Z.of_nat (String.length (component_key part)) <= INT_MAX)%Z) /\
  CreateList (parts two_part_board)
    = ([(12%Z, "smd0805@100n", 1%Z); (12%Z, "smd0805@10k", 1%Z)], 2%Z) /\
  snd (CreateList (parts two_part_board)) = 2%Z.
Proof.
  assert (Hlen : (Z.of_nat (length (parts two_part_board)) <= INT_MAX)%Z)
    by (vm_compute; discriminate).
  assert (Hk : forall part, part ∈ parts two_part_board ->
     (Z.of_nat (String.length (component_key part)) <= INT_MAX)%Z).
  { intros part Hin. cbn in Hin. by_cases_in_list; vm_compute; discriminate. }
  split; [exact Hlen |]. split; [exact Hk |]. split; [vm_compute; reflexivity |].
  exact (proj1 (CreateList_lines (parts two_part_board) Hlen Hk)).
Defined.

(* ===================================================================== *)
(** * The options and the calls of main *)
(* ===================================================================== *)

Lemma main_option_None (s : main_locals) (o : cli_option) :
  main_option s o = None <-> bad_option o.
Proof.
  destruct o; simpl; try (split; [discriminate | contradiction]).
  - destruct vals as [|a [|b [|c vals]]]; simpl; split;
      try discriminate; try lia; try reflexivity; intros H; contradiction.
  - split; auto.
Qed.

Lemma main_option_Some (s s' : main_locals) (o : cli_option) :
  main_option s o = Some s' ->
  output_type s'
    = match operation_of o with Some t => t | None => output_type s end /\
  config_filename s'
    = match o with Opt_c f => Some f | _ => config_filename s end /\
  simple_config_filename s'
    = match o with Opt_C f => Some f | _ => simple_config_filename s end /\
  out_postscript s'
    = match o with Opt_P => true | _ => out_postscript s end /\
  (start_ms s', area_ms s')
    = match o with Opt_D [a; b] => (a, b) | _ => (start_ms s, area_ms s) end.
Proof.
  destruct o; simpl; intros H; try (injection H as <-; simpl; auto 10);
    try discriminate H.
  destruct vals as [|a [|b [|c vals]]]; try discriminate H.
  injection H as <-. simpl. auto 10.
Qed.

Lemma main_options_result (os : list cli_option) :
  forall s,
    match main_options s os with
    | None => Exists bad_option os
    | Some s' =>
        Forall (fun o => ~ bad_option o) os /\
        output_type s' = last_of operation_of (output_type s) os /\
        config_filename s'
          = last_of (fun o => match o with Opt_c f => Some (Some f) | _ => None end)
                    (config_filename s) os /\
        simple_config_filename s'
          = last_of (fun o => match o with Opt_C f => Some (Some f) | _ => None end)
                    (simple_config_filename s) os /\
        out_postscript s'
          = last_of (fun o => match o with Opt_P => Some true | _ => None end)
                    (out_postscript s) os /\
        (start_ms s', area_ms s')
          = last_of (fun o => match o with Opt_D [a; b] => Some (a, b) | _ => None end)
                    (start_ms s, area_ms s) os
    end.
Proof.
  induction os as [|o os IH]; intros s.
  - simpl. split; [constructor | auto].
  - cbn [main_options].
    destruct (main_option s o) as [s1|] eqn:Ho.
    + assert (Hgood : ~ bad_option o).
      { intros Hbad. apply (main_option_None s) in Hbad. congruence. }
      destruct (main_option_Some _ _ _ Ho) as (H1 & H2 & H3 & H4 & H5).
      specialize (IH s1). destruct (main_options s1 os) as [s'|].
      * destruct IH as (Hall & I1 & I2 & I3 & I4 & I5).
        split; [constructor; assumption |].
        unfold last_of in *. cbn [foldl].
        rewrite I1, I2, I3, I4, I5, H1, H2, H3, H4, H5.
        destruct o as [| | |[|a [|b [|c vals]]]| | | | | |]; auto.
      * apply Exists_cons. now right.
    + apply Exists_cons. left. apply (main_option_None s). exact Ho.
Qed.

(** X26.  The options of [main] are rejected exactly when one of them is
    unknown or is a [-D] whose argument does not give two numbers.
    Otherwise every local holds the value of the last option that sets it:
    the last of [-t -l -H -p -d] is the operation, the last [-c] and [-C]
    the file names, the last [-D] the two times, and [-P] given once
    stays. *)
Theorem main_options_last_wins (os : list cli_option) :
  (main_options main_locals_init os = None <-> Exists bad_option os) /\
  forall s,
    main_options main_locals_init os = Some s ->
    output_type s = last_of operation_of OUT_NONE os /\
    config_filename s
      = last_of (fun o => match o with Opt_c f => Some (Some f) | _ => None end)
                None os /\
    simple_config_filename s
      = last_of (fun o => match o with Opt_C f => Some (Some f) | _ => None end)
                None os /\
    out_postscript s
      = last_of (fun o => match o with Opt_P => Some true | _ => None end)
                false os /\
    (start_ms s, area_ms s)
      = last_of (fun o => match o with Opt_D [a; b] => Some (a, b) | _ => None end)
                (minimum_milliseconds, area_to_milliseconds) os.
Proof.
  pose proof (main_options_result os main_locals_init) as H.
  destruct (main_options main_locals_init os) as [s'|].
  - destruct H as (Hall & H1 & H2 & H3 & H4 & H5). split.
    + split; [discriminate |]. intros Hex. exfalso.
      apply Exists_exists in Hex as [o [Ho Hbad]].
      rewrite Forall_forall in Hall. exact (Hall o Ho Hbad).
    + intros s Hs. injection Hs as <-. auto.
  - split; [split; auto | discriminate].
Qed.

Lemma last_of_filename_None (f : cli_option -> option (option string))
    (os : list cli_option) :
  (forall o b, f o = Some b -> b <> None) ->
  forall init,
    last_of f init os = None -> init = None /\ forall o, o ∈ os -> f o = None.
Proof.
  intros Hf. induction os as [|o os IH]; intros init H.
  - split; [exact H |]. intros o Ho. apply elem_of_nil in Ho. destruct Ho.
  - unfold last_of in H. cbn [foldl] in H. apply IH in H as [H Hos].
    destruct (f o) as [b|] eqn:Hb.
    + exfalso. exact (Hf o b Hb H).
    + split; [exact H |]. intros o' Ho'.
      apply elem_of_cons in Ho' as [-> | Ho']; [exact Hb | apply Hos, Ho'].
Qed.

#[local] Set Warnings "-clear-no-such-hyp".

Ltac events_by_cases Hnoc :=
  cbn [fst snd negb andb app];
  repeat match goal with |- _ /\ _ => split end;
  try (intros f Hf f'; first [apply Hnoc; reflexivity
                             | exfalso; revert Hf; set_unfold; naive_solver]);
  first [ left; reflexivity | right; left; reflexivity | right; right; reflexivity
        | intros Hnever;
          first [ discriminate Hnever
                | split; [reflexivity |]; eexists; reflexivity ]
        | set_unfold; naive_solver ].

(** X27.  [main] exits with 0 or 1 or does not return.  It does not
    return exactly when it has called [ParsePnPConfiguration] and that
    call does not come back: the call is then the last thing it does, and
    no machine is made.  It prints the usage, and does nothing else,
    exactly when an option is bad or the report file is missing; the three
    listing operations read no configuration and make no machine; a [-C]
    file is read only if there is no [-c]; [Finish] is called exactly when
    [Init] was called and succeeded, also when no operation was chosen. *)
Theorem main_calls (os : list cli_option)
    (has_rpt_file rpt_ok parse_returns init_ok : bool) :
  let events := fst (main os has_rpt_file rpt_ok parse_returns init_ok) in
  let result := snd (main os has_rpt_file rpt_ok parse_returns init_ok) in
  (result = Returns 0%Z \/ result = Returns 1%Z \/ result = NeverReturns) /\
  (result = NeverReturns ->
   parse_returns = false /\
   exists f, events = [EvParseFromRpt; EvParsePnPConfiguration f]) /\
  (forall f,
     (EvParsePnPConfiguration f ∈ events) ->
     parse_returns = false -> result = NeverReturns) /\
  ((EvInit ∈ events) -> result <> NeverReturns) /\
  ((EvUsage ∈ events) <-> (Exists bad_option os \/ has_rpt_file = false)) /\
  ((EvUsage ∈ events) -> events = [EvUsage] /\ result = Returns 1%Z) /\
  ((EvCreateConfigTemplate ∈ events) \/ (EvCreateList ∈ events) \/
   (EvCreateHomerInstruction ∈ events) ->
   result = Returns 0%Z /\ (EvInit ∉ events) /\
   forall f, (EvParsePnPConfiguration f ∉ events) /\
             (EvParseSimplePnPConfiguration f ∉ events)) /\
  (forall f, EvParseSimplePnPConfiguration f ∈ events ->
             forall f', Opt_c f' ∉ os) /\
  ((EvFinish ∈ events) <-> (EvInit ∈ events) /\ init_ok = true) /\
  ((EvFinish ∈ events) -> result = Returns 0%Z) /\
  ((EvPleaseChooseOperation ∈ events) ->
   (EvInit ∈ events) /\ (EvFinish ∈ events)).
Proof.
  intros events result. unfold events, result, main.
  pose proof (main_options_result os main_locals_init) as H.
  destruct (main_options main_locals_init os) as [s|].
  - destruct H as (Hall & _ & Hc & _).
    assert (Hgood : ~ Exists bad_option os).
    { intros Hex. apply Exists_exists in Hex as [o [Ho Hbad]].
      rewrite Forall_forall in Hall. exact (Hall o Ho Hbad). }
    assert (Hnoc : config_filename s = None -> forall f', Opt_c f' ∉ os).
    { intros Hnone f' Hin. rewrite Hnone in Hc. symmetry in Hc.
      apply last_of_filename_None in Hc as [_ Hc].
      - specialize (Hc _ Hin). discriminate Hc.
      - intros o b Hb. destruct o; try discriminate Hb. injection Hb as <-.
        discriminate. }
    clear Hall Hc.
    destruct has_rpt_file; [| events_by_cases Hnoc].
    destruct rpt_ok; [| events_by_cases Hnoc].
    cbn [negb].
    destruct (output_type s); try (events_by_cases Hnoc);
      (destruct (config_filename s) as [cf|] eqn:Hcf;
       [| destruct (simple_config_filename s) as [sf|]]);
      cbv zeta; cbn [andb]; destruct parse_returns; cbn [negb andb];
      destruct init_ok, (out_postscript s);
      events_by_cases Hnoc.
  - events_by_cases Hgood.
Qed.
